(** * Halting analysis of a federated quorum network

    A shallow embedding of [src/util/HaltingAnalysis.ts] and the
    properties its specification states about it.

    The TypeScript code builds a graph of mutable [AnalysisNode] objects
    that are shared through a [Map] keyed by node name, and then mutates
    their [live] flags during one simulation pass per candidate node.
    The embedding keeps that shape: the objects live in a store (a list of
    records in [Map] insertion order, addressed by name), every function
    that mutates or throws is a computation in a small state-and-error
    monad, and the two recursions that are not structural (the memoised
    graph construction and the cascade) take a recursion-depth budget. *)

From Stdlib Require Import String ZArith List Bool Arith Lia.
Import ListNotations.
Open Scope string_scope.
Open Scope Z_scope.
Open Scope list_scope.

(** ** Input types ([../Types/NetworkTypes]) *)

Module NetworkTypes.

(** Modelled from the spec: the declarations of [QuorumSet] and
    [NetworkGraphNode] in [../Types/NetworkTypes], which the analysis
    imports.  The fields are the ones the analysis reads ([t], [v],
    [node], [qset], [distance]).  The declared type of [v] is
    [string[] | QuorumSet[]]; at run time it is an array of values each of
    which is a string or a quorum set, and that is what [Entry] records,
    so that the run-time test [isNested] can be stated as the code has
    it. *)
Inductive QuorumSet : Type :=
| MkQuorumSet (t : Z) (v : list Entry)
with Entry : Type :=
| Peer (id : string)
| Inner (set : QuorumSet).

Definition t (q : QuorumSet) : Z := let (x, _) := q in x.
Definition v (q : QuorumSet) : list Entry := let (_, l) := q in l.

Record NetworkGraphNode : Type := MkNode {
  node : string;
  qset : QuorumSet;
  distance : Z
}.

End NetworkTypes.

Module NT := NetworkTypes.
Abbreviation NetworkQuorumSet := NT.QuorumSet.
Abbreviation NetworkGraphNode := NT.NetworkGraphNode.

(** ** Analysis types *)

Inductive AnalysisQuorumSet : Type :=
| MkAnalysisQuorumSet (threshold : Z) (dependencies : list Dependency)
with Dependency : Type :=
| DepName (n : string)
| DepSet (q : AnalysisQuorumSet).

Definition threshold (q : AnalysisQuorumSet) : Z := let (x, _) := q in x.
Definition dependencies (q : AnalysisQuorumSet) : list Dependency :=
  let (_, l) := q in l.

Record AnalysisNode : Type := MkAnalysisNode {
  name : string;
  live : bool;
  quorumSet : AnalysisQuorumSet;
  dependentsNames : list string;
  networkObject : NetworkGraphNode
}.

Record HaltingFailure : Type := MkHaltingFailure {
  vulnerableNodes : list NetworkGraphNode;
  affectedNodes : list NetworkGraphNode
}.

(** ** Errors and the state-and-error monad *)

(** The two [throw new Error] sites of the construction, the one of the
    driver, and the [TypeError] JavaScript raises when a property of
    [undefined] is read. *)
Inductive Error : Type :=
| NoHomeNode
| BadNetworkGraph (dependentName : string)
| UnsupportedOrder
| TypeError.

Inductive Res (A : Type) : Type :=
| Ok (a : A)
| Throw (e : Error)
| OutOfFuel.
Arguments Ok {A} a.
Arguments Throw {A} e.
Arguments OutOfFuel {A}.

Definition M (S A : Type) : Type := S -> Res (A * S).

Definition ret {S A} (a : A) : M S A := fun s => Ok (a, s).

Definition bind {S A B} (m : M S A) (k : A -> M S B) : M S B :=
  fun s => match m s with
           | Ok (a, s') => k a s'
           | Throw e => Throw e
           | OutOfFuel => OutOfFuel
           end.

Definition throw {S A} (e : Error) : M S A := fun _ => Throw e.
Definition outOfFuel {S A} : M S A := fun _ => OutOfFuel.
Definition get {S} : M S S := fun s => Ok (s, s).
Definition modify {S} (f : S -> S) : M S unit := fun s => Ok (tt, f s).

Declare Scope m_scope.
Delimit Scope m_scope with m.
Notation "x <- m ;; k" := (bind m (fun x => k))
  (at level 61, m at next level, right associativity) : m_scope.
Notation "m ;;; k" := (bind m (fun _ => k))
  (at level 61, right associativity) : m_scope.
Open Scope m_scope.

(** [Array.prototype.forEach] with an effectful callback. *)
Fixpoint forEach {S A} (f : A -> M S unit) (l : list A) : M S unit :=
  match l with
  | [] => ret tt
  | x :: l' => f x ;;; forEach f l'
  end.

(** The same with a local variable of the enclosing function threaded
    through the callback. *)
Fixpoint foldEach {S A B} (f : B -> A -> M S B) (l : list A) (b : B) : M S B :=
  match l with
  | [] => ret b
  | x :: l' => b' <- f b x ;; foldEach f l' b'
  end.

(** ** The store of analysis nodes

    [entryCache] is a [Map] from name to a mutable object; every object is
    entered under its own [name], so the store is the list of objects in
    insertion order and a reference to an object is its name. *)

Definition Store : Type := list AnalysisNode.

(** [entryCache.get(k)], and [analysisNodes.find(n => n.name == k)]. *)
Fixpoint lookup (k : string) (c : Store) : option AnalysisNode :=
  match c with
  | [] => None
  | e :: c' => if String.eqb (name e) k then Some e else lookup k c'
  end.

(** [entryCache.set(entry.name, entry)]: a present key keeps its place, a
    new key goes to the end. *)
Fixpoint cacheSet (entry : AnalysisNode) (c : Store) : Store :=
  match c with
  | [] => [entry]
  | e :: c' => if String.eqb (name e) (name entry) then entry :: c'
               else e :: cacheSet entry c'
  end.

(** A field assignment on the object named [k]. *)
Fixpoint update (k : string) (f : AnalysisNode -> AnalysisNode) (c : Store)
  : Store :=
  match c with
  | [] => []
  | e :: c' => if String.eqb (name e) k then f e :: c'
               else e :: update k f c'
  end.

Definition pushDependency (d : string) (e : AnalysisNode) : AnalysisNode :=
  MkAnalysisNode (name e) (live e)
    (MkAnalysisQuorumSet (threshold (quorumSet e))
       (dependencies (quorumSet e) ++ [DepName d]))
    (dependentsNames e) (networkObject e).

Definition pushDependent (d : string) (e : AnalysisNode) : AnalysisNode :=
  MkAnalysisNode (name e) (live e) (quorumSet e)
    (dependentsNames e ++ [d]) (networkObject e).

Definition setLive (b : bool) (e : AnalysisNode) : AnalysisNode :=
  MkAnalysisNode (name e) b (quorumSet e) (dependentsNames e)
    (networkObject e).

(** ** Type guards *)

(** [isQuorumSet]: a string has no [threshold] property. *)
Definition isQuorumSet (n : Dependency) : bool :=
  match n with
  | DepName _ => false
  | DepSet _ => true
  end.

(** [isNested]: [typeof set[0] != "string"]; [set[0]] of an empty array is
    [undefined], whose type is not ["string"] either. *)
Definition isNested (set : list NT.Entry) : bool :=
  match set with
  | NT.Peer _ :: _ => false
  | _ => true
  end.

(** ** Graph construction *)

(** [nodes.find(p)]. *)
Fixpoint find_node (p : NetworkGraphNode -> bool) (nodes : list NetworkGraphNode)
  : option NetworkGraphNode :=
  match nodes with
  | [] => None
  | n :: nodes' => if p n then Some n else find_node p nodes'
  end.

(** What [n.node == dependentName] and string concatenation make of an
    entry in the branch that takes entries for strings: a quorum-set
    object is converted with [toString]. *)
Definition asString (e : NT.Entry) : string :=
  match e with
  | NT.Peer id => id
  | NT.Inner _ => "[object Object]"
  end.

(** The object literal [generateNode] creates for [node]. *)
Definition newEntry (node : NetworkGraphNode) : AnalysisNode :=
  MkAnalysisNode (NT.node node) true
    (MkAnalysisQuorumSet (NT.t (NT.qset node)) []) [] node.

Section Construction.

Variable nodes : list NetworkGraphNode.

(** [generateQuorumset(set, entry)].  In the source it is declared inside
    [generateNode] and calls it back; here the callback is the parameter
    [generateNode'], and [entry] is the reference to the entry under
    construction. *)
Section GenerateQuorumset.

Variable generateNode' : NetworkGraphNode -> M Store string.
Variable entry : string.

Definition resolve (dependentName : NT.Entry) : M Store unit :=
  match find_node (fun n => String.eqb (NT.node n) (asString dependentName))
          nodes with
  | None => throw (BadNetworkGraph (asString dependentName))
  | Some dependentNetworkNode =>
    depNode <- generateNode' dependentNetworkNode ;;
    modify (update entry (pushDependency depNode)) ;;;
    modify (update depNode (pushDependent entry))
  end.

Fixpoint generateQuorumset (set : NetworkQuorumSet) : M Store unit :=
  match set with
  | NT.MkQuorumSet _ v =>
    if isNested v then
      forEach (fun set' =>
                 match set' with
                 | NT.Inner q => generateQuorumset q
                 | NT.Peer _ => throw TypeError
                 end) v
    else
      forEach resolve v
  end.

End GenerateQuorumset.

(** [generateNode].  [fuel] bounds the nesting depth of [generateNode]
    calls; the walk of one quorum set is structural.  The result is the
    reference to the entry, that is, its name. *)
Fixpoint generateNode (fuel : nat) (node : NetworkGraphNode) {struct fuel}
  : M Store string :=
  match fuel with
  | O => outOfFuel
  | S fuel' =>
    cache <- get ;;
    match lookup (NT.node node) cache with
    | Some cached => ret (name cached)
    | None =>
      let entry := newEntry node in
      modify (cacheSet entry) ;;;
      generateQuorumset (generateNode fuel') (name entry) (NT.qset node) ;;;
      ret (name entry)
    end
  end.

(** [createAnalysisStructure], with the depth budget explicit: the root
    reference and the values of [entryCache] in insertion order. *)
Definition createAnalysisStructureF (fuel : nat) : Res (string * Store) :=
  match find_node (fun n => Z.eqb (NT.distance n) 0) nodes with
  | None => Throw NoHomeNode
  | Some myNode => generateNode fuel myNode []
  end.

End Construction.

(** No chain of nested [generateNode] calls is longer than the number of
    input nodes plus one (lemma [createAnalysisStructureF_total]), which
    is the budget the unparameterised function runs with. *)
Definition createAnalysisStructure (nodes : list NetworkGraphNode)
  : Res (string * Store) :=
  createAnalysisStructureF nodes (S (length nodes)).

(** ** The analysis *)

(** The state of one simulation pass: the analysis nodes (whose [live]
    flags the pass mutates) and the [deadNodes] accumulator the nested
    helpers close over. *)
Record PassState : Type := MkPassState {
  analysisNodes : Store;
  deadNodes : list NetworkGraphNode
}.

(** [reset]. *)
Definition reset (nodes : Store) : Store := map (setLive true) nodes.

(** [getNode]: [find] yields [undefined] for an unknown name, and the
    property read that follows throws. *)
Definition getNode (nm : string) : M PassState AnalysisNode :=
  fun s => match lookup nm (analysisNodes s) with
           | Some n => Ok (n, s)
           | None => Throw TypeError
           end.

Definition pushDead (n : NetworkGraphNode) : M PassState unit :=
  modify (fun s => MkPassState (analysisNodes s) (deadNodes s ++ [n])).

Definition markDead (nm : string) : M PassState unit :=
  modify (fun s => MkPassState (update nm (setLive false) (analysisNodes s))
                     (deadNodes s)).

(** One step of the [forEach] of [quorumSetMeetsThreshold], on the local
    counter [threshold]; [recur] is the recursive call. *)
Definition countDependent (recur : AnalysisQuorumSet -> M PassState bool)
  (threshold : Z) (dependent : Dependency) : M PassState Z :=
  match dependent with
  | DepSet q =>
    ok <- recur q ;;
    ret (if ok then threshold - 1 else threshold)
  | DepName d =>
    dependentNode <- getNode d ;;
    if live dependentNode then ret (threshold - 1)
    else (pushDead (networkObject dependentNode) ;;; ret threshold)
  end.

(** [quorumSetMeetsThreshold]. *)
Fixpoint quorumSetMeetsThreshold (quorum : AnalysisQuorumSet)
  : M PassState bool :=
  match quorum with
  | MkAnalysisQuorumSet threshold0 deps =>
    threshold <- foldEach (countDependent quorumSetMeetsThreshold) deps
                   threshold0 ;;
    ret (threshold <=? 0)
  end.

(** [checkDependents]; [fuel] bounds the depth of the cascade.  Of
    [deadNode] only [dependentsNames] is read, which no pass modifies. *)
Fixpoint checkDependents (fuel : nat) (deadNode : AnalysisNode)
  : M PassState unit :=
  match fuel with
  | O => outOfFuel
  | S fuel' =>
    forEach (fun nodeName =>
               dependentNode <- getNode nodeName ;;
               if live dependentNode then
                 ok <- quorumSetMeetsThreshold (quorumSet dependentNode) ;;
                 if ok then ret tt
                 else (markDead nodeName ;;;
                       pushDead (networkObject dependentNode) ;;;
                       checkDependents fuel' dependentNode)
               else ret tt)
      (dependentsNames deadNode)
  end.

(** [Array.from(new Set(deadNodes))]: the first occurrence of every
    object is kept, in order.  The objects are the [networkObject]s of
    analysis nodes, which differ in their [node] field when they are
    different objects (lemma [networkObject_identity]), so the objects
    are compared by that field. *)
Fixpoint dedupe (seen : list string) (l : list NetworkGraphNode)
  : list NetworkGraphNode :=
  match l with
  | [] => []
  | x :: l' =>
    if existsb (String.eqb (NT.node x)) seen then dedupe seen l'
    else x :: dedupe (NT.node x :: seen) l'
  end.

(** The body of the driver's [forEach], for the candidate [nodeToHalt]:
    the state is the analysis nodes and the list of failure cases.
    [nodeToHalt === root] compares references, that is, names; and
    [root.live] reads the root entry through its reference. *)
Definition simulate (fuel : nat) (root : string) (nodeToHalt : AnalysisNode)
  : M (Store * list HaltingFailure) unit :=
  fun '(nodes, failureCases) =>
    if String.eqb (name nodeToHalt) root then Ok (tt, (nodes, failureCases))
    else
      match (markDead (name nodeToHalt) ;;;
             checkDependents fuel nodeToHalt ;;;
             getNode root)
              (MkPassState (reset nodes) []) with
      | Ok (rootNode, s) =>
        if live rootNode then Ok (tt, (analysisNodes s, failureCases))
        else Ok (tt, (analysisNodes s,
                      failureCases ++
                      [MkHaltingFailure [networkObject nodeToHalt]
                         (dedupe [] (deadNodes s))]))
      | Throw e => Throw e
      | OutOfFuel => OutOfFuel
      end.

(** [haltingAnalysis], with the depth budget explicit.  A call without
    the second argument is a call with [numberOfNodesToTest = 1]. *)
Definition haltingAnalysisF (fuel : nat) (nodes : list NetworkGraphNode)
  (numberOfNodesToTest : Z) : Res (list HaltingFailure) :=
  if negb (numberOfNodesToTest =? 1) then Throw UnsupportedOrder
  else
    match createAnalysisStructureF nodes fuel with
    | Ok (root, analysisNodes) =>
      match forEach (simulate fuel root) analysisNodes (analysisNodes, []) with
      | Ok (_, (_, failureCases)) => Ok failureCases
      | Throw e => Throw e
      | OutOfFuel => OutOfFuel
      end
    | Throw e => Throw e
    | OutOfFuel => OutOfFuel
    end.

(** The cascade of a pass is no deeper than the number of live nodes, so
    the same budget serves (lemma [haltingAnalysisF_stable]). *)
Definition haltingAnalysis (nodes : list NetworkGraphNode)
  (numberOfNodesToTest : Z) : Res (list HaltingFailure) :=
  haltingAnalysisF (S (length nodes)) nodes numberOfNodesToTest.

(** ** The scenarios of the specification *)

Definition leaf (id : string) (d : Z) : NetworkGraphNode :=
  NT.MkNode id (NT.MkQuorumSet 0 []) d.

Definition scenarioA : list NetworkGraphNode :=
  [ NT.MkNode "H" (NT.MkQuorumSet 2 [NT.Peer "A"; NT.Peer "B"; NT.Peer "C"]) 0;
    leaf "A" 1; leaf "B" 1; leaf "C" 1 ].

Definition scenarioB : list NetworkGraphNode :=
  [ NT.MkNode "H" (NT.MkQuorumSet 1 [NT.Peer "A"]) 0;
    leaf "A" 1; leaf "B" 2 ].

(** ** Auxiliary notions for the statements and proofs *)

(** [wp E F m s Q]: from state [s] the computation [m] ends in a result
    and a state that satisfy [Q], or throws an error that satisfies [E],
    or runs out of budget where [F] allows it. *)
Definition wp {S A} (E : Error -> Prop) (F : Prop) (m : M S A) (s : S)
  (Q : A -> S -> Prop) : Prop :=
  match m s with
  | Ok (a, s') => Q a s'
  | Throw e => E e
  | OutOfFuel => F
  end.

Definition anyError : Error -> Prop := fun _ => True.

(** The value a computation returns, without the state. *)
Definition verdict {S A} (r : Res (A * S)) : Res A :=
  match r with
  | Ok (a, _) => Ok a
  | Throw e => Throw e
  | OutOfFuel => OutOfFuel
  end.

(** [m'] behaves as [m] wherever [m] does not run out of budget. *)
Definition refines {S A} (m m' : M S A) : Prop :=
  forall s, m s <> OutOfFuel -> m' s = m s.

Definition names (c : Store) : list string := map name c.

Definition mem (k : string) (l : list string) : bool := existsb (String.eqb k) l.

(** The measure of the construction: the input nodes whose name is not
    registered yet. *)
Definition unregistered (ids : list string) (c : Store) : nat :=
  length (filter (fun id => negb (mem id (names c))) ids).

(** [c'] has the entries of [c], in the same places, and then new ones. *)
Definition extends (c c' : Store) : Prop :=
  exists extra, names c' = names c ++ extra.

Definition inputNames (nodes : list NetworkGraphNode) : list string :=
  map NT.node nodes.

(** Registered names are pairwise different and are names of input
    nodes. *)
Definition registered_ok (nodes : list NetworkGraphNode) (c : Store) : Prop :=
  NoDup (names c) /\ incl (names c) (inputNames nodes).

(** What a call [generateNode(node)] from a store [c] achieves. *)
Definition generateNode_post (nodes : list NetworkGraphNode)
  (node : NetworkGraphNode) (c : Store) (r : string) (c' : Store) : Prop :=
  r = NT.node node /\ registered_ok nodes c' /\ extends c c' /\ In r (names c').

(** The liveness assignment a store carries: [None] for a name that is
    not in the store. *)
Definition liveness (st : Store) (d : string) : option bool :=
  option_map live (lookup d st).

Fixpoint foldOption {A B} (f : B -> A -> option B) (l : list A) (b : B)
  : option B :=
  match l with
  | [] => Some b
  | x :: l' => match f b x with
               | Some b' => foldOption f l' b'
               | None => None
               end
  end.

Section Satisfied.

Variable liveOf : string -> option bool.

Definition countSatisfied (recur : AnalysisQuorumSet -> option bool)
  (threshold : Z) (dependent : Dependency) : option Z :=
  match dependent with
  | DepSet q =>
    match recur q with
    | Some ok => Some (if ok then threshold - 1 else threshold)
    | None => None
    end
  | DepName d =>
    match liveOf d with
    | Some l => Some (if l then threshold - 1 else threshold)
    | None => None
    end
  end.

(** The verdict of [quorumSetMeetsThreshold] read off the threshold, the
    entries and the liveness assignment alone; [None] when an entry names
    a node the assignment does not know. *)
Fixpoint satisfied (quorum : AnalysisQuorumSet) : option bool :=
  match quorum with
  | MkAnalysisQuorumSet threshold0 deps =>
    option_map (fun threshold => threshold <=? 0)
      (foldOption (countSatisfied satisfied) deps threshold0)
  end.

End Satisfied.

(** The network objects of the dead direct references of a quorum set, in
    the order in which the evaluation meets them. *)
Fixpoint deadReferences (st : Store) (quorum : AnalysisQuorumSet)
  : list NetworkGraphNode :=
  match quorum with
  | MkAnalysisQuorumSet _ deps =>
    flat_map (fun dependent =>
                match dependent with
                | DepSet q => deadReferences st q
                | DepName d =>
                  match lookup d st with
                  | Some n => if live n then [] else [networkObject n]
                  | None => []
                  end
                end) deps
  end.

Definition deadReference (st : Store) (dependent : Dependency)
  : list NetworkGraphNode :=
  match dependent with
  | DepSet q => deadReferences st q
  | DepName d =>
    match lookup d st with
    | Some n => if live n then [] else [networkObject n]
    | None => []
    end
  end.

(** What one evaluation does to the state of the pass, and what it
    returns. *)
Definition evaluation_spec {A} (r : Res (A * PassState)) (s : PassState)
  (dead : list NetworkGraphNode) (verdict : option A) : Prop :=
  match r with
  | Ok (a, s') =>
    analysisNodes s' = analysisNodes s /\
    deadNodes s' = deadNodes s ++ dead /\
    verdict = Some a
  | Throw e => e = TypeError /\ verdict = None
  | OutOfFuel => False
  end.

(** [after] is [before] with some [live] flags lowered and nothing else
    changed. *)
Definition fades (before after : Store) : Prop :=
  Forall2 (fun b a => name a = name b /\
                      quorumSet a = quorumSet b /\
                      dependentsNames a = dependentsNames b /\
                      networkObject a = networkObject b /\
                      (live a = true -> live b = true)) before after.

Definition liveCount (c : Store) : nat := length (filter live c).

Definition twoHomes : list NetworkGraphNode := [leaf "H1" 0; leaf "H2" 0].

Definition cyclic : list NetworkGraphNode :=
  [ NT.MkNode "A" (NT.MkQuorumSet 1 [NT.Peer "B"]) 0;
    NT.MkNode "B" (NT.MkQuorumSet 1 [NT.Peer "A"]) 1 ].

(** ** The construction as a derivation

    The calls one construction makes, as a relation between the store
    before and the store after: [TNode] for a call of [generateNode],
    [TSet] for a call of [generateQuorumset], [TNested] and [TNames] for
    its two loops.  The properties of the graph that is built are proved
    by induction on it. *)

Inductive Task : Type :=
| TNode (node : NetworkGraphNode)
| TSet (entry : string) (set : NetworkQuorumSet)
| TNested (entry : string) (v : list NT.Entry)
| TNames (entry : string) (v : list NT.Entry).

Inductive run (nodes : list NetworkGraphNode) : Task -> Store -> Store -> Prop :=
| run_cached node c cached :
    lookup (NT.node node) c = Some cached ->
    run nodes (TNode node) c c
| run_fresh node c c' :
    lookup (NT.node node) c = None ->
    run nodes (TSet (NT.node node) (NT.qset node)) (cacheSet (newEntry node) c) c' ->
    run nodes (TNode node) c c'
| run_set_nested entry t v c c' :
    isNested v = true ->
    run nodes (TNested entry v) c c' ->
    run nodes (TSet entry (NT.MkQuorumSet t v)) c c'
| run_set_names entry t v c c' :
    isNested v = false ->
    run nodes (TNames entry v) c c' ->
    run nodes (TSet entry (NT.MkQuorumSet t v)) c c'
| run_nested_nil entry c :
    run nodes (TNested entry []) c c
| run_nested_cons entry q v c c1 c2 :
    run nodes (TSet entry q) c c1 ->
    run nodes (TNested entry v) c1 c2 ->
    run nodes (TNested entry (NT.Inner q :: v)) c c2
| run_names_nil entry c :
    run nodes (TNames entry []) c c
| run_names_cons entry x v n c c1 c2 :
    find_node (fun m => String.eqb (NT.node m) (asString x)) nodes = Some n ->
    run nodes (TNode n) c c1 ->
    run nodes (TNames entry v)
      (update (NT.node n) (pushDependent entry)
         (update entry (pushDependency (NT.node n)) c1)) c2 ->
    run nodes (TNames entry (x :: v)) c c2.

Definition returns_name (nodes : list NetworkGraphNode)
  (gen : NetworkGraphNode -> M Store string) : Prop :=
  forall node c r c', gen node c = Ok (r, c') ->
    r = NT.node node /\ run nodes (TNode node) c c'.

(** ** The shape of the graph *)

(** The identifiers of the entries of a nested list that are quorum
    sets, as [generateQuorumset] walks them. *)
Definition nestedReferences (recur : NetworkQuorumSet -> list string)
  (v : list NT.Entry) : list string :=
  flat_map (fun e => match e with
                     | NT.Inner q => recur q
                     | NT.Peer _ => []
                     end) v.

(** The identifiers [generateQuorumset] resolves when it walks a quorum
    set, in order: it takes the whole list for nested sets or for
    identifiers by the test [isNested]. *)
Fixpoint references (set : NetworkQuorumSet) : list string :=
  match set with
  | NT.MkQuorumSet _ v =>
    if isNested v then nestedReferences references v
    else map asString v
  end.

(** The peer identifiers of a quorum set, each entry taken by its own
    variant. *)
Fixpoint leaves (set : NetworkQuorumSet) : list string :=
  match set with
  | NT.MkQuorumSet _ v =>
    flat_map (fun e => match e with
                       | NT.Peer id => [id]
                       | NT.Inner q => leaves q
                       end) v
  end.

Definition isPeer (e : NT.Entry) : bool :=
  match e with
  | NT.Peer _ => true
  | NT.Inner _ => false
  end.

(** A quorum set of the declared type: every list in it is a
    [string[]] or a [QuorumSet[]]. *)
Fixpoint wellTyped (set : NetworkQuorumSet) : bool :=
  match set with
  | NT.MkQuorumSet _ v =>
    forallb isPeer v ||
    forallb (fun e => match e with
                      | NT.Inner q => wellTyped q
                      | NT.Peer _ => false
                      end) v
  end.

(** The input node that stands for an identifier in the graph: the home
    node for its own identifier, and the first input node with that
    identifier otherwise. *)
Definition walkedNode (nodes : list NetworkGraphNode) (id : string)
  : option NetworkGraphNode :=
  match find_node (fun n => Z.eqb (NT.distance n) 0) nodes with
  | Some home =>
    if String.eqb (NT.node home) id then Some home
    else find_node (fun n => String.eqb (NT.node n) id) nodes
  | None => None
  end.

(** The identifiers the home node reaches through quorum-set
    references. *)
Inductive reachable (nodes : list NetworkGraphNode) : string -> Prop :=
| reachable_home home :
    find_node (fun n => Z.eqb (NT.distance n) 0) nodes = Some home ->
    reachable nodes (NT.node home)
| reachable_step a n b :
    reachable nodes a ->
    walkedNode nodes a = Some n ->
    In b (references (NT.qset n)) ->
    reachable nodes b.

(** The direct references among the entries of an analysis quorum set. *)
Definition directNames (deps : list Dependency) : list string :=
  flat_map (fun d => match d with
                     | DepName n => [n]
                     | DepSet _ => []
                     end) deps.

(** The quorum set of the entry named [k] is extended with direct
    references to [ds], and its network object is as it was. *)
Definition appends (k : string) (ds : list string) (c c' : Store) : Prop :=
  forall e, lookup k c = Some e ->
    exists e', lookup k c' = Some e' /\
      quorumSet e' = MkAnalysisQuorumSet (threshold (quorumSet e))
                       (dependencies (quorumSet e) ++ map DepName ds) /\
      networkObject e' = networkObject e.

Definition keeps (k : string) (c c' : Store) : Prop := appends k [] c c'.

(** An entry whose quorum set has the threshold of its network object and
    direct references to all the identifiers the walk of its quorum set
    resolves. *)
Definition complete (e : AnalysisNode) : Prop :=
  quorumSet e =
  MkAnalysisQuorumSet (NT.t (NT.qset (networkObject e)))
    (map DepName (references (NT.qset (networkObject e)))).

Definition completes (c c' : Store) : Prop :=
  forall k e', lookup k c' = Some e' -> lookup k c = None -> complete e'.

Definition walk_post (entry : string) (ds : list string) (c c' : Store) : Prop :=
  (forall k, k <> entry -> keeps k c c') /\
  appends entry ds c c' /\
  completes c c'.

(** Forward and backward edges name registered entries and mirror each
    other. *)
Definition edges_ok (c : Store) : Prop :=
  (forall k e d, lookup k c = Some e -> In d (dependencies (quorumSet e)) ->
     exists n, d = DepName n /\ In n (names c)) /\
  (forall k e a, lookup k c = Some e -> In a (dependentsNames e) ->
     In a (names c)) /\
  (forall a b ea eb, lookup a c = Some ea -> lookup b c = Some eb ->
     count_occ string_dec (directNames (dependencies (quorumSet ea))) b =
     count_occ string_dec (dependentsNames eb) a).

(** Every entry is reachable from the home node and carries the input
    node that stands for its name. *)
Definition origin_ok (nodes : list NetworkGraphNode) (c : Store) : Prop :=
  (forall k, In k (names c) -> reachable nodes k) /\
  (forall k e, lookup k c = Some e ->
     walkedNode nodes k = Some (networkObject e)).

(** What each kind of call does to the quorum sets of the entries. *)
Definition structure_post (task : Task) (c c' : Store) : Prop :=
  match task with
  | TNode _ => (forall k, keeps k c c') /\ completes c c'
  | TSet entry q => In entry (names c) -> walk_post entry (references q) c c'
  | TNested entry v =>
    In entry (names c) -> walk_post entry (nestedReferences references v) c c'
  | TNames entry v => In entry (names c) -> walk_post entry (map asString v) c c'
  end.

(** What each kind of call does to the edges. *)
Definition edges_post (task : Task) (c c' : Store) : Prop :=
  match task with
  | TNode _ => edges_ok c -> edges_ok c'
  | TSet entry _ | TNested entry _ | TNames entry _ =>
    In entry (names c) -> edges_ok c -> edges_ok c'
  end.

(** What each kind of call does to the origin of the entries, in a
    construction whose home node is [home]. *)
Definition origin_post (nodes : list NetworkGraphNode) (home : NetworkGraphNode)
  (task : Task) (c c' : Store) : Prop :=
  match task with
  | TNode node =>
    walkedNode nodes (NT.node node) = Some node \/ In (NT.node node) (names c) ->
    NT.node node = NT.node home \/ In (NT.node home) (names c) ->
    reachable nodes (NT.node node) ->
    origin_ok nodes c -> origin_ok nodes c'
  | TSet _ q =>
    In (NT.node home) (names c) ->
    (forall d, In d (references q) -> reachable nodes d) ->
    origin_ok nodes c -> origin_ok nodes c'
  | TNested _ v =>
    In (NT.node home) (names c) ->
    (forall d, In d (nestedReferences references v) -> reachable nodes d) ->
    origin_ok nodes c -> origin_ok nodes c'
  | TNames _ v =>
    In (NT.node home) (names c) ->
    (forall d, In d (map asString v) -> reachable nodes d) ->
    origin_ok nodes c -> origin_ok nodes c'
  end.

(** ** Further inputs *)

(** The home node needs both of two nested requirements: two of [A],
    [B], [C], and [D]. *)
Definition nestedHome : NetworkQuorumSet :=
  NT.MkQuorumSet 2
    [ NT.Inner (NT.MkQuorumSet 2 [NT.Peer "A"; NT.Peer "B"; NT.Peer "C"]);
      NT.Inner (NT.MkQuorumSet 1 [NT.Peer "D"]) ].

Definition nestedQuorum : list NetworkGraphNode :=
  [ NT.MkNode "H" nestedHome 0;
    leaf "A" 1; leaf "B" 1; leaf "C" 1; leaf "D" 1 ].

(** Entry lists that mix the two variants, a nested set first and an
    identifier first. *)
Definition mixedNestedFirst : list NetworkGraphNode :=
  [ NT.MkNode "H"
      (NT.MkQuorumSet 1 [NT.Inner (NT.MkQuorumSet 1 [NT.Peer "A"]); NT.Peer "B"]) 0;
    leaf "A" 1; leaf "B" 1 ].

Definition mixedNameFirst : list NetworkGraphNode :=
  [ NT.MkNode "H"
      (NT.MkQuorumSet 1 [NT.Peer "A"; NT.Inner (NT.MkQuorumSet 1 [NT.Peer "B"])]) 0;
    leaf "A" 1; leaf "B" 1 ].

(** The satisfaction of a quorum requirement as the specification defines
    it, for comparison with what the code evaluates: at least [threshold]
    of the entries are satisfied, a direct reference when the node is
    live, a nested requirement when it is satisfied itself, which counts
    as one. *)
Fixpoint spec_satisfied (liveOf : string -> bool) (q : NetworkQuorumSet) : bool :=
  match q with
  | NT.MkQuorumSet threshold entries =>
    threshold <=?
    Z.of_nat (length (filter (fun e => match e with
                                       | NT.Peer id => liveOf id
                                       | NT.Inner q' => spec_satisfied liveOf q'
                                       end) entries))
  end.

(** ** The analysis on a graph that was built *)

(** What no pass changes in the analysis nodes. *)
Definition shape (c : Store)
  : list (string * AnalysisQuorumSet * list string * NetworkGraphNode) :=
  map (fun e => (name e, quorumSet e, dependentsNames e, networkObject e)) c.

(** Every forward edge is a direct reference to an entry, and every
    backward edge names an entry. *)
Definition closed (c : Store) : Prop :=
  (forall k e d, lookup k c = Some e -> In d (dependencies (quorumSet e)) ->
     exists n, d = DepName n /\ In n (names c)) /\
  (forall k e a, lookup k c = Some e -> In a (dependentsNames e) ->
     In a (names c)).

Definition noError : Error -> Prop := fun _ => False.

(** An input as the specification requires it: exactly one node at
    distance 0, and every identifier in a quorum set, at any depth, the
    identifier of an input node. *)
Definition validInput (nodes : list NetworkGraphNode) : Prop :=
  length (filter (fun n => NT.distance n =? 0) nodes) = 1%nat /\
  (forall n d, In n nodes -> In d (leaves (NT.qset n)) ->
     In d (inputNames nodes)).

(** An input of the declared type: the entry list of every quorum set,
    at any depth, is a [string[]] or a [QuorumSet[]]. *)
Definition typedInput (nodes : list NetworkGraphNode) : Prop :=
  forall n, In n nodes -> wellTyped (NT.qset n) = true.

(** ** Induction principles *)

(** Induction on quorum sets, which nest through lists. *)
Section QuorumSetInd.

Variable P : NetworkQuorumSet -> Prop.
Hypothesis step : forall t v,
  (forall q, In (NT.Inner q) v -> P q) -> P (NT.MkQuorumSet t v).

Fixpoint NetworkQuorumSet_nested_ind (q : NetworkQuorumSet) : P q :=
  match q with
  | NT.MkQuorumSet t v =>
    step t v
      ((fix entries (l : list NT.Entry) : forall q', In (NT.Inner q') l -> P q' :=
          match l with
          | [] => fun q' H => match H with end
          | e :: l' => fun q' H =>
            match H with
            | or_introl Heq =>
              match e return e = NT.Inner q' -> P q' with
              | NT.Inner q0 => fun Heq' =>
                match Heq' in _ = y
                      return match y with NT.Inner q1 => P q1 | _ => True end
                with eq_refl => NetworkQuorumSet_nested_ind q0 end
              | NT.Peer _ => fun Heq' =>
                match Heq' in _ = y
                      return match y with NT.Inner q1 => P q1 | _ => True end
                with eq_refl => I end
              end Heq
            | or_intror Hin => entries l' q' Hin
            end
          end) v)
  end.

End QuorumSetInd.

Section AnalysisQuorumSetInd.

Variable P : AnalysisQuorumSet -> Prop.
Hypothesis step : forall t deps,
  (forall q, In (DepSet q) deps -> P q) -> P (MkAnalysisQuorumSet t deps).

Fixpoint AnalysisQuorumSet_nested_ind (q : AnalysisQuorumSet) : P q :=
  match q with
  | MkAnalysisQuorumSet t deps =>
    step t deps
      ((fix entries (l : list Dependency) : forall q', In (DepSet q') l -> P q' :=
          match l with
          | [] => fun q' H => match H with end
          | e :: l' => fun q' H =>
            match H with
            | or_introl Heq =>
              match e return e = DepSet q' -> P q' with
              | DepSet q0 => fun Heq' =>
                match Heq' in _ = y
                      return match y with DepSet q1 => P q1 | _ => True end
                with eq_refl => AnalysisQuorumSet_nested_ind q0 end
              | DepName _ => fun Heq' =>
                match Heq' in _ = y
                      return match y with DepSet q1 => P q1 | _ => True end
                with eq_refl => I end
              end Heq
            | or_intror Hin => entries l' q' Hin
            end
          end) deps)
  end.

End AnalysisQuorumSetInd.

(** ** Notions for the further properties *)


(** One simulation pass for the candidate [nodeToHalt]: the two
    statements of the driver's loop body that change the state of the
    pass. *)
Definition pass (fuel : nat) (nodeToHalt : AnalysisNode) : M PassState unit :=
  markDead (name nodeToHalt) ;;; checkDependents fuel nodeToHalt.

(** The failure case the driver pushes at the end of a pass, if any. *)
Definition failureCase (root : string) (nodeToHalt : AnalysisNode)
  (s : PassState) : list HaltingFailure :=
  match lookup root (analysisNodes s) with
  | Some rootNode =>
    if live rootNode then []
    else [MkHaltingFailure [networkObject nodeToHalt] (dedupe [] (deadNodes s))]
  | None => []
  end.

(** The failure cases of the pass for the candidate [x] alone, run on the
    graph [entries] as it was built. *)
Definition passCases (fuel : nat) (root : string) (entries : Store)
  (x : AnalysisNode) : list HaltingFailure :=
  if String.eqb (name x) root then []
  else match pass fuel x (MkPassState (reset entries) []) with
       | Ok (_, s) => failureCase root x s
       | _ => []
       end.

(** Whether an entry of a quorum set counts towards the threshold in the
    state [s]: a direct reference when the node is live, a nested set
    when its own evaluation returns [true]. *)
Definition entryMeets (s : PassState) (d : Dependency) : bool :=
  match d with
  | DepName n =>
    match lookup n (analysisNodes s) with
    | Some e => live e
    | None => false
    end
  | DepSet q =>
    match quorumSetMeetsThreshold q s with
    | Ok (true, _) => true
    | _ => false
    end
  end.

(** The same on a liveness assignment. *)
Definition entrySatisfied (liveOf : string -> option bool) (d : Dependency)
  : bool :=
  match d with
  | DepName n => match liveOf n with Some true => true | _ => false end
  | DepSet q => match satisfied liveOf q with Some true => true | _ => false end
  end.

(** [l'] knows the names [l] knows and has no more of them live. *)
Definition fewerLive {A} (le : A -> A -> Prop) (x x' : option A) : Prop :=
  match x, x' with
  | Some b, Some b' => le b b'
  | None, None => True
  | _, _ => False
  end.

Definition implb_le (b b' : bool) : Prop := b' = true -> b = true.

(** The node [d] is dead in the state [s], with the dependents it has
    there. *)
Definition isDead (s : PassState) (d : AnalysisNode) : Prop :=
  exists e, lookup (name d) (analysisNodes s) = Some e /\ live e = false /\
            dependentsNames e = dependentsNames d.

(** The state after the cascade has marked the node [nodeName] dead and
    pushed its network object. *)
Definition marked (s : PassState) (nodeName : string) (e : AnalysisNode)
  : PassState :=
  MkPassState (update nodeName (setLive false) (analysisNodes s))
    (deadNodes s ++ [networkObject e]).

(** The analysis nodes at the start of the cascade of the pass for the
    candidate named [candidate]: all live but the candidate. *)
Definition passStart (entries : Store) (candidate : string) : Store :=
  update candidate (setLive false) (reset entries).

(** Every network object in the accumulator belongs to a dead node. *)
Definition deadNodes_sound (s : PassState) : Prop :=
  forall n, In n (deadNodes s) ->
    exists k e, lookup k (analysisNodes s) = Some e /\ live e = false /\
                networkObject e = n.

(** Every dead node but the candidate has its network object in the
    accumulator. *)
Definition deadNodes_complete (candidate : string) (s : PassState) : Prop :=
  forall k e, lookup k (analysisNodes s) = Some e -> live e = false ->
    k = candidate \/ In (networkObject e) (deadNodes s).

(** Every dead node but the candidate fails its threshold. *)
Definition deaths_sound (candidate : string) (s : PassState) : Prop :=
  forall k e, lookup k (analysisNodes s) = Some e -> live e = false ->
    k = candidate \/
    satisfied (liveness (analysisNodes s)) (quorumSet e) = Some false.

(** Nothing has happened since the start of the cascade, or the network
    object of the candidate is in the accumulator. *)
Definition candidate_recorded (start : Store) (object : NetworkGraphNode)
  (s : PassState) : Prop :=
  analysisNodes s = start \/ In object (deadNodes s).

(** The node named [y] is dead in [st]. *)
Definition deadIn (st : Store) (y : string) : Prop :=
  exists e, lookup y st = Some e /\ live e = false.

(** The node named [d] is live in [st] and fails its threshold there. *)
Definition unmet (st : Store) (d : string) : Prop :=
  exists e, lookup d st = Some e /\ live e = true /\
            satisfied (liveness st) (quorumSet e) = Some false.

(** The node named [d] has a direct reference to [y]. *)
Definition dependsOn (st : Store) (d y : string) : Prop :=
  exists e, lookup d st = Some e /\ In (DepName y) (dependencies (quorumSet e)).

(** A dependent [d] of a dead node [y] that is still live though it fails
    its threshold: work the cascade has left to do. *)
Definition pending (st : Store) (y d : string) : Prop :=
  deadIn st y /\ unmet st d /\ dependsOn st d y.

(** All entries of a dependency list are direct references. *)
Definition flat (deps : list Dependency) : Prop :=
  forall d, In d deps -> exists n, d = DepName n.

(** Analysis nodes in which every live node that has a direct reference
    to a dead node meets its threshold: a cascade would have nothing to
    do. *)
Definition stable (st : Store) : Prop :=
  forall e y, In e st -> live e = true ->
    In (DepName y) (dependencies (quorumSet e)) -> deadIn st y ->
    verdict (quorumSetMeetsThreshold (quorumSet e) (MkPassState st [])) = Ok true.

(** The direct references of a quorum set and of the sets nested in it,
    in the order of the evaluation. *)
Fixpoint directReferences (quorum : AnalysisQuorumSet) : list string :=
  match quorum with
  | MkAnalysisQuorumSet _ deps =>
    flat_map (fun d => match d with
                       | DepName n => [n]
                       | DepSet q => directReferences q
                       end) deps
  end.

(** The entries of the graph of an input, for the examples. *)
Definition entriesOf (nodes : list NetworkGraphNode) : Store :=
  match createAnalysisStructure nodes with
  | Ok (_, entries) => entries
  | _ => []
  end.


(** ** Further inputs for the examples *)

(** Two input nodes share the identifier ["A"]; the home node and ["B"]
    both refer to it. *)
Definition duplicateIds : list NetworkGraphNode :=
  [ NT.MkNode "H" (NT.MkQuorumSet 2 [NT.Peer "A"; NT.Peer "B"]) 0;
    leaf "A" 1;
    NT.MkNode "B" (NT.MkQuorumSet 1 [NT.Peer "A"]) 1;
    NT.MkNode "A" (NT.MkQuorumSet 1 [NT.Peer "H"]) 2 ].

(** A ring of three nodes, each needing the next. *)
Definition ring : list NetworkGraphNode :=
  [ NT.MkNode "H" (NT.MkQuorumSet 1 [NT.Peer "A"]) 0;
    NT.MkNode "A" (NT.MkQuorumSet 1 [NT.Peer "B"]) 1;
    NT.MkNode "B" (NT.MkQuorumSet 1 [NT.Peer "H"]) 2 ].

(** A home node with threshold 0 in a network where failures cascade:
    ["A"] needs ["B"], and ["C"] needs ["A"] and ["B"]. *)
Definition idleHome : list NetworkGraphNode :=
  [ NT.MkNode "H" (NT.MkQuorumSet 0 [NT.Peer "A"; NT.Peer "B"; NT.Peer "C"]) 0;
    NT.MkNode "A" (NT.MkQuorumSet 1 [NT.Peer "B"]) 1;
    leaf "B" 1;
    NT.MkNode "C" (NT.MkQuorumSet 2 [NT.Peer "A"; NT.Peer "B"]) 2 ].

(** A home node that needs all of three peers, two of which are backed
    up by a fourth node. *)
Definition backedUp : list NetworkGraphNode :=
  [ NT.MkNode "H" (NT.MkQuorumSet 3 [NT.Peer "A"; NT.Peer "C"; NT.Peer "D"]) 0;
    leaf "A" 1;
    NT.MkNode "C" (NT.MkQuorumSet 1 [NT.Peer "A"; NT.Peer "B"]) 1;
    NT.MkNode "D" (NT.MkQuorumSet 1 [NT.Peer "A"; NT.Peer "B"]) 1;
    leaf "B" 2 ].

(** ** Rules for [wp] *)

Section WpRules.

Context {S : Type} (E : Error -> Prop) (F : Prop).

Lemma wp_ret {A} (a : A) (s : S) (Q : A -> S -> Prop) :
  Q a s -> wp E F (ret a) s Q.
Proof. exact (fun H => H). Qed.

Lemma wp_get (s : S) (Q : S -> S -> Prop) :
  Q s s -> wp E F get s Q.
Proof. exact (fun H => H). Qed.

Lemma wp_modify (f : S -> S) (s : S) (Q : unit -> S -> Prop) :
  Q tt (f s) -> wp E F (modify f) s Q.
Proof. exact (fun H => H). Qed.

Lemma wp_throw {A} (e : Error) (s : S) (Q : A -> S -> Prop) :
  E e -> wp E F (throw e) s Q.
Proof. exact (fun H => H). Qed.

Lemma wp_outOfFuel {A} (s : S) (Q : A -> S -> Prop) :
  F -> wp E F outOfFuel s Q.
Proof. exact (fun H => H). Qed.

Lemma wp_bind {A B} (m : M S A) (k : A -> M S B) (s : S)
  (Q : B -> S -> Prop) :
  wp E F m s (fun a s' => wp E F (k a) s' Q) -> wp E F (bind m k) s Q.
Proof.
  unfold wp, bind. destruct (m s) as [[a s']| |]; auto.
Qed.

Lemma wp_mono {A} (m : M S A) (s : S) (Q Q' : A -> S -> Prop) :
  wp E F m s Q -> (forall a s', Q a s' -> Q' a s') -> wp E F m s Q'.
Proof.
  unfold wp. destruct (m s) as [[a s']| |]; auto.
Qed.

(** A loop invariant for [forEach]. *)
Lemma wp_forEach {A} (f : A -> M S unit) (I : S -> Prop) (l : list A) :
  (forall x s, In x l -> I s -> wp E F (f x) s (fun _ s' => I s')) ->
  forall s, I s -> wp E F (forEach f l) s (fun _ s' => I s').
Proof.
  induction l as [|x l IH]; intros Hf s Hs; simpl.
  - apply wp_ret. exact Hs.
  - apply wp_bind.
    eapply wp_mono; [apply Hf; [left; reflexivity | exact Hs]|].
    intros u s' Hs'. apply IH; auto.
    intros y s0 Hy. apply Hf. right. exact Hy.
Qed.

End WpRules.

Lemma wp_Ok {S A} E F (m : M S A) s Q a s' :
  wp E F m s Q -> m s = Ok (a, s') -> Q a s'.
Proof. unfold wp. intros H Hm. rewrite Hm in H. exact H. Qed.

(** ** The store: lookups and updates *)

Lemma lookup_None k c : lookup k c = None <-> ~ In k (names c).
Proof.
  induction c as [|e c IH]; simpl.
  - tauto.
  - destruct (String.eqb_spec (name e) k) as [Heq|Hne].
    + split; [discriminate | intros H; exfalso; apply H; left; exact Heq].
    + rewrite IH. tauto.
Qed.

Lemma lookup_Some k c e : lookup k c = Some e -> name e = k /\ In e c.
Proof.
  induction c as [|e0 c IH]; simpl; [discriminate|].
  destruct (String.eqb_spec (name e0) k) as [Heq|Hne].
  - intros H. injection H as <-. auto.
  - intros H. destruct (IH H). auto.
Qed.

Lemma lookup_In k c : In k (names c) -> exists e, lookup k c = Some e.
Proof.
  intros H. destruct (lookup k c) as [e|] eqn:Hl; [eauto|].
  apply lookup_None in Hl. contradiction.
Qed.

Lemma NoDup_lookup c e : NoDup (names c) -> In e c -> lookup (name e) c = Some e.
Proof.
  induction c as [|e0 c IH]; simpl; [tauto|].
  intros Hnd [->|Hin].
  - rewrite String.eqb_refl. reflexivity.
  - inversion Hnd as [|? ? Hnotin Hnd']; subst.
    destruct (String.eqb_spec (name e0) (name e)) as [Heq|Hne].
    + exfalso. apply Hnotin. rewrite Heq. apply in_map. exact Hin.
    + auto.
Qed.

Lemma names_cacheSet entry c :
  lookup (name entry) c = None -> names (cacheSet entry c) = names c ++ [name entry].
Proof.
  induction c as [|e c IH]; simpl; [reflexivity|].
  destruct (String.eqb (name e) (name entry)); [discriminate|].
  intros H. simpl. rewrite (IH H). reflexivity.
Qed.

Lemma cacheSet_fresh entry c :
  lookup (name entry) c = None -> cacheSet entry c = c ++ [entry].
Proof.
  induction c as [|e c IH]; simpl; [reflexivity|].
  destruct (String.eqb (name e) (name entry)); [discriminate|].
  intros H. rewrite (IH H). reflexivity.
Qed.

Lemma names_update k f c :
  (forall e, name (f e) = name e) -> names (update k f c) = names c.
Proof.
  intros Hf. induction c as [|e c IH]; simpl; [reflexivity|].
  destruct (String.eqb (name e) k); simpl; [rewrite Hf | rewrite IH]; reflexivity.
Qed.

Lemma lookup_update_same k f c :
  (forall e, name (f e) = name e) ->
  lookup k (update k f c) = option_map f (lookup k c).
Proof.
  intros Hf. induction c as [|e c IH]; simpl; [reflexivity|].
  destruct (String.eqb_spec (name e) k) as [Heq|Hne]; simpl.
  - rewrite Hf, Heq, String.eqb_refl. reflexivity.
  - destruct (String.eqb_spec (name e) k); [contradiction | exact IH].
Qed.

Lemma lookup_update_other k k' f c :
  (forall e, name (f e) = name e) -> k' <> k ->
  lookup k' (update k f c) = lookup k' c.
Proof.
  intros Hf Hne. induction c as [|e c IH]; simpl; [reflexivity|].
  destruct (String.eqb_spec (name e) k) as [Heq|Hne']; simpl.
  - rewrite Hf.
    destruct (String.eqb_spec (name e) k') as [Heq'|]; [congruence | reflexivity].
  - rewrite IH. reflexivity.
Qed.

Lemma lookup_app k c c' :
  lookup k (c ++ c') =
  match lookup k c with Some e => Some e | None => lookup k c' end.
Proof.
  induction c as [|e c IH]; simpl; [reflexivity|].
  destruct (String.eqb (name e) k); [reflexivity | exact IH].
Qed.

Lemma find_node_Some p nodes n :
  find_node p nodes = Some n -> In n nodes /\ p n = true.
Proof.
  induction nodes as [|m nodes IH]; simpl; [discriminate|].
  destruct (p m) eqn:Hp.
  - intros H. injection H as <-. auto.
  - intros H. destruct (IH H). auto.
Qed.

Lemma find_node_None p nodes :
  find_node p nodes = None <-> forall n, In n nodes -> p n = false.
Proof.
  induction nodes as [|m nodes IH]; simpl.
  - split; [intros _ n [] | reflexivity].
  - destruct (p m) eqn:Hp.
    + split; [discriminate|]. intros H. rewrite (H m) in Hp; [discriminate | auto].
    + rewrite IH. split.
      * intros H n [<-|Hin]; auto.
      * intros H n Hin. apply H. auto.
Qed.

(** ** Construction: registered names and the depth of the recursion *)

Lemma mem_In k l : mem k l = true <-> In k l.
Proof.
  unfold mem. rewrite existsb_exists. split.
  - intros [x [Hin Heq]]. apply String.eqb_eq in Heq. subst. exact Hin.
  - intros H. exists k. split; [exact H | apply String.eqb_refl].
Qed.

Lemma unregistered_le ids c c' :
  incl (names c) (names c') -> (unregistered ids c' <= unregistered ids c)%nat.
Proof.
  intros Hincl. unfold unregistered.
  induction ids as [|id ids IH]; simpl; [lia|].
  destruct (mem id (names c')) eqn:H'; destruct (mem id (names c)) eqn:H;
    simpl; try lia.
  apply mem_In in H. apply Hincl in H. apply mem_In in H. congruence.
Qed.

Lemma unregistered_lt ids c c' id :
  incl (names c) (names c') -> In id ids -> ~ In id (names c) ->
  In id (names c') -> (unregistered ids c' < unregistered ids c)%nat.
Proof.
  intros Hincl Hin Hold Hnew. unfold unregistered.
  induction ids as [|x ids IH]; simpl; [destruct Hin|].
  pose proof (unregistered_le ids c c' Hincl) as Hle. unfold unregistered in Hle.
  destruct Hin as [->|Hin].
  - apply mem_In in Hnew. rewrite Hnew.
    destruct (mem id (names c)) eqn:H; [apply mem_In in H; contradiction|].
    simpl. lia.
  - specialize (IH Hin).
    destruct (mem x (names c')) eqn:H'; destruct (mem x (names c)) eqn:H;
      simpl; try lia.
    apply mem_In in H. apply Hincl in H. apply mem_In in H. congruence.
Qed.

Lemma unregistered_bound ids c : (unregistered ids c <= length ids)%nat.
Proof.
  unfold unregistered. induction ids as [|x ids IH]; simpl; [lia|].
  destruct (negb (mem x (names c))); simpl; lia.
Qed.
Lemma extends_refl c : extends c c.
Proof. exists []. symmetry. apply app_nil_r. Qed.

Lemma extends_trans c1 c2 c3 : extends c1 c2 -> extends c2 c3 -> extends c1 c3.
Proof.
  intros [x1 H1] [x2 H2]. exists (x1 ++ x2). rewrite H2, H1. symmetry. apply app_assoc.
Qed.

Lemma extends_incl c c' : extends c c' -> incl (names c) (names c').
Proof. intros [x H] k Hk. rewrite H. apply in_or_app. auto. Qed.

Lemma extends_update c k f :
  (forall e, name (f e) = name e) -> extends c (update k f c).
Proof. intros Hf. exists []. rewrite names_update by exact Hf. symmetry. apply app_nil_r. Qed.

Section ConstructionNames.

Variable nodes : list NetworkGraphNode.

Lemma generateQuorumset_names gen entry fuel' :
  (forall node c, In node nodes -> registered_ok nodes c ->
     (unregistered (inputNames nodes) c < fuel')%nat ->
     wp anyError False (gen node) c (generateNode_post nodes node c)) ->
  forall q c, registered_ok nodes c -> (unregistered (inputNames nodes) c < fuel')%nat ->
    wp anyError False (generateQuorumset nodes gen entry q) c
      (fun _ c' => registered_ok nodes c' /\ extends c c').
Proof.
  intros Hgen q. induction q as [t v IH] using NetworkQuorumSet_nested_ind.
  intros c Hc Hfuel. simpl.
  assert (Hloop : forall (f : NT.Entry -> M Store unit),
    (forall x s, In x v -> registered_ok nodes s /\ extends c s ->
       wp anyError False (f x) s (fun _ s' => registered_ok nodes s' /\ extends c s')) ->
    wp anyError False (forEach f v) c (fun _ c' => registered_ok nodes c' /\ extends c c')).
  { intros f Hf.
    apply (wp_forEach anyError False f (fun s => registered_ok nodes s /\ extends c s)).
    - exact Hf.
    - split; [exact Hc | apply extends_refl]. }
  destruct (isNested v); apply Hloop.
  - intros [id|q] s Hin [Hs Hext].
    + apply wp_throw. exact I.
    + eapply wp_mono.
      * apply (IH q Hin s Hs).
        pose proof (unregistered_le (inputNames nodes) c s (extends_incl _ _ Hext)). lia.
      * intros _ s' [Hs' Hext']. split; [exact Hs' | eapply extends_trans; eassumption].
  - intros x s Hin [Hs Hext]. unfold resolve.
    destruct (find_node _ nodes) as [n|] eqn:Hfind; [|apply wp_throw; exact I].
    apply find_node_Some in Hfind. destruct Hfind as [Hn _].
    apply wp_bind. eapply wp_mono.
    + apply (Hgen n s Hn Hs).
      pose proof (unregistered_le (inputNames nodes) c s (extends_incl _ _ Hext)). lia.
    + intros r s' (Hr & [Hnd Hincl] & Hext' & Hin').
      apply wp_bind. apply wp_modify. apply wp_modify.
      assert (Hnames : names (update r (pushDependent entry)
                                (update entry (pushDependency r) s')) = names s').
      { rewrite !names_update; auto. }
      split; [split|]; try rewrite Hnames; auto.
      eapply extends_trans; [exact Hext|]. eapply extends_trans; [exact Hext'|].
      exists []. rewrite Hnames. symmetry. apply app_nil_r.
Qed.

Lemma generateNode_names fuel :
  forall node c, In node nodes -> registered_ok nodes c ->
    (unregistered (inputNames nodes) c < fuel)%nat ->
    wp anyError False (generateNode nodes fuel node) c (generateNode_post nodes node c).
Proof.
  induction fuel as [|fuel' IH]; intros node c Hnode Hc Hfuel; [lia|].
  simpl. apply wp_bind. apply wp_get.
  destruct (lookup (NT.node node) c) as [cached|] eqn:Hl.
  - apply wp_ret. apply lookup_Some in Hl. destruct Hl as [Hname Hin].
    repeat split; try apply Hc; auto using extends_refl.
    rewrite Hname. rewrite <- Hname. apply in_map. exact Hin.
  - apply wp_bind. apply wp_modify. apply wp_bind.
    set (entry := newEntry node).
    assert (Hnames : names (cacheSet entry c) = names c ++ [NT.node node])
      by (apply names_cacheSet; exact Hl).
    assert (Hnew : ~ In (NT.node node) (names c)) by (apply lookup_None; exact Hl).
    assert (Hinput : In (NT.node node) (inputNames nodes)) by (apply in_map; exact Hnode).
    assert (Hc' : registered_ok nodes (cacheSet entry c)).
    { destruct Hc as [Hnd Hincl]. split; rewrite Hnames.
      - apply NoDup_app; [exact Hnd | constructor; [intros [] | constructor] |].
        intros a Ha [<-|[]]. contradiction.
      - apply incl_app; [exact Hincl|]. intros a [<-|[]]. exact Hinput. }
    assert (Hext : extends c (cacheSet entry c)) by (eexists; exact Hnames).
    eapply wp_mono.
    + apply (generateQuorumset_names (generateNode nodes fuel') (NT.node node) fuel' IH).
      * exact Hc'.
      * assert (unregistered (inputNames nodes) (cacheSet entry c) < unregistered (inputNames nodes) c)%nat.
        { apply (unregistered_lt _ _ _ (NT.node node)); auto.
          - apply extends_incl. exact Hext.
          - rewrite Hnames. apply in_or_app. right. left. reflexivity. }
        lia.
    + intros _ c' [Hc'' Hext']. apply wp_ret.
      repeat split; try apply Hc''.
      * eapply extends_trans; eassumption.
      * apply (extends_incl _ _ Hext'). rewrite Hnames.
        apply in_or_app. right. left. reflexivity.
Qed.

End ConstructionNames.

(** ** A larger budget does not change a result *)

Lemma refines_refl {S A} (m : M S A) : refines m m.
Proof. intros s _. reflexivity. Qed.

Lemma refines_bind {S A B} (m m' : M S A) (k k' : A -> M S B) :
  refines m m' -> (forall a, refines (k a) (k' a)) ->
  refines (bind m k) (bind m' k').
Proof.
  intros Hm Hk s. unfold bind. intros H.
  rewrite (Hm s) by (intros Heq; rewrite Heq in H; congruence).
  destruct (m s) as [[a s']| |]; auto.
  apply Hk. exact H.
Qed.

Lemma refines_forEach {S A} (f f' : A -> M S unit) (l : list A) :
  (forall x, In x l -> refines (f x) (f' x)) ->
  refines (forEach f l) (forEach f' l).
Proof.
  induction l as [|x l IH]; intros Hf; simpl.
  - apply refines_refl.
  - apply refines_bind; [apply Hf; left; reflexivity|].
    intros _. apply IH. intros y Hy. apply Hf. right. exact Hy.
Qed.

Lemma generateQuorumset_refines nodes gen gen' entry :
  (forall node, refines (gen node) (gen' node)) ->
  forall q, refines (generateQuorumset nodes gen entry q)
              (generateQuorumset nodes gen' entry q).
Proof.
  intros Hgen q. induction q as [t v IH] using NetworkQuorumSet_nested_ind.
  simpl. destruct (isNested v); apply refines_forEach.
  - intros [id|q] Hin; [apply refines_refl | apply IH; exact Hin].
  - intros x _. unfold resolve.
    destruct (find_node _ nodes); [|apply refines_refl].
    apply refines_bind; [apply Hgen | intros r; apply refines_refl].
Qed.

Lemma generateNode_refines nodes fuel fuel' :
  (fuel <= fuel')%nat ->
  forall node, refines (generateNode nodes fuel node) (generateNode nodes fuel' node).
Proof.
  revert fuel'. induction fuel as [|fuel IH]; intros fuel' Hle node.
  - intros s H. exfalso. apply H. reflexivity.
  - destruct fuel' as [|fuel']; [lia|]. simpl.
    apply refines_bind; [apply refines_refl|]. intros cache.
    destruct (lookup (NT.node node) cache); [apply refines_refl|].
    apply refines_bind; [apply refines_refl|]. intros _.
    apply refines_bind; [|intros _; apply refines_refl].
    apply generateQuorumset_refines. apply IH. lia.
Qed.

Lemma registered_ok_nil nodes : registered_ok nodes [].
Proof. split; [constructor | intros k []]. Qed.

Lemma createAnalysisStructureF_total nodes fuel :
  (length nodes < fuel)%nat -> createAnalysisStructureF nodes fuel <> OutOfFuel.
Proof.
  intros Hfuel. unfold createAnalysisStructureF.
  destruct (find_node _ nodes) as [myNode|] eqn:Hfind; [|discriminate].
  apply find_node_Some in Hfind. destruct Hfind as [Hin _].
  pose proof (generateNode_names nodes fuel myNode [] Hin (registered_ok_nil nodes)) as H.
  unfold wp in H. intros Heq. rewrite Heq in H. apply H.
  pose proof (unregistered_bound (inputNames nodes) []) as Hb.
  unfold unregistered, inputNames in *. rewrite length_map in Hb. lia.
Qed.

Lemma createAnalysisStructureF_stable nodes fuel :
  (length nodes < fuel)%nat ->
  createAnalysisStructureF nodes fuel = createAnalysisStructure nodes.
Proof.
  intros Hfuel. unfold createAnalysisStructure.
  pose proof (createAnalysisStructureF_total nodes (S (length nodes))
                (Nat.lt_succ_diag_r _)) as Htot.
  unfold createAnalysisStructureF in *.
  destruct (find_node _ nodes) as [myNode|]; [|reflexivity].
  apply (generateNode_refines nodes (S (length nodes)) fuel); [lia | exact Htot].
Qed.

(** ** Threshold evaluation as a function of the liveness assignment *)

Lemma deadReferences_eq st t deps :
  deadReferences st (MkAnalysisQuorumSet t deps) = flat_map (deadReference st) deps.
Proof. reflexivity. Qed.

Lemma countDependents_spec recur deps :
  (forall q, In (DepSet q) deps -> forall s,
     evaluation_spec (recur q s) s (deadReferences (analysisNodes s) q)
       (satisfied (liveness (analysisNodes s)) q)) ->
  forall threshold s,
    match foldEach (countDependent recur) deps threshold s with
    | Ok (th', s') =>
      analysisNodes s' = analysisNodes s /\
      deadNodes s' = deadNodes s ++ flat_map (deadReference (analysisNodes s)) deps /\
      foldOption (countSatisfied (liveness (analysisNodes s))
                    (satisfied (liveness (analysisNodes s)))) deps threshold
      = Some th'
    | Throw e =>
      e = TypeError /\
      foldOption (countSatisfied (liveness (analysisNodes s))
                    (satisfied (liveness (analysisNodes s)))) deps threshold
      = None
    | OutOfFuel => False
    end.
Proof.
  induction deps as [|d deps IH]; intros Hrec threshold s.
  - simpl. rewrite app_nil_r. auto.
  - assert (Hrec' : forall q, In (DepSet q) deps -> forall s0,
              evaluation_spec (recur q s0) s0 (deadReferences (analysisNodes s0) q)
                (satisfied (liveness (analysisNodes s0)) q))
      by (intros q Hq; apply Hrec; right; exact Hq).
    specialize (IH Hrec').
    cbn [foldEach foldOption flat_map]. unfold bind at 1.
    destruct d as [nm|q]; cbn [countDependent countSatisfied deadReference].
    + unfold bind at 1, getNode at 1, liveness at 1 4.
      destruct (lookup nm (analysisNodes s)) as [n|] eqn:Hl; cbn [option_map];
        [|auto].
      destruct (live n) eqn:Hlive.
      * unfold ret at 1. apply IH.
      * unfold bind at 1, pushDead, modify, ret at 1.
        specialize (IH threshold
                      (MkPassState (analysisNodes s) (deadNodes s ++ [networkObject n]))).
        cbn [analysisNodes deadNodes] in IH.
        destruct (foldEach _ deps threshold _) as [[th' s']| |]; auto.
        destruct IH as (H1 & H2 & H3). repeat split; auto.
        rewrite H2. rewrite <- app_assoc. reflexivity.
    + unfold bind at 1.
      pose proof (Hrec q (or_introl eq_refl) s) as Hq. unfold evaluation_spec in Hq.
      destruct (recur q s) as [[ok s1]| |].
      * destruct Hq as (H1 & H2 & H3). rewrite H3. unfold ret at 1.
        specialize (IH (if ok then threshold - 1 else threshold) s1).
        rewrite H1 in IH.
        destruct (foldEach _ deps _ s1) as [[th' s']| |]; auto.
        destruct IH as (H1' & H2' & H3'). repeat split; auto.
        rewrite H2', H2. rewrite <- app_assoc. reflexivity.
      * destruct Hq as [-> ->]. auto.
      * exact Hq.
Qed.

Lemma quorumSetMeetsThreshold_spec quorum : forall s,
  evaluation_spec (quorumSetMeetsThreshold quorum s) s
    (deadReferences (analysisNodes s) quorum)
    (satisfied (liveness (analysisNodes s)) quorum).
Proof.
  induction quorum as [t deps IH] using AnalysisQuorumSet_nested_ind.
  intros s. cbn [quorumSetMeetsThreshold satisfied]. rewrite deadReferences_eq.
  pose proof (countDependents_spec quorumSetMeetsThreshold deps IH t s) as H.
  unfold evaluation_spec, bind.
  destruct (foldEach _ deps t s) as [[th' s']| |].
  - destruct H as (H1 & H2 & H3). rewrite H3. simpl. auto.
  - destruct H as [-> H]. rewrite H. simpl. auto.
  - exact H.
Qed.

(** ** The cascade: liveness only decreases *)

Lemma fades_refl c : fades c c.
Proof. induction c; constructor; auto. Qed.

Lemma fades_trans c1 c2 c3 : fades c1 c2 -> fades c2 c3 -> fades c1 c3.
Proof.
  intros H12. revert c3. induction H12 as [|a b l1 l2 Hab _ IH]; intros c3 H23.
  - inversion H23. constructor.
  - inversion H23 as [|b' c l2' l3 Hbc H23']; subst. constructor; [|apply IH; exact H23'].
    destruct Hab as (?&?&?&?&?), Hbc as (?&?&?&?&?).
    repeat split; try congruence; auto.
Qed.

Lemma fades_markDead nm c : fades c (update nm (setLive false) c).
Proof.
  induction c as [|e c IH]; simpl; [constructor|].
  destruct (String.eqb (name e) nm).
  - constructor; [|apply fades_refl]. simpl. repeat split; auto. discriminate.
  - constructor; [|exact IH]. repeat split; auto.
Qed.

Lemma fades_liveCount c c' : fades c c' -> (liveCount c' <= liveCount c)%nat.
Proof.
  unfold liveCount. induction 1 as [|b a l1 l2 Hab _ IH]; simpl; [lia|].
  destruct Hab as (_&_&_&_&Hl).
  destruct (live a); destruct (live b); simpl; try lia.
Qed.

Lemma markDead_liveCount nm c n :
  lookup nm c = Some n -> live n = true ->
  (liveCount (update nm (setLive false) c) < liveCount c)%nat.
Proof.
  unfold liveCount. induction c as [|e c IH]; simpl; [discriminate|].
  destruct (String.eqb (name e) nm).
  - intros H Hl. injection H as ->. simpl. rewrite Hl. simpl. lia.
  - intros H Hl. specialize (IH H Hl). simpl. destruct (live e); simpl; lia.
Qed.

Lemma quorumSetMeetsThreshold_frame E quorum s :
  E TypeError ->
  wp E False (quorumSetMeetsThreshold quorum) s
    (fun _ s' => analysisNodes s' = analysisNodes s).
Proof.
  intros HE. pose proof (quorumSetMeetsThreshold_spec quorum s) as H.
  unfold wp, evaluation_spec in *.
  destruct (quorumSetMeetsThreshold quorum s) as [[b s']| |]; try tauto.
  destruct H as [-> _]. exact HE.
Qed.

(** Whenever the cascade returns, it has only lowered [live] flags; the
    only error is the [TypeError] of [getNode]. *)
Lemma checkDependents_fades_partial (E : Error -> Prop) fuel :
  E TypeError ->
  forall deadNode s,
  wp E True (checkDependents fuel deadNode) s
    (fun _ s' => fades (analysisNodes s) (analysisNodes s')).
Proof.
  intros HE.
  induction fuel as [|fuel' IH]; intros deadNode s; [exact I|].
  simpl.
  apply (wp_forEach E True _
           (fun s' => fades (analysisNodes s) (analysisNodes s')));
    [|apply fades_refl].
  intros nodeName s1 _ Hs1. apply wp_bind.
  unfold getNode at 1, wp at 1.
  destruct (lookup nodeName (analysisNodes s1)) as [dependentNode|] eqn:Hl;
    [|exact HE].
  destruct (live dependentNode) eqn:Hlive; [|apply wp_ret; exact Hs1].
  apply wp_bind.
  pose proof (quorumSetMeetsThreshold_frame E (quorumSet dependentNode) s1 HE) as Hq.
  unfold wp at 1. unfold wp in Hq.
  destruct (quorumSetMeetsThreshold (quorumSet dependentNode) s1) as [[ok s2]| |];
    [|exact Hq|destruct Hq].
  destruct ok; [apply wp_ret; rewrite Hq; exact Hs1|].
  apply wp_bind. apply wp_modify. apply wp_bind. apply wp_modify.
  cbn [analysisNodes deadNodes]. rewrite Hq.
  eapply wp_mono.
  - apply IH.
  - intros u s3 Hs3. cbn [analysisNodes] in Hs3.
    eapply fades_trans; [exact Hs1|].
    eapply fades_trans; [apply fades_markDead | exact Hs3].
Qed.

Lemma satisfied_ext l1 l2 :
  (forall d, l1 d = l2 d) -> forall quorum, satisfied l1 quorum = satisfied l2 quorum.
Proof.
  intros Hl quorum.
  induction quorum as [t deps IH] using AnalysisQuorumSet_nested_ind.
  cbn [satisfied]. f_equal. revert t.
  induction deps as [|d deps IHdeps]; intros t; [reflexivity|].
  cbn [foldOption].
  assert (Hd : countSatisfied l1 (satisfied l1) t d = countSatisfied l2 (satisfied l2) t d).
  { destruct d as [nm|q]; cbn [countSatisfied].
    - rewrite Hl. reflexivity.
    - rewrite (IH q (or_introl eq_refl)). reflexivity. }
  rewrite Hd. destruct (countSatisfied l2 (satisfied l2) t d); [|reflexivity].
  apply IHdeps. intros q Hq. apply IH. right. exact Hq.
Qed.

(** The value a computation returns, without the state. *)
Lemma quorumSetMeetsThreshold_verdict quorum s :
  verdict (quorumSetMeetsThreshold quorum s) =
  match satisfied (liveness (analysisNodes s)) quorum with
  | Some b => Ok b
  | None => Throw TypeError
  end.
Proof.
  pose proof (quorumSetMeetsThreshold_spec quorum s) as H.
  unfold evaluation_spec in H.
  destruct (quorumSetMeetsThreshold quorum s) as [[b s']| |]; simpl.
  - destruct H as (_ & _ & ->). reflexivity.
  - destruct H as [-> ->]. reflexivity.
  - destruct H.
Qed.

(** ** The construction follows the derivation *)

Section Run.

Variable nodes : list NetworkGraphNode.

Lemma forEach_resolve_run gen entry :
  returns_name nodes gen ->
  forall v c c', forEach (resolve nodes gen entry) v c = Ok (tt, c') ->
    run nodes (TNames entry v) c c'.
Proof.
  intros Hgen v. induction v as [|x v IH]; intros c c'; simpl.
  - unfold ret. intros H. injection H as <-. constructor.
  - unfold bind at 1, resolve at 1.
    destruct (find_node _ nodes) as [n|] eqn:Hfind; [|discriminate].
    unfold bind at 1.
    destruct (gen n c) as [[r c1]| |] eqn:Hg; try discriminate.
    destruct (Hgen n c r c1 Hg) as [-> Hrun].
    unfold bind at 1, modify. intros H.
    eapply run_names_cons; eauto.
Qed.

Lemma generateQuorumset_run gen entry :
  returns_name nodes gen ->
  forall q c c', generateQuorumset nodes gen entry q c = Ok (tt, c') ->
    run nodes (TSet entry q) c c'.
Proof.
  intros Hgen q. induction q as [t v IH] using NetworkQuorumSet_nested_ind.
  intros c c'. simpl. destruct (isNested v) eqn:Hn.
  - intros H. apply run_set_nested; [exact Hn|]. clear Hn.
    revert c c' H. induction v as [|x v IHv]; intros c c'; simpl.
    + unfold ret. intros H. injection H as <-. constructor.
    + unfold bind at 1. destruct x as [id|q]; [discriminate|].
      destruct (generateQuorumset nodes gen entry q c) as [[[] c1]| |] eqn:Hq;
        try discriminate.
      intros H. eapply run_nested_cons.
      * apply IH; [left; reflexivity | exact Hq].
      * apply IHv; [|exact H]. intros q' Hq'. apply IH. right. exact Hq'.
  - intros H. apply run_set_names; [exact Hn|].
    apply (forEach_resolve_run gen entry Hgen). exact H.
Qed.

Lemma generateNode_run fuel : returns_name nodes (generateNode nodes fuel).
Proof.
  induction fuel as [|fuel' IH]; intros node c r c'; simpl; [discriminate|].
  unfold bind at 1, get.
  destruct (lookup (NT.node node) c) as [cached|] eqn:Hl.
  - unfold ret. intros H. injection H as <- <-.
    split; [apply (lookup_Some _ _ _ Hl) | eapply run_cached; exact Hl].
  - unfold bind at 1, modify. unfold bind at 1.
    destruct (generateQuorumset nodes (generateNode nodes fuel') _ _ _)
      as [[[] c1]| |] eqn:Hq; try discriminate.
    unfold ret. cbn [name]. intros H. injection H as <- <-.
    split; [reflexivity|].
    apply run_fresh; [exact Hl|].
    apply (generateQuorumset_run _ _ IH). exact Hq.
Qed.

End Run.

(** ** The graph that is built: forward edges *)

Lemma lookup_update k k' f c :
  (forall e, name (f e) = name e) ->
  lookup k (update k' f c) =
  if String.eqb k k' then option_map f (lookup k c) else lookup k c.
Proof.
  intros Hf. destruct (String.eqb_spec k k') as [->|Hne].
  - apply lookup_update_same. exact Hf.
  - apply lookup_update_other; assumption.
Qed.

Lemma lookup_cacheSet_fresh k entry c :
  lookup (name entry) c = None ->
  lookup k (cacheSet entry c) =
  if String.eqb (name entry) k then Some entry else lookup k c.
Proof.
  intros Hl. rewrite (cacheSet_fresh _ _ Hl), lookup_app. simpl.
  destruct (String.eqb_spec (name entry) k) as [<-|Hne].
  - rewrite Hl. reflexivity.
  - destruct (lookup k c); reflexivity.
Qed.

Lemma quorumSet_eta q :
  q = MkAnalysisQuorumSet (threshold q) (dependencies q).
Proof. destruct q. reflexivity. Qed.

Lemma keeps_refl k c : keeps k c c.
Proof.
  intros e He. exists e. repeat split; auto.
  simpl. rewrite app_nil_r. apply quorumSet_eta.
Qed.

Lemma appends_trans k ds1 ds2 c c1 c2 :
  appends k ds1 c c1 -> appends k ds2 c1 c2 -> appends k (ds1 ++ ds2) c c2.
Proof.
  intros H1 H2 e He.
  destruct (H1 e He) as (e1 & He1 & Hq1 & Hn1).
  destruct (H2 e1 He1) as (e2 & He2 & Hq2 & Hn2).
  exists e2. repeat split; [exact He2 | | congruence].
  rewrite Hq2, Hq1. simpl. rewrite map_app, app_assoc. reflexivity.
Qed.

Lemma keeps_trans k c c1 c2 : keeps k c c1 -> keeps k c1 c2 -> keeps k c c2.
Proof. intros H1 H2. exact (appends_trans k [] [] c c1 c2 H1 H2). Qed.

Lemma keeps_complete k c c' e e' :
  keeps k c c' -> lookup k c = Some e -> lookup k c' = Some e' ->
  complete e -> complete e'.
Proof.
  intros Hk He He' Hc. destruct (Hk e He) as (e'' & He'' & Hq & Hn).
  assert (e'' = e') by congruence. subst e''.
  unfold complete in *. rewrite Hq, Hn, Hc. simpl. rewrite app_nil_r. reflexivity.
Qed.

Lemma completes_refl c : completes c c.
Proof. intros k e' H1 H2. congruence. Qed.

Lemma walk_post_refl entry c : walk_post entry [] c c.
Proof.
  split; [|split].
  - intros k _. apply keeps_refl.
  - apply keeps_refl.
  - apply completes_refl.
Qed.

Lemma walk_post_trans entry ds1 ds2 c c1 c2 :
  In entry (names c) ->
  walk_post entry ds1 c c1 -> walk_post entry ds2 c1 c2 ->
  walk_post entry (ds1 ++ ds2) c c2.
Proof.
  intros Hin (Hk1 & Ha1 & Hc1) (Hk2 & Ha2 & Hc2). split; [|split].
  - intros k Hk. eapply keeps_trans; auto.
  - eapply appends_trans; eauto.
  - intros k e2 He2 Hnone.
    assert (Hk : k <> entry).
    { intros ->. apply lookup_None in Hnone. contradiction. }
    destruct (lookup k c1) as [e1|] eqn:He1.
    + apply (keeps_complete k c1 c2 e1 e2); auto.
      apply (Hc1 k e1); assumption.
    + apply (Hc2 k e2); assumption.
Qed.

(** The two pushes of [resolve], for the entry under construction and
    the resolved node [d]. *)
Lemma link_walk_post entry d c :
  walk_post entry [d] c
    (update d (pushDependent entry) (update entry (pushDependency d) c)).
Proof.
  split; [|split].
  - intros k Hk e He. exists (if String.eqb k d then pushDependent entry e else e).
    rewrite !lookup_update by reflexivity.
    destruct (String.eqb_spec k entry) as [|_]; [contradiction|].
    rewrite He. destruct (String.eqb k d); simpl;
      rewrite app_nil_r, <- quorumSet_eta; auto.
  - intros e He.
    exists (if String.eqb entry d then pushDependent entry (pushDependency d e)
            else pushDependency d e).
    rewrite !lookup_update by reflexivity.
    rewrite String.eqb_refl, He.
    destruct (String.eqb entry d); simpl; auto.
  - intros k e' He' Hnone. exfalso.
    rewrite !lookup_update in He' by reflexivity. rewrite Hnone in He'.
    destruct (String.eqb k d), (String.eqb k entry); discriminate.
Qed.

Section Graph.

Variable nodes : list NetworkGraphNode.

Lemma run_extends task c c' : run nodes task c c' -> extends c c'.
Proof.
  induction 1 as [node c cached Hl
                 |node c c' Hl _ IH
                 |entry t v c c' _ _ IH
                 |entry t v c c' _ _ IH
                 |entry c
                 |entry q v c c1 c2 _ IH1 _ IH2
                 |entry c
                 |entry x v n c c1 c2 _ _ IH1 _ IH2];
    try apply extends_refl; try exact IH.
  - eapply extends_trans; [|exact IH].
    eexists. apply names_cacheSet. exact Hl.
  - eapply extends_trans; eassumption.
  - eapply extends_trans; [exact IH1|].
    eapply extends_trans; [|exact IH2].
    eapply extends_trans; apply extends_update; reflexivity.
Qed.

Lemma run_registers node c c' :
  run nodes (TNode node) c c' -> In (NT.node node) (names c').
Proof.
  intros H. inversion H as [? ? cached Hl| ? ? ? Hl Hrun | | | | | |]; subst.
  - apply lookup_Some in Hl. destruct Hl as [<- Hin]. apply in_map. exact Hin.
  - apply (extends_incl _ _ (run_extends _ _ _ Hrun)).
    rewrite (names_cacheSet (newEntry node) c Hl). apply in_or_app. right. left. reflexivity.
Qed.

Lemma run_structure task c c' : run nodes task c c' -> structure_post task c c'.
Proof.
  induction 1 as [node c cached Hl
                 |node c c' Hl Hrun IH
                 |entry t v c c' Hn _ IH
                 |entry t v c c' Hn _ IH
                 |entry c
                 |entry q v c c1 c2 Hrun1 IH1 _ IH2
                 |entry c
                 |entry x v n c c1 c2 Hfind Hrun1 IH1 _ IH2];
    cbn [structure_post] in *.
  - split; [intros k; apply keeps_refl | apply completes_refl].
  - assert (Hin : In (NT.node node) (names (cacheSet (newEntry node) c))).
    { rewrite (names_cacheSet (newEntry node) c Hl). apply in_or_app. right. left. reflexivity. }
    destruct (IH Hin) as (Hk & Ha & Hc).
    assert (Hlook : forall k, lookup k (cacheSet (newEntry node) c) =
                              if String.eqb (NT.node node) k then Some (newEntry node)
                              else lookup k c)
      by (intros k; apply (lookup_cacheSet_fresh k (newEntry node) c Hl)).
    split.
    + intros k e He.
      assert (Hne : k <> NT.node node) by (intros ->; congruence).
      apply (Hk k Hne). rewrite Hlook.
      destruct (String.eqb_spec (NT.node node) k); [congruence | exact He].
    + intros k e' He' Hnone.
      destruct (String.eqb_spec (NT.node node) k) as [<-|Hne].
      * destruct (Ha (newEntry node)) as (e'' & He'' & Hq & Hn).
        { rewrite Hlook, String.eqb_refl. reflexivity. }
        assert (e'' = e') by congruence. subst e''.
        unfold complete. rewrite Hq, Hn. reflexivity.
      * apply (Hc k e' He'). rewrite Hlook.
        destruct (String.eqb_spec (NT.node node) k); [contradiction | exact Hnone].
  - intros Hin. simpl. rewrite Hn. auto.
  - intros Hin. simpl. rewrite Hn. auto.
  - intros _. apply walk_post_refl.
  - intros Hin. cbn [nestedReferences flat_map].
    apply (walk_post_trans entry _ _ c c1 c2 Hin); [auto|].
    apply IH2. apply (extends_incl _ _ (run_extends _ _ _ Hrun1)). exact Hin.
  - intros _. apply walk_post_refl.
  - intros Hin. destruct IH1 as [Hk Hc].
    apply find_node_Some in Hfind. destruct Hfind as [_ Heq].
    apply String.eqb_eq in Heq.
    assert (Hin1 : In entry (names c1))
      by (apply (extends_incl _ _ (run_extends _ _ _ Hrun1)); exact Hin).
    cbn [map]. rewrite <- Heq.
    change (NT.node n :: map asString v) with ([] ++ [NT.node n] ++ map asString v).
    apply (walk_post_trans entry _ _ c c1 c2 Hin).
    { split; [|split]; auto. apply Hk. }
    apply (walk_post_trans entry _ _ c1
             (update (NT.node n) (pushDependent entry)
                (update entry (pushDependency (NT.node n)) c1)) c2 Hin1).
    { apply link_walk_post. }
    apply IH2. rewrite !names_update by reflexivity. exact Hin1.
Qed.

End Graph.

(** ** The graph that is built: backward edges *)

Lemma In_directNames n deps : In n (directNames deps) <-> In (DepName n) deps.
Proof.
  unfold directNames. rewrite in_flat_map. split.
  - intros [[m|q] [Hin H]]; simpl in H; [|destruct H].
    destruct H as [->|[]]. exact Hin.
  - intros H. exists (DepName n). split; [exact H | left; reflexivity].
Qed.

Lemma directNames_app l l' : directNames (l ++ l') = directNames l ++ directNames l'.
Proof. apply flat_map_app. Qed.

Lemma directNames_DepName l : directNames (map DepName l) = l.
Proof. induction l as [|x l IH]; simpl; [|rewrite IH]; reflexivity. Qed.

Lemma lookup_link a entry d c e'' :
  lookup a (update d (pushDependent entry) (update entry (pushDependency d) c))
  = Some e'' ->
  exists e, lookup a c = Some e /\
    dependencies (quorumSet e'') =
      dependencies (quorumSet e) ++ (if String.eqb a entry then [DepName d] else []) /\
    dependentsNames e'' =
      dependentsNames e ++ (if String.eqb a d then [entry] else []).
Proof.
  rewrite !lookup_update by reflexivity.
  destruct (lookup a c) as [e|].
  - intros H. exists e. split; [reflexivity|].
    destruct (String.eqb a d), (String.eqb a entry); simpl in H;
      injection H as <-; simpl; rewrite ?app_nil_r; auto.
  - destruct (String.eqb a d), (String.eqb a entry); discriminate.
Qed.

Lemma names_link entry d c :
  names (update d (pushDependent entry) (update entry (pushDependency d) c))
  = names c.
Proof. rewrite !names_update by reflexivity. reflexivity. Qed.

Lemma edges_ok_link entry d c :
  In entry (names c) -> In d (names c) -> edges_ok c ->
  edges_ok (update d (pushDependent entry) (update entry (pushDependency d) c)).
Proof.
  intros Hentry Hd (Hdeps & Hdependents & Hcount).
  split; [|split]; rewrite ?names_link.
  - intros k e'' x Hl Hx.
    destruct (lookup_link _ _ _ _ _ Hl) as (e & He & Hq & _).
    rewrite Hq in Hx. apply in_app_or in Hx. destruct Hx as [Hx|Hx].
    + eapply Hdeps; eassumption.
    + destruct (String.eqb k entry); [|destruct Hx].
      destruct Hx as [<-|[]]. eauto.
  - intros k e'' a Hl Ha.
    destruct (lookup_link _ _ _ _ _ Hl) as (e & He & _ & Hq).
    rewrite Hq in Ha. apply in_app_or in Ha. destruct Ha as [Ha|Ha].
    + eapply Hdependents; eassumption.
    + destruct (String.eqb k d); [|destruct Ha].
      destruct Ha as [<-|[]]. exact Hentry.
  - intros a b ea'' eb'' Ha Hb.
    destruct (lookup_link _ _ _ _ _ Ha) as (ea & Hea & Hqa & _).
    destruct (lookup_link _ _ _ _ _ Hb) as (eb & Heb & _ & Hqb).
    rewrite Hqa, Hqb, directNames_app, !count_occ_app.
    rewrite (Hcount a b ea eb Hea Heb). f_equal.
    destruct (String.eqb_spec a entry) as [->|Hne];
      destruct (String.eqb_spec b d) as [->|Hne']; simpl.
    + destruct (string_dec d d); destruct (string_dec entry entry); congruence.
    + destruct (string_dec d b); congruence.
    + destruct (string_dec entry a); congruence.
    + reflexivity.
Qed.

Lemma edges_ok_fresh node c :
  lookup (NT.node node) c = None -> edges_ok c ->
  edges_ok (cacheSet (newEntry node) c).
Proof.
  intros Hl (Hdeps & Hdependents & Hcount).
  assert (Hlook : forall k, lookup k (cacheSet (newEntry node) c) =
                            if String.eqb (NT.node node) k then Some (newEntry node)
                            else lookup k c)
    by (intros k; apply (lookup_cacheSet_fresh k (newEntry node) c Hl)).
  assert (Hnames : names (cacheSet (newEntry node) c) = names c ++ [NT.node node])
    by (apply (names_cacheSet (newEntry node) c Hl)).
  assert (Hnew : ~ In (NT.node node) (names c)) by (apply lookup_None; exact Hl).
  split; [|split]; rewrite ?Hnames.
  - intros k e x He Hx. rewrite Hlook in He.
    destruct (String.eqb (NT.node node) k).
    + injection He as <-. destruct Hx.
    + destruct (Hdeps k e x He Hx) as (n & -> & Hn).
      exists n. split; [reflexivity | apply in_or_app; auto].
  - intros k e a He Ha. rewrite Hlook in He.
    destruct (String.eqb (NT.node node) k).
    + injection He as <-. destruct Ha.
    + apply in_or_app. left. eapply Hdependents; eassumption.
  - intros a b ea eb Ha Hb. rewrite Hlook in Ha, Hb.
    destruct (String.eqb_spec (NT.node node) a) as [<-|Hnea];
      destruct (String.eqb_spec (NT.node node) b) as [<-|Hneb].
    + injection Ha as <-. injection Hb as <-. reflexivity.
    + injection Ha as <-. simpl. symmetry. apply count_occ_not_In.
      intros Hin. apply Hnew. eapply Hdependents; eassumption.
    + injection Hb as <-. simpl. apply count_occ_not_In.
      intros Hin. apply In_directNames in Hin.
      destruct (Hdeps a ea _ Ha Hin) as (n & Heq & Hn).
      injection Heq as <-. contradiction.
    + apply Hcount; assumption.
Qed.

Lemma run_edges nodes task c c' : run nodes task c c' -> edges_post task c c'.
Proof.
  induction 1 as [node c cached Hl
                 |node c c' Hl Hrun IH
                 |entry t v c c' Hn _ IH
                 |entry t v c c' Hn _ IH
                 |entry c
                 |entry q v c c1 c2 Hrun1 IH1 _ IH2
                 |entry c
                 |entry x v n c c1 c2 Hfind Hrun1 IH1 _ IH2];
    cbn [edges_post] in *; auto.
  - intros Hc. apply IH.
    + rewrite (names_cacheSet (newEntry node) c Hl).
      apply in_or_app. right. left. reflexivity.
    + apply edges_ok_fresh; assumption.
  - intros Hin Hc. apply IH2; [|auto].
    apply (extends_incl _ _ (run_extends _ _ _ _ Hrun1)). exact Hin.
  - intros Hin Hc.
    assert (Hin1 : In entry (names c1))
      by (apply (extends_incl _ _ (run_extends _ _ _ _ Hrun1)); exact Hin).
    apply IH2.
    + rewrite names_link. exact Hin1.
    + apply edges_ok_link; auto. apply (run_registers _ _ _ _ Hrun1).
Qed.

(** ** The graph that is built: the entries are the reachable nodes *)

Lemma origin_ok_update nodes k f c :
  (forall e, name (f e) = name e) ->
  (forall e, networkObject (f e) = networkObject e) ->
  origin_ok nodes c -> origin_ok nodes (update k f c).
Proof.
  intros Hname Hobj [Hreach Hwalk]. split.
  - rewrite names_update by exact Hname. exact Hreach.
  - intros k' e He. rewrite lookup_update in He by exact Hname.
    destruct (String.eqb k' k); [|auto].
    destruct (lookup k' c) as [e0|] eqn:He0; [|discriminate].
    injection He as <-. rewrite Hobj. auto.
Qed.

Section Origin.

Variable nodes : list NetworkGraphNode.
Variable home : NetworkGraphNode.
Hypothesis Hhome : find_node (fun n => Z.eqb (NT.distance n) 0) nodes = Some home.

Lemma walkedNode_home id :
  walkedNode nodes id =
  if String.eqb (NT.node home) id then Some home
  else find_node (fun n => String.eqb (NT.node n) id) nodes.
Proof. unfold walkedNode. rewrite Hhome. reflexivity. Qed.

Lemma run_origin task c c' : run nodes task c c' -> origin_post nodes home task c c'.
Proof.
  induction 1 as [node c cached Hl
                 |node c c' Hl Hrun IH
                 |entry t v c c' Hn _ IH
                 |entry t v c c' Hn _ IH
                 |entry c
                 |entry q v c c1 c2 Hrun1 IH1 _ IH2
                 |entry c
                 |entry x v n c c1 c2 Hfind Hrun1 IH1 _ IH2];
    cbn [origin_post] in *; auto.
  - intros HA HB Hreach [Hc1 Hc2].
    assert (Hnew : ~ In (NT.node node) (names c)) by (apply lookup_None; exact Hl).
    destruct HA as [Hwalk|HA]; [|contradiction].
    assert (Hnames : names (cacheSet (newEntry node) c) = names c ++ [NT.node node])
      by (apply (names_cacheSet (newEntry node) c Hl)).
    apply IH.
    + rewrite Hnames. apply in_or_app. destruct HB as [<-|HB]; [right; left|]; auto.
    + intros d Hd. eapply reachable_step; eassumption.
    + split.
      * intros k. rewrite Hnames. intros Hk. apply in_app_or in Hk.
        destruct Hk as [Hk|[<-|[]]]; auto.
      * intros k e. rewrite (lookup_cacheSet_fresh k (newEntry node) c Hl).
        destruct (String.eqb_spec (name (newEntry node)) k) as [<-|Hne]; [|auto].
        intros He. injection He as <-. exact Hwalk.
  - intros Hin Href. apply IH; [exact Hin|]. simpl in Href. rewrite Hn in Href. exact Href.
  - intros Hin Href. apply IH; [exact Hin|]. simpl in Href. rewrite Hn in Href. exact Href.
  - intros Hin Href Hc. cbn [nestedReferences flat_map] in Href.
    apply IH2.
    + apply (extends_incl _ _ (run_extends _ _ _ _ Hrun1)). exact Hin.
    + intros d Hd. apply Href. apply in_or_app. right. exact Hd.
    + apply IH1; auto. intros d Hd. apply Href. apply in_or_app. left. exact Hd.
  - intros Hin Href Hc.
    pose proof (find_node_Some _ _ _ Hfind) as [_ Heq]. apply String.eqb_eq in Heq.
    assert (Hc1 : origin_ok nodes c1).
    { apply IH1; auto.
      - rewrite walkedNode_home.
        destruct (String.eqb_spec (NT.node home) (NT.node n)) as [Hh|Hh].
        + right. rewrite <- Hh. exact Hin.
        + left. rewrite Heq. exact Hfind.
      - rewrite Heq. apply Href. left. reflexivity. }
    apply IH2.
    + rewrite names_link.
      apply (extends_incl _ _ (run_extends _ _ _ _ Hrun1)). exact Hin.
    + intros d Hd. apply Href. right. exact Hd.
    + apply origin_ok_update; [reflexivity | reflexivity |].
      apply origin_ok_update; [reflexivity | reflexivity | exact Hc1].
Qed.

End Origin.

(** ** The errors of the construction *)

Lemma wellTyped_nested t v id :
  isNested v = true -> In (NT.Peer id) v -> wellTyped (NT.MkQuorumSet t v) = false.
Proof.
  intros Hn Hin. simpl. apply orb_false_iff. split.
  - destruct v as [|[id'|q] v]; [destruct Hin | discriminate | reflexivity].
  - apply not_true_is_false. intros H. rewrite forallb_forall in H.
    specialize (H _ Hin). discriminate.
Qed.

Lemma wellTyped_inner t v q :
  wellTyped (NT.MkQuorumSet t v) = true -> In (NT.Inner q) v -> wellTyped q = true.
Proof.
  simpl. intros H Hin. apply orb_true_iff in H. destruct H as [H|H];
    rewrite forallb_forall in H; specialize (H _ Hin); [discriminate | exact H].
Qed.

Section ConstructionErrors.

Variable nodes : list NetworkGraphNode.
Variable E : Error -> Prop.
Hypothesis E_unknown : forall n d,
  In n nodes -> In d (references (NT.qset n)) ->
  find_node (fun m => String.eqb (NT.node m) d) nodes = None ->
  E (BadNetworkGraph d).
Hypothesis E_untyped :
  (exists n, In n nodes /\ wellTyped (NT.qset n) = false) -> E TypeError.

Lemma generateQuorumset_errors gen entry :
  (forall node c, In node nodes -> wp E True (gen node) c (fun _ _ => True)) ->
  forall q c, wellTyped q = true \/ E TypeError ->
    (forall d, In d (references q) ->
       find_node (fun m => String.eqb (NT.node m) d) nodes = None ->
       E (BadNetworkGraph d)) ->
    wp E True (generateQuorumset nodes gen entry q) c (fun _ _ => True).
Proof.
  intros Hgen q. induction q as [t v IH] using NetworkQuorumSet_nested_ind.
  intros c Hq Href. simpl in *. destruct (isNested v) eqn:Hn;
    apply (wp_forEach E True _ (fun _ => True)); auto.
  - intros [id|q] s Hin _.
    + apply wp_throw. destruct Hq as [Hq|Hq]; [|exact Hq].
      pose proof (wellTyped_nested t v id Hn Hin) as Hw. simpl in Hw.
      rewrite Hw in Hq. discriminate.
    + apply IH; [exact Hin| |].
      * destruct Hq as [Hq|Hq]; [left|right; exact Hq].
        apply (wellTyped_inner t v q); assumption.
      * intros d Hd. apply Href. unfold nestedReferences.
        apply in_flat_map. exists (NT.Inner q). auto.
  - intros x s Hin _. unfold resolve.
    destruct (find_node _ nodes) as [n|] eqn:Hfind.
    + apply find_node_Some in Hfind. destruct Hfind as [Hin' _].
      apply wp_bind. eapply wp_mono; [apply Hgen; exact Hin'|].
      intros r s' _. apply wp_bind. apply wp_modify. apply wp_modify. exact I.
    + apply wp_throw. apply Href; [|exact Hfind]. apply in_map. exact Hin.
Qed.

Lemma generateNode_errors fuel : forall node c,
  In node nodes -> wp E True (generateNode nodes fuel node) c (fun _ _ => True).
Proof.
  induction fuel as [|fuel' IH]; intros node c Hin; [exact I|].
  simpl. apply wp_bind. apply wp_get.
  destruct (lookup (NT.node node) c); [apply wp_ret; exact I|].
  apply wp_bind. apply wp_modify. apply wp_bind.
  eapply wp_mono.
  - apply generateQuorumset_errors; [exact IH| |].
    + destruct (wellTyped (NT.qset node)) eqn:Hw; [left; reflexivity|].
      right. apply E_untyped. exists node. auto.
    + intros d Hd. apply (E_unknown node d Hin Hd).
  - intros u s' _. apply wp_ret. exact I.
Qed.

End ConstructionErrors.

(** ** The result of the construction *)

Lemma createAnalysisStructureF_Ok nodes fuel r :
  createAnalysisStructureF nodes fuel = Ok r -> createAnalysisStructure nodes = Ok r.
Proof.
  intros H. rewrite <- (createAnalysisStructureF_stable nodes (Nat.max fuel (S (length nodes))))
    by lia.
  rewrite <- H. unfold createAnalysisStructureF in *.
  destruct (find_node _ nodes) as [myNode|]; [|reflexivity].
  apply (generateNode_refines nodes fuel); [lia|]. rewrite H. discriminate.
Qed.

Lemma references_leaves q : wellTyped q = true -> references q = leaves q.
Proof.
  induction q as [t v IH] using NetworkQuorumSet_nested_ind.
  intros Hw. pose proof (wellTyped_inner t v) as Hinner. specialize (fun q => Hinner q Hw).
  simpl in *. apply orb_true_iff in Hw. destruct (isNested v) eqn:Hn.
  - assert (Hall : forall e, In e v -> exists q, e = NT.Inner q).
    { destruct Hw as [Hw|Hw]; rewrite forallb_forall in Hw.
      - destruct v as [|[id|q] v]; [intros e [] | discriminate |].
        specialize (Hw _ (or_introl eq_refl)). discriminate.
      - intros [id|q] He; [specialize (Hw _ He); discriminate | eauto]. }
    clear Hn Hw. unfold nestedReferences.
    induction v as [|e v IHv]; [reflexivity|]. simpl.
    destruct (Hall e (or_introl eq_refl)) as [q ->].
    rewrite (IH q (or_introl eq_refl) (Hinner q (or_introl eq_refl))). f_equal.
    apply IHv.
    + intros q' Hq'. apply IH. right. exact Hq'.
    + intros q' Hq'. apply Hinner. right. exact Hq'.
    + intros e He. apply Hall. right. exact He.
  - assert (Hall : forall e, In e v -> isPeer e = true).
    { destruct Hw as [Hw|Hw]; rewrite forallb_forall in Hw; [exact Hw|].
      destruct v as [|[id|q] v]; [discriminate | | discriminate].
      specialize (Hw _ (or_introl eq_refl)). discriminate. }
    clear Hn Hw IH Hinner.
    induction v as [|e v IHv]; [reflexivity|]. simpl.
    pose proof (Hall e (or_introl eq_refl)) as He. destruct e as [id|q]; [|discriminate].
    simpl. f_equal. apply IHv. intros e He'. apply Hall. right. exact He'.
Qed.

Lemma walkedNode_In nodes id n : walkedNode nodes id = Some n -> In n nodes /\ NT.node n = id.
Proof.
  unfold walkedNode.
  destruct (find_node (fun n0 => NT.distance n0 =? 0) nodes) as [home|] eqn:Hhome;
    [|discriminate].
  destruct (String.eqb_spec (NT.node home) id) as [Heq|Hne].
  - intros H. injection H as <-. apply find_node_Some in Hhome. tauto.
  - intros H. apply find_node_Some in H. destruct H as [Hin H].
    apply String.eqb_eq in H. auto.
Qed.

Lemma origin_ok_nil nodes : origin_ok nodes [].
Proof. split; [intros k [] | intros k e H; discriminate]. Qed.

Lemma edges_ok_nil : edges_ok [].
Proof.
  split; [|split]; [intros k e d H | intros k e a H | intros a b ea eb H];
    discriminate.
Qed.

(** Everything the derivation gives about the result of a construction. *)
Lemma createAnalysisStructure_graph nodes root entries :
  createAnalysisStructure nodes = Ok (root, entries) ->
  exists home,
    find_node (fun n => Z.eqb (NT.distance n) 0) nodes = Some home /\
    root = NT.node home /\
    In root (names entries) /\
    registered_ok nodes entries /\
    (forall k e, lookup k entries = Some e -> complete e) /\
    edges_ok entries /\
    origin_ok nodes entries.
Proof.
  unfold createAnalysisStructure, createAnalysisStructureF.
  destruct (find_node _ nodes) as [home|] eqn:Hhome; [|discriminate].
  intros H. exists home. split; [reflexivity|].
  destruct (generateNode_run nodes _ _ _ _ _ H) as [-> Hrun].
  pose proof (find_node_Some _ _ _ Hhome) as [Hin _].
  assert (Hnames : generateNode_post nodes home [] (NT.node home) entries).
  { apply (wp_Ok anyError False (generateNode nodes (S (length nodes)) home) []
             (generateNode_post nodes home []) _ _); [|exact H].
    apply generateNode_names; [exact Hin | apply registered_ok_nil |].
    pose proof (unregistered_bound (inputNames nodes) []) as Hb.
    unfold unregistered, inputNames in *. rewrite length_map in Hb. lia. }
  destruct Hnames as (_ & Hreg & _ & Hroot).
  repeat split; try apply Hreg; auto.
  - intros k e He.
    destruct (run_structure nodes _ _ _ Hrun) as [_ Hc].
    apply (Hc k e He). reflexivity.
  - apply (run_edges nodes _ _ _ Hrun). apply edges_ok_nil.
  - apply (run_edges nodes _ _ _ Hrun). apply edges_ok_nil.
  - apply (run_edges nodes _ _ _ Hrun). apply edges_ok_nil.
  - apply (run_origin nodes home Hhome _ _ _ Hrun); auto.
    + left. rewrite (walkedNode_home nodes home Hhome), String.eqb_refl. reflexivity.
    + apply reachable_home. exact Hhome.
    + apply origin_ok_nil.
  - apply (run_origin nodes home Hhome _ _ _ Hrun); auto.
    + left. rewrite (walkedNode_home nodes home Hhome), String.eqb_refl. reflexivity.
    + apply reachable_home. exact Hhome.
    + apply origin_ok_nil.
Qed.


(** The construction never builds a nested analysis quorum set: every
    entry of every dependency list is a direct reference. *)
Lemma construction_flattens nodes fuel root entries :
  createAnalysisStructureF nodes fuel = Ok (root, entries) ->
  forall e d, In e entries -> In d (dependencies (quorumSet e)) ->
    isQuorumSet d = false.
Proof.
  intros H e d He Hd. apply createAnalysisStructureF_Ok in H.
  destruct (createAnalysisStructure_graph _ _ _ H)
    as (home & _ & _ & _ & [Hnd _] & _ & (Hdeps & _) & _).
  destruct (Hdeps _ e d (NoDup_lookup entries e Hnd He) Hd) as (n & -> & _).
  reflexivity.
Qed.

(** Entries whose network objects have the same identifier are the same
    entry: among the network objects of a graph, the [node] field tells
    the objects apart. *)
Lemma networkObject_identity nodes fuel root entries :
  createAnalysisStructureF nodes fuel = Ok (root, entries) ->
  forall e1 e2, In e1 entries -> In e2 entries ->
    NT.node (networkObject e1) = NT.node (networkObject e2) -> e1 = e2.
Proof.
  intros H e1 e2 H1 H2 Heq. apply createAnalysisStructureF_Ok in H.
  destruct (createAnalysisStructure_graph _ _ _ H)
    as (home & _ & _ & _ & [Hnd _] & _ & _ & (_ & Hwalk)).
  pose proof (NoDup_lookup entries e1 Hnd H1) as Hl1.
  pose proof (NoDup_lookup entries e2 Hnd H2) as Hl2.
  pose proof (walkedNode_In _ _ _ (Hwalk _ _ Hl1)) as [_ Hn1].
  pose proof (walkedNode_In _ _ _ (Hwalk _ _ Hl2)) as [_ Hn2].
  assert (Hname : name e1 = name e2) by congruence.
  rewrite Hname in Hl1. congruence.
Qed.

(** ** Valid input *)




(** ** The analysis returns on every graph that was built *)

Lemma edges_ok_closed c : edges_ok c -> closed c.
Proof. intros (H1 & H2 & _). split; assumption. Qed.

Lemma fades_shape c c' : fades c c' -> shape c' = shape c.
Proof.
  induction 1 as [|b a l1 l2 (H1 & H2 & H3 & H4 & _) _ IH]; simpl; [reflexivity|].
  rewrite IH, H1, H2, H3, H4. reflexivity.
Qed.

Lemma shape_reset c : shape (reset c) = shape c.
Proof. induction c as [|e c IH]; simpl; [|rewrite IH]; reflexivity. Qed.

Lemma shape_names c c' : shape c' = shape c -> names c' = names c.
Proof.
  intros H. unfold names.
  assert (Hn : forall c0, map name c0 = map (fun x => fst (fst (fst x))) (shape c0)).
  { intros c0. unfold shape. rewrite map_map. reflexivity. }
  rewrite !Hn, H. reflexivity.
Qed.

Lemma shape_lookup c c' k e' :
  shape c' = shape c -> lookup k c' = Some e' ->
  exists e, lookup k c = Some e /\ quorumSet e = quorumSet e' /\
            dependentsNames e = dependentsNames e'.
Proof.
  revert c. induction c' as [|a c' IH]; intros [|b c] Hs; simpl in *;
    try discriminate.
  injection Hs as Hn Hq Hd Ho Hs. rewrite <- Hn.
  destruct (String.eqb (name a) k).
  - intros H. injection H as <-. exists b. auto.
  - intros H. apply IH; assumption.
Qed.

Lemma closed_shape c c' : shape c' = shape c -> closed c -> closed c'.
Proof.
  intros Hs [H1 H2]. split; rewrite (shape_names _ _ Hs).
  - intros k e' d He' Hd.
    destruct (shape_lookup _ _ _ _ Hs He') as (e & He & Hq & _).
    apply (H1 k e d He). rewrite Hq. exact Hd.
  - intros k e' a He' Ha.
    destruct (shape_lookup _ _ _ _ Hs He') as (e & He & _ & Hq).
    apply (H2 k e a He). rewrite Hq. exact Ha.
Qed.

Lemma satisfied_direct st t deps :
  (forall d, In d deps -> exists n, d = DepName n /\ In n (names st)) ->
  satisfied (liveness st) (MkAnalysisQuorumSet t deps) <> None.
Proof.
  intros H. cbn [satisfied].
  assert (Hfold : foldOption (countSatisfied (liveness st) (satisfied (liveness st)))
                    deps t <> None).
  { revert t. induction deps as [|d deps IH]; intros t; [discriminate|].
    cbn [foldOption]. destruct (H d (or_introl eq_refl)) as (n & -> & Hn).
    cbn [countSatisfied]. unfold liveness at 1.
    destruct (lookup_In _ _ Hn) as [e ->]. cbn [option_map].
    apply IH. intros d Hd. apply H. right. exact Hd. }
  destruct (foldOption _ deps t); [discriminate | contradiction].
Qed.

Lemma quorumSetMeetsThreshold_total k e s :
  closed (analysisNodes s) -> lookup k (analysisNodes s) = Some e ->
  wp noError False (quorumSetMeetsThreshold (quorumSet e)) s
    (fun _ s' => analysisNodes s' = analysisNodes s).
Proof.
  intros [Hc _] He.
  pose proof (quorumSetMeetsThreshold_spec (quorumSet e) s) as H.
  unfold wp, evaluation_spec in *.
  destruct (quorumSetMeetsThreshold (quorumSet e) s) as [[b s']| |]; try tauto.
  destruct H as [_ H]. exfalso. revert H.
  rewrite (quorumSet_eta (quorumSet e)). apply satisfied_direct.
  intros d Hd. apply (Hc k e d He Hd).
Qed.

Lemma checkDependents_total fuel : forall deadNode s,
  closed (analysisNodes s) ->
  (forall a, In a (dependentsNames deadNode) -> In a (names (analysisNodes s))) ->
  (liveCount (analysisNodes s) < fuel)%nat ->
  wp noError False (checkDependents fuel deadNode) s
    (fun _ s' => fades (analysisNodes s) (analysisNodes s')).
Proof.
  induction fuel as [|fuel' IH]; intros deadNode s Hclosed Hdeps Hfuel; [lia|].
  simpl.
  apply (wp_forEach noError False _
           (fun s' => fades (analysisNodes s) (analysisNodes s')));
    [|apply fades_refl].
  intros nodeName s1 Hin Hs1. apply wp_bind.
  pose proof (fades_shape _ _ Hs1) as Hshape.
  pose proof (closed_shape _ _ Hshape Hclosed) as Hclosed1.
  unfold getNode at 1, wp at 1.
  destruct (lookup nodeName (analysisNodes s1)) as [dependentNode|] eqn:Hl.
  2:{ apply lookup_None in Hl. apply Hl. rewrite (shape_names _ _ Hshape).
      apply Hdeps. exact Hin. }
  destruct (live dependentNode) eqn:Hlive; [|apply wp_ret; exact Hs1].
  apply wp_bind. eapply wp_mono;
    [apply (quorumSetMeetsThreshold_total nodeName); eassumption|].
  intros ok s2 Hs2. cbv beta.
  destruct ok; [apply wp_ret; rewrite Hs2; exact Hs1|].
  apply wp_bind. apply wp_modify. apply wp_bind. apply wp_modify.
  cbn [analysisNodes deadNodes]. rewrite Hs2.
  pose proof (markDead_liveCount nodeName _ _ Hl Hlive) as Hlt.
  pose proof (fades_liveCount _ _ Hs1) as Hle.
  pose proof (fades_markDead nodeName (analysisNodes s1)) as Hmark.
  eapply wp_mono.
  - apply IH; cbn [analysisNodes].
    + apply (closed_shape _ _ (fades_shape _ _ Hmark) Hclosed1).
    + intros a Ha. rewrite (shape_names _ _ (fades_shape _ _ Hmark)).
      destruct Hclosed1 as [_ H2]. apply (H2 nodeName dependentNode a Hl Ha).
    + lia.
  - intros u s3 Hs3. cbn [analysisNodes] in Hs3.
    eapply fades_trans; [exact Hs1|].
    eapply fades_trans; [exact Hmark | exact Hs3].
Qed.

Lemma liveCount_length c : (liveCount c <= length c)%nat.
Proof.
  unfold liveCount. induction c as [|e c IH]; simpl; [lia|].
  destruct (live e); simpl; lia.
Qed.

Lemma shape_length c c' : shape c' = shape c -> length c' = length c.
Proof.
  intros H. apply (f_equal (@length _)) in H. unfold shape in H.
  rewrite !length_map in H. exact H.
Qed.

Lemma simulate_total fuel root nodeToHalt st cases :
  closed st -> In root (names st) ->
  (forall a, In a (dependentsNames nodeToHalt) -> In a (names st)) ->
  (length st < fuel)%nat ->
  wp noError False (simulate fuel root nodeToHalt) (st, cases)
    (fun _ st' => shape (fst st') = shape st).
Proof.
  intros Hclosed Hroot Hdeps Hfuel. unfold wp, simulate.
  destruct (String.eqb (name nodeToHalt) root); [reflexivity|].
  unfold bind at 1, markDead at 1, modify at 1. unfold bind at 1.
  cbn [analysisNodes deadNodes].
  pose proof (fades_markDead (name nodeToHalt) (reset st)) as Hmark.
  assert (Hshape : shape (update (name nodeToHalt) (setLive false) (reset st)) = shape st)
    by (rewrite (fades_shape _ _ Hmark); apply shape_reset).
  pose proof (checkDependents_total fuel nodeToHalt
                (MkPassState (update (name nodeToHalt) (setLive false) (reset st)) []))
    as Hc.
  cbn [analysisNodes] in Hc. unfold wp in Hc.
  assert (Hlen : (liveCount (update (name nodeToHalt) (setLive false) (reset st)) < fuel)%nat).
  { pose proof (liveCount_length (update (name nodeToHalt) (setLive false) (reset st))).
    rewrite (shape_length _ _ Hshape) in *. lia. }
  specialize (Hc (closed_shape _ _ Hshape Hclosed)).
  rewrite (shape_names _ _ Hshape) in Hc. specialize (Hc Hdeps Hlen).
  destruct (checkDependents fuel nodeToHalt _) as [[u s1]| |]; try contradiction.
  assert (Hshape1 : shape (analysisNodes s1) = shape st)
    by (rewrite (fades_shape _ _ Hc); exact Hshape).
  unfold getNode.
  destruct (lookup root (analysisNodes s1)) as [rootNode|] eqn:Hl.
  - destruct (live rootNode); exact Hshape1.
  - apply lookup_None in Hl. apply Hl. rewrite (shape_names _ _ Hshape1). exact Hroot.
Qed.

Lemma registered_length nodes c : registered_ok nodes c -> (length c <= length nodes)%nat.
Proof.
  intros [Hnd Hincl]. pose proof (NoDup_incl_length Hnd Hincl) as H.
  unfold names, inputNames in H. rewrite !length_map in H. exact H.
Qed.

Lemma analysis_total nodes fuel root entries :
  createAnalysisStructure nodes = Ok (root, entries) ->
  (length nodes < fuel)%nat ->
  exists st, forEach (simulate fuel root) entries (entries, []) = Ok (tt, st).
Proof.
  intros H Hfuel.
  destruct (createAnalysisStructure_graph _ _ _ H)
    as (home & _ & _ & Hroot & Hreg & _ & Hedges & _).
  pose proof (edges_ok_closed _ Hedges) as Hclosed.
  pose proof (registered_length _ _ Hreg) as Hlen.
  pose proof (wp_forEach noError False (simulate fuel root)
                (fun st => shape (fst st) = shape entries) entries) as Hw.
  assert (Hstep : forall x s, In x entries -> shape (fst s) = shape entries ->
            wp noError False (simulate fuel root x) s
              (fun _ s' => shape (fst s') = shape entries)).
  { intros x [st cases] Hx Hs. cbn [fst] in Hs.
    eapply wp_mono.
    - apply simulate_total.
      + apply (closed_shape _ _ Hs Hclosed).
      + rewrite (shape_names _ _ Hs). exact Hroot.
      + rewrite (shape_names _ _ Hs). intros a Ha.
        destruct Hclosed as [_ H2].
        apply (H2 (name x) x a); [|exact Ha].
        apply NoDup_lookup; [apply Hreg | exact Hx].
      + rewrite (shape_length _ _ Hs). lia.
    - intros u s' Hs'. cbv beta in Hs'. rewrite Hs'. exact Hs. }
  specialize (Hw Hstep (entries, []) eq_refl). unfold wp in Hw.
  destruct (forEach (simulate fuel root) entries (entries, [])) as [[[] st]|e|];
    [eauto | destruct Hw | destruct Hw].
Qed.

Lemma checkDependents_refines fuel fuel' :
  (fuel <= fuel')%nat ->
  forall deadNode, refines (checkDependents fuel deadNode) (checkDependents fuel' deadNode).
Proof.
  revert fuel'. induction fuel as [|fuel IH]; intros fuel' Hle deadNode.
  - intros s H. exfalso. apply H. reflexivity.
  - destruct fuel' as [|fuel']; [lia|]. simpl.
    apply refines_forEach. intros nodeName _.
    apply refines_bind; [apply refines_refl|]. intros dependentNode.
    destruct (live dependentNode); [|apply refines_refl].
    apply refines_bind; [apply refines_refl|]. intros [|]; [apply refines_refl|].
    apply refines_bind; [apply refines_refl|]. intros _.
    apply refines_bind; [apply refines_refl|]. intros _.
    apply IH. lia.
Qed.

Lemma simulate_refines fuel fuel' root nodeToHalt :
  (fuel <= fuel')%nat ->
  refines (simulate fuel root nodeToHalt) (simulate fuel' root nodeToHalt).
Proof.
  intros Hle [nodes cases]. unfold simulate.
  destruct (String.eqb (name nodeToHalt) root); [reflexivity|].
  intros H.
  assert (Hr : refines (markDead (name nodeToHalt) ;;;
                        checkDependents fuel nodeToHalt ;;; getNode root)
                       (markDead (name nodeToHalt) ;;;
                        checkDependents fuel' nodeToHalt ;;; getNode root)).
  { apply refines_bind; [apply refines_refl|]. intros _.
    apply refines_bind; [|intros _; apply refines_refl].
    apply checkDependents_refines. exact Hle. }
  rewrite (Hr (MkPassState (reset nodes) [])); [reflexivity|].
  intros Heq. rewrite Heq in H. apply H. reflexivity.
Qed.

(** With any budget above the number of input nodes the analysis does not
    run out, and its result is the same. *)
Lemma haltingAnalysisF_stable nodes fuel numberOfNodesToTest :
  (length nodes < fuel)%nat ->
  haltingAnalysisF fuel nodes numberOfNodesToTest
  = haltingAnalysis nodes numberOfNodesToTest /\
  haltingAnalysis nodes numberOfNodesToTest <> OutOfFuel.
Proof.
  intros Hfuel. unfold haltingAnalysis, haltingAnalysisF.
  destruct (negb (numberOfNodesToTest =? 1)); [split; [reflexivity | discriminate]|].
  rewrite !createAnalysisStructureF_stable by lia.
  pose proof (createAnalysisStructureF_total nodes (S (length nodes))
                (Nat.lt_succ_diag_r _)) as Htot.
  rewrite createAnalysisStructureF_stable in Htot by lia.
  destruct (createAnalysisStructure nodes) as [[root entries]|e|] eqn:Hc;
    [|split; [reflexivity | discriminate]|contradiction].
  destruct (analysis_total nodes (S (length nodes)) root entries Hc
              (Nat.lt_succ_diag_r _)) as [st Hst].
  assert (Hr : refines (forEach (simulate (S (length nodes)) root) entries)
                       (forEach (simulate fuel root) entries)).
  { apply refines_forEach. intros x _. apply simulate_refines. lia. }
  rewrite (Hr (entries, [])) by (rewrite Hst; discriminate).
  rewrite Hst. destruct st as [st cases]. split; [reflexivity | discriminate].
Qed.

(** The only error of a pass is the [TypeError] of [getNode]. *)
Lemma simulate_errors fuel root nodeToHalt st :
  wp (fun e => e = TypeError) True (simulate fuel root nodeToHalt) st
    (fun _ _ => True).
Proof.
  unfold wp, simulate. destruct st as [nodes failureCases].
  destruct (String.eqb (name nodeToHalt) root); [exact I|].
  unfold bind at 1, markDead at 1, modify at 1. unfold bind at 1.
  pose proof (checkDependents_fades_partial (fun e => e = TypeError) fuel eq_refl
                nodeToHalt
                (MkPassState (update (name nodeToHalt) (setLive false) (reset nodes)) []))
    as Hc.
  unfold wp in Hc. cbn [analysisNodes deadNodes].
  destruct (checkDependents fuel nodeToHalt _) as [[u s1]| |]; auto.
  unfold getNode. destruct (lookup root (analysisNodes s1)) as [rootNode|]; auto.
  destruct (live rootNode); exact I.
Qed.

(** ** Further facts about the construction *)

Lemma wp_and {S A} E F (m : M S A) s (Q1 Q2 : A -> S -> Prop) :
  wp E F m s Q1 -> wp anyError True m s Q2 ->
  wp E F m s (fun a s' => Q1 a s' /\ Q2 a s').
Proof.
  unfold wp. destruct (m s) as [[a s']| |]; auto.
Qed.

Lemma Forall_update (P : AnalysisNode -> Prop) k f c :
  (forall e, P e -> P (f e)) -> Forall P c -> Forall P (update k f c).
Proof.
  intros Hf. induction 1 as [|e c He Hc IH]; simpl; [constructor|].
  destruct (String.eqb (name e) k); constructor; auto.
Qed.

Lemma run_live nodes task c c' :
  run nodes task c c' ->
  Forall (fun e => live e = true) c -> Forall (fun e => live e = true) c'.
Proof.
  induction 1 as [node c cached Hl
                 |node c c' Hl Hrun IH
                 |entry t v c c' Hn _ IH
                 |entry t v c c' Hn _ IH
                 |entry c
                 |entry q v c c1 c2 Hrun1 IH1 _ IH2
                 |entry c
                 |entry x v n c c1 c2 Hfind Hrun1 IH1 _ IH2]; auto.
  - intros Hc. apply IH. rewrite (cacheSet_fresh (newEntry node) c Hl).
    apply Forall_app. split; [exact Hc | repeat constructor].
  - intros Hc. apply IH2. apply Forall_update; [auto|].
    apply Forall_update; auto.
Qed.



Section ReachableErrors.

Variable nodes : list NetworkGraphNode.
Variable home : NetworkGraphNode.
Hypothesis Hhome : find_node (fun n => Z.eqb (NT.distance n) 0) nodes = Some home.



End ReachableErrors.

(** The first entry is the root. *)
Lemma createAnalysisStructure_head nodes root entries :
  createAnalysisStructure nodes = Ok (root, entries) ->
  exists e0 rest, entries = e0 :: rest /\ name e0 = root.
Proof.
  unfold createAnalysisStructure, createAnalysisStructureF.
  destruct (find_node _ nodes) as [home|]; [|discriminate].
  intros H. destruct (generateNode_run nodes _ _ _ _ _ H) as [-> Hrun].
  inversion Hrun as [? ? cached Hl| ? ? ? Hl Hset | | | | | |]; subst;
    [discriminate|].
  destruct (run_extends _ _ _ _ Hset) as [extra Hnames].
  simpl in Hnames. destruct entries as [|e0 rest]; [discriminate|].
  injection Hnames as Hn _. eauto.
Qed.

(** ** Further facts about the evaluation and the passes *)

Lemma foldOption_count liveOf deps : forall t t',
  foldOption (countSatisfied liveOf (satisfied liveOf)) deps t = Some t' ->
  t' = t - Z.of_nat (length (filter (entrySatisfied liveOf) deps)).
Proof.
  induction deps as [|d deps IH]; intros t t'; cbn [foldOption].
  - intros H. injection H as <-. simpl. lia.
  - destruct (countSatisfied liveOf (satisfied liveOf) t d) as [t1|] eqn:Hd;
      [|discriminate].
    intros H. rewrite (IH _ _ H). cbn [filter].
    assert (Ht1 : t1 = if entrySatisfied liveOf d then t - 1 else t).
    { destruct d as [n|q]; cbn [countSatisfied entrySatisfied] in *.
      - destruct (liveOf n) as [[|]|]; congruence.
      - destruct (satisfied liveOf q) as [[|]|]; congruence. }
    rewrite Ht1. destruct (entrySatisfied liveOf d); cbn [length]; lia.
Qed.

Lemma satisfied_count liveOf t deps b :
  satisfied liveOf (MkAnalysisQuorumSet t deps) = Some b ->
  b = (t <=? Z.of_nat (length (filter (entrySatisfied liveOf) deps))).
Proof.
  cbn [satisfied].
  destruct (foldOption _ deps t) as [t'|] eqn:Hf; [|discriminate].
  intros H. injection H as <-. rewrite (foldOption_count _ _ _ _ Hf).
  destruct (Z.leb_spec (t - Z.of_nat (length (filter (entrySatisfied liveOf) deps))) 0);
    destruct (Z.leb_spec t (Z.of_nat (length (filter (entrySatisfied liveOf) deps))));
    try reflexivity; lia.
Qed.

Lemma entryMeets_satisfied s d :
  entryMeets s d = entrySatisfied (liveness (analysisNodes s)) d.
Proof.
  destruct d as [n|q]; cbn [entryMeets entrySatisfied].
  - unfold liveness. destruct (lookup n (analysisNodes s)) as [e|]; [|reflexivity].
    simpl. destruct (live e); reflexivity.
  - pose proof (quorumSetMeetsThreshold_verdict q s) as H.
    destruct (quorumSetMeetsThreshold q s) as [[[|] s']| |];
      destruct (satisfied (liveness (analysisNodes s)) q) as [[|]|];
      simpl in H; congruence.
Qed.

Lemma filter_ext_eq {A} (f g : A -> bool) l :
  (forall x, f x = g x) -> filter f l = filter g l.
Proof.
  intros H. induction l as [|x l IH]; simpl; [reflexivity|].
  rewrite H, IH. reflexivity.
Qed.

(** Fewer live nodes give larger counters and weaker verdicts. *)
Lemma satisfied_mono l l' :
  (forall n, fewerLive implb_le (l n) (l' n)) ->
  forall q, fewerLive implb_le (satisfied l q) (satisfied l' q).
Proof.
  intros Hl q. induction q as [t deps IH] using AnalysisQuorumSet_nested_ind.
  cbn [satisfied].
  assert (Hfold : forall t1 t2, t1 <= t2 ->
            fewerLive Z.le
              (foldOption (countSatisfied l (satisfied l)) deps t1)
              (foldOption (countSatisfied l' (satisfied l')) deps t2)).
  { induction deps as [|d deps IHdeps]; intros t1 t2 Ht; cbn [foldOption].
    - exact Ht.
    - assert (Hd : fewerLive Z.le (countSatisfied l (satisfied l) t1 d)
                     (countSatisfied l' (satisfied l') t2 d)).
      { destruct d as [n|q]; cbn [countSatisfied].
        - specialize (Hl n). unfold fewerLive, implb_le in *.
          destruct (l n) as [[|]|], (l' n) as [[|]|]; try tauto; try lia.
        - specialize (IH q (or_introl eq_refl)). unfold fewerLive, implb_le in *.
          destruct (satisfied l q) as [[|]|], (satisfied l' q) as [[|]|];
            try tauto; try lia. }
      unfold fewerLive in Hd.
      destruct (countSatisfied l (satisfied l) t1 d) as [t1'|],
               (countSatisfied l' (satisfied l') t2 d) as [t2'|]; try tauto.
      apply IHdeps; [|exact Hd]. intros q Hq. apply IH. right. exact Hq. }
  specialize (Hfold t t (Z.le_refl t)). unfold fewerLive in *.
  destruct (foldOption (countSatisfied l (satisfied l)) deps t) as [t1|],
           (foldOption (countSatisfied l' (satisfied l')) deps t) as [t2|];
    simpl; try tauto.
  unfold implb_le. intros H. apply Z.leb_le in H. apply Z.leb_le. lia.
Qed.

Lemma fades_liveness st st' :
  fades st st' ->
  forall n, fewerLive implb_le (liveness st n) (liveness st' n).
Proof.
  unfold liveness.
  induction 1 as [|b a l1 l2 (Hn & _ & _ & _ & Hl) _ IH]; intros n; simpl; [exact I|].
  rewrite Hn. destruct (String.eqb (name b) n); [|apply IH].
  simpl. exact Hl.
Qed.

Lemma reset_shape c1 c2 : shape c1 = shape c2 -> reset c1 = reset c2.
Proof.
  revert c2. induction c1 as [|a c1 IH]; intros [|b c2] H; simpl in *;
    try discriminate; [reflexivity|].
  injection H as Hn Hq Hd Ho H. rewrite (IH _ H).
  unfold setLive. rewrite Hn, Hq, Hd, Ho. reflexivity.
Qed.

Lemma pass_fades E fuel x s :
  E TypeError ->
  wp E True (pass fuel x) s (fun _ s' => fades (analysisNodes s) (analysisNodes s')).
Proof.
  intros HE. unfold pass. apply wp_bind. apply wp_modify.
  eapply wp_mono; [apply checkDependents_fades_partial; exact HE|].
  intros u s' Hs'. cbn [analysisNodes] in Hs'.
  eapply fades_trans; [apply fades_markDead | exact Hs'].
Qed.

(** The body of the driver's loop, through [pass] and [failureCase]. *)
Lemma simulate_pass fuel root x st cs :
  simulate fuel root x (st, cs) =
  if String.eqb (name x) root then Ok (tt, (st, cs))
  else match pass fuel x (MkPassState (reset st) []) with
       | Ok (_, s) =>
         match lookup root (analysisNodes s) with
         | Some _ => Ok (tt, (analysisNodes s, cs ++ failureCase root x s))
         | None => Throw TypeError
         end
       | Throw e => Throw e
       | OutOfFuel => OutOfFuel
       end.
Proof.
  unfold simulate, pass. destruct (String.eqb (name x) root); [reflexivity|].
  unfold bind at 1 3. cbn [markDead modify].
  unfold bind at 1.
  destruct (checkDependents fuel x _) as [[u s]| |]; try reflexivity.
  unfold getNode, failureCase.
  destruct (lookup root (analysisNodes s)) as [r|]; [|reflexivity].
  destruct (live r); [rewrite app_nil_r|]; reflexivity.
Qed.

Lemma forEach_simulate fuel root entries l : forall st cs st' cs',
  shape st = shape entries ->
  forEach (simulate fuel root) l (st, cs) = Ok (tt, (st', cs')) ->
  cs' = cs ++ flat_map (passCases fuel root entries) l /\
  shape st' = shape entries.
Proof.
  induction l as [|x l IH]; intros st cs st' cs' Hs; cbn [forEach flat_map].
  - unfold ret. intros H. injection H as <- <-. rewrite app_nil_r. auto.
  - unfold bind at 1. rewrite simulate_pass. unfold passCases.
    rewrite (reset_shape _ _ Hs).
    destruct (String.eqb (name x) root).
    + intros H. apply (IH _ _ _ _ Hs H).
    + pose proof (pass_fades anyError fuel x (MkPassState (reset entries) []) I) as Hf.
      unfold wp in Hf. cbn [analysisNodes] in Hf.
      destruct (pass fuel x (MkPassState (reset entries) [])) as [[u s]| |];
        try discriminate.
      destruct (lookup root (analysisNodes s)) as [r|]; [|discriminate].
      intros H. apply IH in H.
      * destruct H as [-> H]. rewrite <- app_assoc. auto.
      * rewrite (fades_shape _ _ Hf). apply shape_reset.
Qed.

(** ** Invariants of the cascade *)

Lemma isDead_fades s s' d :
  fades (analysisNodes s) (analysisNodes s') -> isDead s d -> isDead s' d.
Proof.
  intros Hf (e & He & Hl & Hd). unfold isDead.
  revert He. generalize (name d) as k.
  induction Hf as [|b a l1 l2 (Hn & _ & Hdep & _ & Hlive) _ IH]; intros k; simpl;
    [discriminate|].
  rewrite Hn. destruct (String.eqb (name b) k).
  - intros H. injection H as <-. exists a. split; [reflexivity|].
    split; [|congruence].
    destruct (live a); [|reflexivity]. rewrite Hlive in Hl; [discriminate | reflexivity].
  - apply IH.
Qed.

(** A property of the state of a pass that the evaluation of a live
    dependent of a dead node keeps, and that marking the dependent keeps
    when the evaluation has failed, holds after the cascade. *)
Lemma checkDependents_invariant (J : PassState -> Prop) (E : Error -> Prop) :
  E TypeError ->
  (forall deadNode s nodeName e ok s1,
     J s -> isDead s deadNode -> In nodeName (dependentsNames deadNode) ->
     lookup nodeName (analysisNodes s) = Some e -> live e = true ->
     quorumSetMeetsThreshold (quorumSet e) s = Ok (ok, s1) ->
     J s1 /\ (ok = false -> J (marked s1 nodeName e))) ->
  forall fuel deadNode s, J s -> isDead s deadNode ->
    wp E True (checkDependents fuel deadNode) s (fun _ s' => J s').
Proof.
  intros HE Hstep fuel.
  induction fuel as [|fuel' IH]; intros deadNode s HJ Hdead; [exact I|].
  simpl.
  eapply wp_mono.
  - apply (wp_forEach E True _
             (fun s' => J s' /\ fades (analysisNodes s) (analysisNodes s'))).
    2:{ split; [exact HJ | apply fades_refl]. }
    intros nodeName s1 Hin [HJ1 Hf1]. apply wp_bind.
    unfold getNode at 1, wp at 1.
    destruct (lookup nodeName (analysisNodes s1)) as [e|] eqn:Hl; [|exact HE].
    destruct (live e) eqn:Hlive; [|apply wp_ret; auto].
    apply wp_bind. unfold wp at 1.
    pose proof (quorumSetMeetsThreshold_spec (quorumSet e) s1) as Hspec.
    unfold evaluation_spec in Hspec.
    destruct (quorumSetMeetsThreshold (quorumSet e) s1) as [[ok s2]| |] eqn:Hq;
      [|destruct Hspec as [-> _]; exact HE|destruct Hspec].
    destruct Hspec as (Hnodes & _ & _).
    destruct (Hstep deadNode s1 nodeName e ok s2 HJ1
                (isDead_fades _ _ _ Hf1 Hdead) Hin Hl Hlive Hq) as [HJ2 Hmark].
    destruct ok; [apply wp_ret; rewrite Hnodes; auto|].
    apply wp_bind. apply wp_modify. apply wp_bind. apply wp_modify.
    cbn [analysisNodes deadNodes].
    assert (Hdead' : isDead (marked s2 nodeName e) e).
    { exists (setLive false e). unfold marked. cbn [analysisNodes].
      destruct (lookup_Some _ _ _ Hl) as [Hname _]. rewrite Hname.
      rewrite lookup_update_same by reflexivity.
      rewrite Hnodes, Hl. auto. }
    eapply wp_mono.
    + apply wp_and.
      * apply (IH e (marked s2 nodeName e) (Hmark eq_refl) Hdead').
      * apply (checkDependents_fades_partial anyError fuel' I e (marked s2 nodeName e)).
    + intros u s3 [HJ3 Hf3]. split; [exact HJ3|].
      unfold marked in Hf3. cbn [analysisNodes] in Hf3. rewrite Hnodes in Hf3.
      eapply fades_trans; [exact Hf1|].
      eapply fades_trans; [apply fades_markDead | exact Hf3].
  - intros u s' [HJ' _]. exact HJ'.
Qed.

Lemma lookup_reset k c : lookup k (reset c) = option_map (setLive true) (lookup k c).
Proof.
  induction c as [|e c IH]; simpl; [reflexivity|].
  destruct (String.eqb (name e) k); [reflexivity | exact IH].
Qed.

Lemma passStart_dead entries candidate k e :
  lookup k (passStart entries candidate) = Some e -> live e = false -> k = candidate.
Proof.
  unfold passStart. rewrite lookup_update by reflexivity.
  destruct (String.eqb_spec k candidate) as [|_]; [auto|].
  rewrite lookup_reset. destruct (lookup k entries); simpl; [|discriminate].
  intros H. injection H as <-. discriminate.
Qed.

Lemma passStart_shape entries candidate :
  shape (passStart entries candidate) = shape entries.
Proof.
  unfold passStart. rewrite (fades_shape _ _ (fades_markDead candidate (reset entries))).
  apply shape_reset.
Qed.

Lemma passStart_isDead entries x dead :
  NoDup (names entries) -> In x entries ->
  isDead (MkPassState (passStart entries (name x)) dead) x.
Proof.
  intros Hnd Hx. exists (setLive false (setLive true x)).
  cbn [analysisNodes]. unfold passStart.
  rewrite lookup_update_same by reflexivity.
  rewrite lookup_reset, (NoDup_lookup entries x Hnd Hx). auto.
Qed.

Lemma deadReferences_dead st q n :
  In n (deadReferences st q) ->
  exists k e, lookup k st = Some e /\ live e = false /\ networkObject e = n.
Proof.
  revert n. induction q as [t deps IH] using AnalysisQuorumSet_nested_ind.
  intros n. rewrite deadReferences_eq, in_flat_map.
  intros ([d|q] & Hin & Hn); cbn [deadReference] in Hn.
  - destruct (lookup d st) as [e|] eqn:Hl; [|destruct Hn].
    destruct (live e) eqn:Hlive; [destruct Hn|].
    destruct Hn as [<-|[]]. eauto.
  - apply (IH q Hin). exact Hn.
Qed.

Lemma deadReferences_In st t deps n e :
  In (DepName n) deps -> lookup n st = Some e -> live e = false ->
  In (networkObject e) (deadReferences st (MkAnalysisQuorumSet t deps)).
Proof.
  intros Hin Hl Hlive. rewrite deadReferences_eq, in_flat_map.
  exists (DepName n). split; [exact Hin|]. cbn [deadReference].
  rewrite Hl, Hlive. left. reflexivity.
Qed.

Lemma lookup_markDead k nodeName st e :
  lookup k (update nodeName (setLive false) st) = Some e ->
  exists e0, lookup k st = Some e0 /\
    (e = e0 \/ (k = nodeName /\ e = setLive false e0)).
Proof.
  rewrite lookup_update by reflexivity.
  destruct (String.eqb_spec k nodeName) as [->|_].
  - destruct (lookup nodeName st) as [e0|]; [|discriminate].
    intros H. injection H as <-. eauto.
  - intros H. eauto.
Qed.

Section PassInvariants.

Variable E : Error -> Prop.
Hypothesis HE : E TypeError.
Variable candidate : string.

Lemma checkDependents_deadNodes_sound fuel deadNode s :
  deadNodes_sound s -> isDead s deadNode ->
  wp E True (checkDependents fuel deadNode) s (fun _ s' => deadNodes_sound s').
Proof.
  apply (checkDependents_invariant deadNodes_sound E HE).
  clear deadNode s fuel. intros deadNode s nodeName e ok s1 HJ _ _ Hl Hlive Hq.
  pose proof (quorumSetMeetsThreshold_spec (quorumSet e) s) as Hspec.
  unfold evaluation_spec in Hspec. rewrite Hq in Hspec.
  destruct Hspec as (Hnodes & Hdead & _).
  assert (HJ1 : deadNodes_sound s1).
  { intros n Hn. rewrite Hdead in Hn. rewrite Hnodes.
    apply in_app_or in Hn. destruct Hn as [Hn|Hn]; [apply HJ; exact Hn|].
    eapply deadReferences_dead. exact Hn. }
  split; [exact HJ1|]. intros _ n Hn. unfold marked in *.
  cbn [deadNodes analysisNodes] in *. apply in_app_or in Hn.
  destruct Hn as [Hn|[<-|[]]].
  - destruct (HJ1 n Hn) as (k & e0 & Hk & Hd & Ho).
    exists k. rewrite lookup_update by reflexivity. rewrite Hk.
    destruct (String.eqb k nodeName); simpl; eauto.
  - exists nodeName, (setLive false e).
    rewrite lookup_update_same by reflexivity. rewrite Hnodes, Hl. auto.
Qed.

Lemma checkDependents_deadNodes_complete fuel deadNode s :
  deadNodes_complete candidate s -> isDead s deadNode ->
  wp E True (checkDependents fuel deadNode) s
    (fun _ s' => deadNodes_complete candidate s').
Proof.
  apply (checkDependents_invariant (deadNodes_complete candidate) E HE).
  clear deadNode s fuel. intros deadNode s nodeName e ok s1 HJ _ _ Hl Hlive Hq.
  pose proof (quorumSetMeetsThreshold_spec (quorumSet e) s) as Hspec.
  unfold evaluation_spec in Hspec. rewrite Hq in Hspec.
  destruct Hspec as (Hnodes & Hdead & _).
  assert (HJ1 : deadNodes_complete candidate s1).
  { intros k e0 Hk Hd. rewrite Hnodes in Hk. rewrite Hdead.
    destruct (HJ k e0 Hk Hd) as [?|?]; [left | right; apply in_or_app]; auto. }
  split; [exact HJ1|]. intros _ k e1 Hk Hd. unfold marked in *.
  cbn [deadNodes analysisNodes] in *.
  destruct (lookup_markDead _ _ _ _ Hk) as (e0 & He0 & [->|[-> ->]]).
  - destruct (HJ1 k e0 He0 Hd) as [?|?]; [left | right; apply in_or_app]; auto.
  - right. apply in_or_app. right. left.
    rewrite Hnodes, Hl in He0. injection He0 as <-. reflexivity.
Qed.

Lemma checkDependents_deaths_sound fuel deadNode s :
  deaths_sound candidate s -> isDead s deadNode ->
  wp E True (checkDependents fuel deadNode) s
    (fun _ s' => deaths_sound candidate s').
Proof.
  apply (checkDependents_invariant (deaths_sound candidate) E HE).
  clear deadNode s fuel. intros deadNode s nodeName e ok s1 HJ _ _ Hl Hlive Hq.
  pose proof (quorumSetMeetsThreshold_spec (quorumSet e) s) as Hspec.
  unfold evaluation_spec in Hspec. rewrite Hq in Hspec.
  destruct Hspec as (Hnodes & _ & Hsat).
  assert (HJ1 : deaths_sound candidate s1).
  { intros k e0 Hk Hd. rewrite Hnodes in *. apply (HJ k e0 Hk Hd). }
  split; [exact HJ1|]. intros -> k e1 Hk Hd. unfold marked in *.
  cbn [deadNodes analysisNodes] in *. rewrite Hnodes in *.
  pose proof (satisfied_mono _ _
                (fades_liveness _ _ (fades_markDead nodeName (analysisNodes s))))
    as Hmono.
  assert (Hfalse : forall q, satisfied (liveness (analysisNodes s)) q = Some false ->
            satisfied (liveness (update nodeName (setLive false) (analysisNodes s))) q
            = Some false).
  { intros q Hq0. specialize (Hmono q). rewrite Hq0 in Hmono.
    unfold fewerLive, implb_le in Hmono.
    destruct (satisfied _ q) as [[|]|]; try tauto.
    specialize (Hmono eq_refl). discriminate. }
  destruct (lookup_markDead _ _ _ _ Hk) as (e0 & He0 & [->|[-> ->]]).
  - destruct (HJ k e0 He0 Hd) as [?|Hs]; [left; assumption | right].
    apply Hfalse. exact Hs.
  - right. rewrite Hl in He0. injection He0 as <-. apply Hfalse. exact Hsat.
Qed.

End PassInvariants.

(** ** The accumulator and the failure cases *)

Lemma shape_lookup_object c c' k e' :
  shape c' = shape c -> lookup k c' = Some e' ->
  exists e, lookup k c = Some e /\ networkObject e = networkObject e'.
Proof.
  revert c. induction c' as [|a c' IH]; intros [|b c] Hs; simpl in *;
    try discriminate.
  injection Hs as Hn Hq Hd Ho Hs. rewrite <- Hn.
  destruct (String.eqb (name a) k).
  - intros H. injection H as <-. exists b. auto.
  - intros H. apply IH; assumption.
Qed.

Lemma edges_ok_shape c c' : shape c' = shape c -> edges_ok c -> edges_ok c'.
Proof.
  intros Hs (H1 & H2 & H3).
  destruct (closed_shape _ _ Hs (conj H1 H2)) as [H1' H2'].
  split; [exact H1'|]. split; [exact H2'|].
  intros a b ea eb Ha Hb.
  destruct (shape_lookup _ _ _ _ Hs Ha) as (ea0 & Hea0 & Hqa & _).
  destruct (shape_lookup _ _ _ _ Hs Hb) as (eb0 & Heb0 & _ & Hdb).
  rewrite <- Hqa, <- Hdb. apply H3; assumption.
Qed.

Lemma checkDependents_candidate_recorded E start x ex fuel deadNode s :
  E TypeError ->
  edges_ok start ->
  (forall k e, lookup k start = Some e -> live e = false -> k = name x) ->
  lookup (name x) start = Some ex ->
  candidate_recorded start (networkObject ex) s -> isDead s deadNode ->
  wp E True (checkDependents fuel deadNode) s
    (fun _ s' => candidate_recorded start (networkObject ex) s').
Proof.
  intros HE (_ & _ & Hcount) Honly Hx.
  apply (checkDependents_invariant (candidate_recorded start (networkObject ex)) E HE).
  clear deadNode s fuel. intros deadNode s nodeName e ok s1 HJ Hdead Hin Hl Hlive Hq.
  pose proof (quorumSetMeetsThreshold_spec (quorumSet e) s) as Hspec.
  unfold evaluation_spec in Hspec. rewrite Hq in Hspec.
  destruct Hspec as (Hnodes & Hdn & _).
  assert (HJ1 : In (networkObject ex) (deadNodes s1)).
  { rewrite Hdn. apply in_or_app. destruct HJ as [Hstart|HJ]; [right | left; exact HJ].
    rewrite Hstart in *.
    destruct Hdead as (e' & He' & Hlive' & Hdeps'). rewrite Hstart in He'.
    pose proof (Honly _ _ He' Hlive') as Hname. rewrite Hname in He'.
    assert (e' = ex) by congruence. subst e'.
    rewrite <- Hdeps' in Hin.
    pose proof (Hcount nodeName (name x) e ex Hl Hx) as Hc.
    assert (Hdep : In (DepName (name x)) (dependencies (quorumSet e))).
    { apply In_directNames. apply (count_occ_In string_dec). rewrite Hc.
      apply (count_occ_In string_dec). exact Hin. }
    rewrite (quorumSet_eta (quorumSet e)).
    eapply deadReferences_In; eassumption. }
  split; [right; exact HJ1|]. intros _. right. unfold marked. cbn [deadNodes].
  apply in_or_app. left. exact HJ1.
Qed.

Lemma dedupe_In seen l n :
  In n (dedupe seen l) -> In n l /\ ~ In (NT.node n) seen.
Proof.
  revert seen. induction l as [|x l IH]; intros seen; simpl; [tauto|].
  destruct (existsb (String.eqb (NT.node x)) seen) eqn:Hx.
  - intros H. destruct (IH _ H). auto.
  - intros [<-|H].
    + split; [auto|]. intros Hin.
      assert (existsb (String.eqb (NT.node x)) seen = true); [|congruence].
      apply existsb_exists. exists (NT.node x). split; [exact Hin | apply String.eqb_refl].
    + destruct (IH _ H) as [H1 H2]. split; [auto|].
      intros Hin. apply H2. right. exact Hin.
Qed.

Lemma dedupe_NoDup seen l : NoDup (map NT.node (dedupe seen l)).
Proof.
  revert seen. induction l as [|x l IH]; intros seen; simpl; [constructor|].
  destruct (existsb (String.eqb (NT.node x)) seen); [apply IH|].
  simpl. constructor; [|apply IH].
  intros Hin. apply in_map_iff in Hin. destruct Hin as (m & Hm & Hin).
  destruct (dedupe_In _ _ _ Hin) as [_ Hnot]. apply Hnot. left. symmetry. exact Hm.
Qed.

Lemma dedupe_covers seen l n :
  In n l ->
  In (NT.node n) seen \/ exists m, In m (dedupe seen l) /\ NT.node m = NT.node n.
Proof.
  revert seen. induction l as [|x l IH]; intros seen; simpl; [tauto|].
  destruct (existsb (String.eqb (NT.node x)) seen) eqn:Hx.
  - intros [<-|H]; [|apply IH; exact H].
    left. apply existsb_exists in Hx. destruct Hx as (k & Hk & Heq).
    apply String.eqb_eq in Heq. rewrite Heq. exact Hk.
  - intros [<-|H]; [right; exists x; simpl; auto|].
    destruct (IH (NT.node x :: seen) H) as [[Heq|Hin]|(m & Hm & Heq)].
    + right. exists x. simpl. auto.
    + left. exact Hin.
    + right. exists m. simpl. auto.
Qed.

(** When the identifier tells the objects of a list apart, the list and
    its deduplication have the same elements. *)
Lemma dedupe_elements l n :
  (forall a b, In a l -> In b l -> NT.node a = NT.node b -> a = b) ->
  (In n (dedupe [] l) <-> In n l).
Proof.
  intros Huniq. split; [intros H; apply (dedupe_In _ _ _ H)|].
  intros H. destruct (dedupe_covers [] l n H) as [[]|(m & Hm & Heq)].
  rewrite <- (Huniq m n); auto. apply (dedupe_In _ _ _ Hm).
Qed.

Section PassResult.

Variable nodes : list NetworkGraphNode.
Variable root : string.
Variable entries : Store.
Hypothesis Hgraph : createAnalysisStructure nodes = Ok (root, entries).

Lemma graph_NoDup : NoDup (names entries).
Proof.
  destruct (createAnalysisStructure_graph _ _ _ Hgraph)
    as (home & _ & _ & _ & [Hnd _] & _). exact Hnd.
Qed.

Lemma graph_edges_ok : edges_ok entries.
Proof.
  destruct (createAnalysisStructure_graph _ _ _ Hgraph)
    as (home & _ & _ & _ & _ & _ & Hedges & _). exact Hedges.
Qed.

(** The network object of an entry of the graph carries its name. *)
Lemma graph_object_name st k e :
  shape st = shape entries -> lookup k st = Some e -> NT.node (networkObject e) = k.
Proof.
  intros Hs Hl.
  destruct (createAnalysisStructure_graph _ _ _ Hgraph)
    as (home & _ & _ & _ & _ & _ & _ & (_ & Hwalk)).
  destruct (shape_lookup_object _ _ _ _ Hs Hl) as (e0 & He0 & <-).
  apply (walkedNode_In _ _ _ (Hwalk _ _ He0)).
Qed.

Lemma In_lookup st e :
  shape st = shape entries -> In e st -> lookup (name e) st = Some e.
Proof.
  intros Hs. apply NoDup_lookup. rewrite (shape_names _ _ Hs). apply graph_NoDup.
Qed.

(** What holds at the end of the pass for a candidate [x]. *)
Lemma pass_result fuel x s :
  In x entries ->
  pass fuel x (MkPassState (reset entries) []) = Ok (tt, s) ->
  fades (passStart entries (name x)) (analysisNodes s) /\
  isDead s x /\
  deadNodes_sound s /\
  deadNodes_complete (name x) s /\
  deaths_sound (name x) s /\
  candidate_recorded (passStart entries (name x)) (networkObject x) s.
Proof.
  intros Hx. unfold pass, bind at 1, markDead, modify.
  cbn [analysisNodes deadNodes]. fold (passStart entries (name x)).
  set (s1 := MkPassState (passStart entries (name x)) []).
  intros Hc.
  pose proof (passStart_isDead entries x [] graph_NoDup Hx) as Hdead. fold s1 in Hdead.
  assert (Hpost : forall (J : PassState -> Prop),
            wp anyError True (checkDependents fuel x) s1 (fun _ s' => J s') -> J s).
  { intros J Hw. unfold wp in Hw. rewrite Hc in Hw. exact Hw. }
  assert (Hlx : lookup (name x) (passStart entries (name x))
                = Some (setLive false (setLive true x))).
  { unfold passStart. rewrite lookup_update_same by reflexivity.
    rewrite lookup_reset, (NoDup_lookup entries x graph_NoDup Hx). reflexivity. }
  assert (Hf : fades (passStart entries (name x)) (analysisNodes s)).
  { apply (Hpost (fun s' => fades (passStart entries (name x)) (analysisNodes s'))).
    apply (checkDependents_fades_partial anyError fuel I x s1). }
  split; [exact Hf|]. split; [apply (isDead_fades s1 s x Hf Hdead)|].
  split; [|split; [|split]].
  - apply Hpost. apply checkDependents_deadNodes_sound; [exact I| |exact Hdead].
    intros n [].
  - apply Hpost. apply checkDependents_deadNodes_complete; [exact I| |exact Hdead].
    intros k e Hk Hd. left. exact (passStart_dead entries (name x) k e Hk Hd).
  - apply Hpost. apply checkDependents_deaths_sound; [exact I| |exact Hdead].
    intros k e Hk Hd. left. exact (passStart_dead entries (name x) k e Hk Hd).
  - apply Hpost.
    apply (checkDependents_candidate_recorded anyError (passStart entries (name x)) x
             (setLive false (setLive true x)) fuel x s1 I).
    + apply (edges_ok_shape entries); [apply passStart_shape | apply graph_edges_ok].
    + intros k e. apply passStart_dead.
    + exact Hlx.
    + left. reflexivity.
    + exact Hdead.
Qed.

(** The accumulator at the end of a pass in which some node other than
    the candidate has died: the network objects of the dead nodes. *)
Lemma pass_deadNodes fuel x s :
  In x entries ->
  pass fuel x (MkPassState (reset entries) []) = Ok (tt, s) ->
  (exists e, In e (analysisNodes s) /\ live e = false /\ name e <> name x) ->
  In (networkObject x) (deadNodes s) /\
  (forall n, In n (dedupe [] (deadNodes s)) <->
             exists e, In e (analysisNodes s) /\ live e = false /\ networkObject e = n).
Proof.
  intros Hx Hp (e1 & He1 & Hd1 & Hne1).
  destruct (pass_result fuel x s Hx Hp) as (Hf & Hdead & Hsound & Hcompl & _ & Hrec).
  assert (Hs : shape (analysisNodes s) = shape entries)
    by (rewrite (fades_shape _ _ Hf); apply passStart_shape).
  assert (Hxin : In (networkObject x) (deadNodes s)).
  { destruct Hrec as [Hstart|Hin]; [exfalso | exact Hin].
    apply Hne1. pose proof (In_lookup _ _ Hs He1) as Hl1. rewrite Hstart in Hl1.
    eapply passStart_dead; eassumption. }
  split; [exact Hxin|]. intros n.
  rewrite dedupe_elements.
  - split.
    + intros Hn. destruct (Hsound n Hn) as (k & e & Hk & Hd & Ho).
      exists e. split; [apply (lookup_Some _ _ _ Hk) | auto].
    + intros (e & He & Hd & <-).
      destruct (Hcompl _ e (In_lookup _ _ Hs He) Hd) as [Hname|Hin]; [|exact Hin].
      destruct Hdead as (ex & Hex & _ & _). rewrite <- Hname in Hex.
      rewrite (In_lookup _ _ Hs He) in Hex. injection Hex as ->.
      destruct (shape_lookup_object _ _ _ _ Hs (In_lookup _ _ Hs He)) as (e0 & He0 & <-).
      rewrite Hname, (NoDup_lookup entries x graph_NoDup Hx) in He0.
      injection He0 as <-. exact Hxin.
  - intros a b Ha Hb Hab.
    destruct (Hsound a Ha) as (ka & ea & Hka & _ & <-).
    destruct (Hsound b Hb) as (kb & eb & Hkb & _ & <-).
    rewrite (graph_object_name _ _ _ Hs Hka), (graph_object_name _ _ _ Hs Hkb) in Hab.
    subst kb. congruence.
Qed.

End PassResult.

(** ** The driver as independent passes *)

Lemma haltingAnalysisF_passes nodes fuel cases :
  haltingAnalysisF fuel nodes 1 = Ok cases ->
  exists root entries,
    createAnalysisStructureF nodes fuel = Ok (root, entries) /\
    cases = flat_map (passCases fuel root entries) entries.
Proof.
  unfold haltingAnalysisF. simpl.
  destruct (createAnalysisStructureF nodes fuel) as [[root entries]| |];
    try discriminate.
  destruct (forEach (simulate fuel root) entries (entries, []))
    as [[[] [st cs]]| |] eqn:Hloop; try discriminate.
  intros H. injection H as <-. exists root, entries. split; [reflexivity|].
  destruct (forEach_simulate fuel root entries entries entries [] st cs eq_refl Hloop)
    as [-> _]. reflexivity.
Qed.

Lemma passCases_In fuel root entries x f :
  In f (passCases fuel root entries x) ->
  name x <> root /\
  exists s r,
    pass fuel x (MkPassState (reset entries) []) = Ok (tt, s) /\
    lookup root (analysisNodes s) = Some r /\ live r = false /\
    f = MkHaltingFailure [networkObject x] (dedupe [] (deadNodes s)).
Proof.
  unfold passCases. destruct (String.eqb_spec (name x) root) as [|Hne]; [intros []|].
  destruct (pass fuel x (MkPassState (reset entries) [])) as [[[] s]| |];
    [|intros []|intros []].
  unfold failureCase. destruct (lookup root (analysisNodes s)) as [r|] eqn:Hr; [|intros []].
  destruct (live r) eqn:Hlive; [intros []|].
  intros [<-|[]]. split; [exact Hne|]. exists s, r. repeat split; auto.
Qed.

Lemma passCases_length fuel root entries x :
  (length (passCases fuel root entries x) <= 1)%nat.
Proof.
  unfold passCases. destruct (String.eqb (name x) root); [simpl; lia|].
  destruct (pass fuel x (MkPassState (reset entries) [])) as [[u s]| |];
    try (simpl; lia).
  unfold failureCase. destruct (lookup root (analysisNodes s)) as [r|]; [|simpl; lia].
  destruct (live r); simpl; lia.
Qed.

Lemma flat_map_length_le {A B} (f : A -> list B) l :
  (forall x, (length (f x) <= 1)%nat) -> (length (flat_map f l) <= length l)%nat.
Proof.
  intros Hf. induction l as [|x l IH]; simpl; [lia|].
  rewrite length_app. specialize (Hf x). lia.
Qed.

Lemma flat_map_nil {A B} (f : A -> list B) l :
  (forall x, In x l -> f x = []) -> flat_map f l = [].
Proof.
  induction l as [|x l IH]; intros Hf; simpl; [reflexivity|].
  rewrite (Hf x (or_introl eq_refl)). apply IH. intros y Hy. apply Hf. right. exact Hy.
Qed.

(** The threshold of the root entry is the threshold of the home node. *)
Lemma graph_root_threshold nodes root entries home st r :
  createAnalysisStructure nodes = Ok (root, entries) ->
  find_node (fun n => NT.distance n =? 0) nodes = Some home ->
  shape st = shape entries -> lookup root st = Some r ->
  threshold (quorumSet r) = NT.t (NT.qset home).
Proof.
  intros H Hhome Hs Hr.
  destruct (createAnalysisStructure_graph _ _ _ H)
    as (home' & Hhome' & Hroot & _ & _ & Hcomplete & _ & (_ & Hwalk)).
  assert (home' = home) by congruence. subst home'.
  destruct (shape_lookup _ _ _ _ Hs Hr) as (r0 & Hr0 & Hq & _).
  rewrite <- Hq, (Hcomplete _ _ Hr0). cbn [threshold].
  pose proof (Hwalk _ _ Hr0) as Hw.
  rewrite (walkedNode_home nodes home Hhome), Hroot, String.eqb_refl in Hw.
  injection Hw as <-. reflexivity.
Qed.

(** ** The cascade leaves no work undone *)

(** A loop invariant for [forEach] that knows what is left of the
    array. *)
Lemma wp_forEach_rest {S A} E F (f : A -> M S unit) (I : list A -> S -> Prop) :
  (forall x rest s, I (x :: rest) s -> wp E F (f x) s (fun _ s' => I rest s')) ->
  forall l s, I l s -> wp E F (forEach f l) s (fun _ s' => I [] s').
Proof.
  intros Hf l. induction l as [|x l IH]; intros s Hs; simpl.
  - apply wp_ret. exact Hs.
  - apply wp_bind. eapply wp_mono; [apply Hf; exact Hs|].
    intros u s' Hs'. apply IH. exact Hs'.
Qed.

Lemma fades_lookup st st' k e' :
  fades st st' -> lookup k st' = Some e' ->
  exists e, lookup k st = Some e /\ quorumSet e = quorumSet e' /\
            dependentsNames e = dependentsNames e' /\
            (live e' = true -> live e = true).
Proof.
  induction 1 as [|b a l1 l2 (Hn & Hq & Hd & _ & Hl) _ IH]; simpl; [discriminate|].
  rewrite Hn. destruct (String.eqb (name b) k); [|exact IH].
  intros H. injection H as <-. exists b. auto.
Qed.

Lemma fades_lookup_rev st st' k e :
  fades st st' -> lookup k st = Some e ->
  exists e', lookup k st' = Some e' /\ quorumSet e' = quorumSet e /\
             (live e = false -> live e' = false).
Proof.
  induction 1 as [|b a l1 l2 (Hn & Hq & Hd & _ & Hl) _ IH]; simpl; [discriminate|].
  rewrite Hn. destruct (String.eqb (name b) k); [|exact IH].
  intros H. injection H as <-. exists a. split; [reflexivity|]. split; [exact Hq|].
  intros Hb. destruct (live a); [|reflexivity]. rewrite Hl in Hb; [discriminate|reflexivity].
Qed.

Lemma deadIn_fades st st' y : fades st st' -> deadIn st y -> deadIn st' y.
Proof.
  intros Hf (e & He & Hl). destruct (fades_lookup_rev _ _ _ _ Hf He) as (e' & He' & _ & Hd).
  exists e'. auto.
Qed.

Lemma dependsOn_fades st st' d y : fades st st' -> dependsOn st' d y -> dependsOn st d y.
Proof.
  intros Hf (e' & He' & Hin). destruct (fades_lookup _ _ _ _ Hf He') as (e & He & Hq & _).
  exists e. rewrite Hq. auto.
Qed.

Lemma deadIn_liveness st y : deadIn st y -> liveness st y = Some false.
Proof. intros (e & He & Hl). unfold liveness. rewrite He. simpl. rewrite Hl. reflexivity. Qed.

Lemma deadIn_markDead st nodeName y :
  deadIn (update nodeName (setLive false) st) y -> y <> nodeName -> deadIn st y.
Proof.
  intros (e & He & Hl) Hne. destruct (lookup_markDead _ _ _ _ He) as (e0 & He0 & [->|[-> _]]).
  - exists e0. auto.
  - contradiction.
Qed.

(** The verdict on a flat quorum set depends on the liveness of the nodes
    it names only. *)
Lemma satisfied_flat_local l l' t deps :
  flat deps -> (forall n, In (DepName n) deps -> l n = l' n) ->
  satisfied l (MkAnalysisQuorumSet t deps) = satisfied l' (MkAnalysisQuorumSet t deps).
Proof.
  intros Hflat Hl. cbn [satisfied]. f_equal. revert t.
  induction deps as [|d deps IH]; intros t; [reflexivity|].
  cbn [foldOption]. destruct (Hflat d (or_introl eq_refl)) as [n ->].
  cbn [countSatisfied]. rewrite (Hl n (or_introl eq_refl)).
  destruct (l' n); [|reflexivity].
  apply IH.
  - intros d Hd. apply Hflat. right. exact Hd.
  - intros m Hm. apply Hl. right. exact Hm.
Qed.

Lemma option_bool_dec (x y : option bool) : {x = y} + {x <> y}.
Proof. decide equality. apply Bool.bool_dec. Qed.

Lemma liveness_differs (l l' : string -> option bool) deps :
  (forall n, In (DepName n) deps -> l n = l' n) \/
  (exists z, In (DepName z) deps /\ l z <> l' z).
Proof.
  induction deps as [|d deps IH]; [left; intros n []|].
  destruct IH as [IH|(z & Hz & Hne)]; [|right; exists z; simpl; auto].
  destruct d as [n|q].
  - destruct (option_bool_dec (l n) (l' n)) as [Heq|Hne].
    + left. intros m [Hm|Hm]; [injection Hm as <-; exact Heq | apply IH; exact Hm].
    + right. exists n. simpl. auto.
  - left. intros m [Hm|Hm]; [discriminate | apply IH; exact Hm].
Qed.

(** A node that fails its threshold after some nodes have died failed it
    before, or one of the nodes it names has died in between. *)
Lemma unmet_fades st st' d :
  fades st st' ->
  (forall k e, lookup k st = Some e -> flat (dependencies (quorumSet e))) ->
  unmet st' d ->
  unmet st d \/
  exists z, dependsOn st' d z /\ liveness st z = Some true /\ deadIn st' z.
Proof.
  intros Hf Hflat (e' & He' & Hlive' & Hsat').
  destruct (fades_lookup _ _ _ _ Hf He') as (e & He & Hq & _ & Hlive).
  rewrite <- Hq in Hsat'. rewrite (quorumSet_eta (quorumSet e)) in Hsat'.
  destruct (liveness_differs (liveness st) (liveness st') (dependencies (quorumSet e)))
    as [Hsame|(z & Hz & Hne)].
  - left. exists e. split; [exact He|]. split; [auto|].
    rewrite (quorumSet_eta (quorumSet e)).
    rewrite (satisfied_flat_local _ _ _ _ (Hflat _ _ He) Hsame). exact Hsat'.
  - right. exists z. split; [exists e'; rewrite <- Hq; auto|].
    pose proof (fades_liveness _ _ Hf z) as Hz'.
    unfold fewerLive, implb_le, liveness in *.
    destruct (lookup z st) as [ez|] eqn:Hez, (lookup z st') as [ez'|] eqn:Hez';
      simpl in *; try tauto.
    destruct (live ez) eqn:H1, (live ez') eqn:H2; try congruence.
    + split; [reflexivity|]. exists ez'. auto.
    + specialize (Hz' eq_refl). discriminate.
Qed.

Lemma edges_ok_flat st k e :
  edges_ok st -> lookup k st = Some e -> flat (dependencies (quorumSet e)).
Proof.
  intros (Hdeps & _) He d Hd. destruct (Hdeps _ _ _ He Hd) as (n & -> & _). eauto.
Qed.

Lemma edges_ok_dependent st d y ey :
  edges_ok st -> dependsOn st d y -> lookup y st = Some ey ->
  In d (dependentsNames ey).
Proof.
  intros (_ & _ & Hcount) (e & He & Hin) Hy.
  apply (count_occ_In string_dec). rewrite <- (Hcount d y e ey He Hy).
  apply (count_occ_In string_dec). apply In_directNames. exact Hin.
Qed.

Lemma checkDependents_leaves_nothing E :
  E TypeError ->
  forall fuel deadNode s,
    edges_ok (analysisNodes s) -> isDead s deadNode ->
    wp E True (checkDependents fuel deadNode) s
      (fun _ s' => forall y d, pending (analysisNodes s') y d ->
                     deadIn (analysisNodes s) y /\ y <> name deadNode).
Proof.
  intros HE fuel.
  induction fuel as [|fuel' IH]; intros deadNode s Hedges Hdead; [exact I|].
  simpl.
  set (Inv := fun (rest : list string) (s' : PassState) =>
    fades (analysisNodes s) (analysisNodes s') /\
    forall y d, pending (analysisNodes s') y d ->
      (deadIn (analysisNodes s) y /\ y <> name deadNode) \/
      (y = name deadNode /\ In d rest)).
  eapply wp_mono.
  - apply (wp_forEach_rest E True _ Inv).
    2:{ split; [apply fades_refl|]. intros y d (Hy & Hd & Hdep).
        destruct (string_dec y (name deadNode)) as [->|Hne]; [right | left; auto].
        split; [reflexivity|].
        destruct Hdead as (ey & Hey & _ & <-).
        eapply edges_ok_dependent; eassumption. }
    intros nodeName rest sA [HfA HpA]. apply wp_bind.
    unfold getNode at 1, wp at 1.
    destruct (lookup nodeName (analysisNodes sA)) as [e|] eqn:Hl; [|exact HE].
    assert (HedgesA : edges_ok (analysisNodes sA))
      by (apply (edges_ok_shape _ _ (fades_shape _ _ HfA) Hedges)).
    assert (Hrest : forall y d, pending (analysisNodes sA) y d ->
              ~ unmet (analysisNodes sA) nodeName ->
              (deadIn (analysisNodes s) y /\ y <> name deadNode) \/
              (y = name deadNode /\ In d rest)).
    { intros y d Hp Hnot. destruct (HpA y d Hp) as [?|[Hy [<-|Hin]]]; auto.
      exfalso. apply Hnot. apply Hp. }
    destruct (live e) eqn:Hlive.
    2:{ apply wp_ret. split; [exact HfA|]. intros y d Hp. apply (Hrest y d Hp).
        intros (e1 & He1 & Hl1 & _). congruence. }
    apply wp_bind. unfold wp at 1.
    pose proof (quorumSetMeetsThreshold_spec (quorumSet e) sA) as Hspec.
    unfold evaluation_spec in Hspec.
    destruct (quorumSetMeetsThreshold (quorumSet e) sA) as [[ok sB]| |] eqn:Hq;
      [|destruct Hspec as [-> _]; exact HE|destruct Hspec].
    destruct Hspec as (Hnodes & _ & Hsat).
    destruct ok.
    { apply wp_ret. unfold Inv. rewrite Hnodes. split; [exact HfA|].
      intros y d Hp. apply (Hrest y d Hp).
      intros (e1 & He1 & _ & Hs1). congruence. }
    apply wp_bind. apply wp_modify. apply wp_bind. apply wp_modify.
    cbn [analysisNodes deadNodes]. rewrite Hnodes.
    set (sC := MkPassState (update nodeName (setLive false) (analysisNodes sA))
                 (deadNodes sB ++ [networkObject e])).
    pose proof (fades_markDead nodeName (analysisNodes sA)) as Hmark.
    destruct (lookup_Some _ _ _ Hl) as [Hname _].
    assert (HdeadC : isDead sC e).
    { exists (setLive false e). unfold sC. cbn [analysisNodes]. rewrite Hname.
      rewrite lookup_update_same by reflexivity. rewrite Hl. auto. }
    assert (HedgesC : edges_ok (analysisNodes sC))
      by (apply (edges_ok_shape _ _ (fades_shape _ _ Hmark) HedgesA)).
    eapply wp_mono.
    + apply wp_and; [apply (IH e sC HedgesC HdeadC)|].
      apply (checkDependents_fades_partial anyError fuel' I e sC).
    + intros u s' [Hpost HfC]. cbn [analysisNodes] in HfC, Hpost.
      assert (HfA' : fades (analysisNodes sA) (analysisNodes s'))
        by (eapply fades_trans; eassumption).
      split; [eapply fades_trans; eassumption|].
      intros y d Hp. pose proof Hp as (Hy & Hd & Hdep).
      destruct (Hpost y d Hp) as [HyC Hne]. rewrite Hname in Hne.
      assert (HyA : deadIn (analysisNodes sA) y)
        by (apply (deadIn_markDead _ _ _ HyC Hne)).
      assert (HdA : unmet (analysisNodes sA) d).
      { destruct (unmet_fades _ _ d HfA' (fun k e0 => edges_ok_flat _ k e0 HedgesA) Hd)
          as [?|(z & Hz & Hlz & Hdz)]; [assumption|exfalso].
        destruct (Hpost z d (conj Hdz (conj Hd Hz))) as [HzC Hzne].
        rewrite Hname in Hzne.
        pose proof (deadIn_liveness _ _ (deadIn_markDead _ _ _ HzC Hzne)) as Hfalse.
        congruence. }
      assert (HpA' : pending (analysisNodes sA) y d).
      { split; [exact HyA|]. split; [exact HdA|].
        eapply dependsOn_fades; eassumption. }
      destruct (HpA y d HpA') as [?|[Hy' [<-|Hin]]]; auto.
      exfalso.
      assert (Hdn : deadIn (analysisNodes s') nodeName).
      { apply (deadIn_fades _ _ _ HfC). exists (setLive false e).
        unfold sC. cbn [analysisNodes].
        rewrite lookup_update_same by reflexivity. rewrite Hl. auto. }
      destruct Hdn as (e1 & He1 & Hl1). destruct Hd as (e2 & He2 & Hl2 & _). congruence.
  - intros u s' [_ Hp] y d Hyd. destruct (Hp y d Hyd) as [?|[_ []]]. assumption.
Qed.

(** ** The cascade computes the least stable assignment *)

Lemma fades_markDead_in st st' nodeName :
  fades st st' -> deadIn st' nodeName ->
  fades (update nodeName (setLive false) st) st'.
Proof.
  intros Hf (e' & He' & Hl'). revert He'.
  induction Hf as [|b a l1 l2 (Hn & Hq & Hd & Ho & Hl) Hf IH]; simpl; [constructor|].
  rewrite Hn. destruct (String.eqb (name b) nodeName).
  - intros H. injection H as ->. constructor; [|exact Hf].
    simpl. repeat split; auto. intros Hlive. congruence.
  - intros H. constructor; [|apply IH; exact H]. repeat split; auto.
Qed.

Lemma shape_fades st st' :
  NoDup (names st) -> shape st' = shape st ->
  (forall k e, lookup k st = Some e -> live e = false -> deadIn st' k) ->
  fades st st'.
Proof.
  revert st'. induction st as [|b st IH]; intros [|a st'] Hnd Hs Hdead;
    simpl in Hs; try discriminate; [constructor|].
  injection Hs as Hn Hq Hd Ho Hs. inversion Hnd as [|? ? Hnotin Hnd']; subst.
  constructor.
  - repeat split; auto. intros Hlive.
    destruct (live b) eqn:Hb; [reflexivity|].
    destruct (Hdead (name b) b) as (e' & He' & Hl'); [simpl; rewrite String.eqb_refl; reflexivity|exact Hb|].
    simpl in He'. rewrite Hn, String.eqb_refl in He'. congruence.
  - apply IH; [exact Hnd' | exact Hs|].
    intros k e Hk Hl. destruct (lookup_Some _ _ _ Hk) as [Hname Hin].
    assert (Hne : name b <> k).
    { intros Heq. apply Hnotin. rewrite Heq, <- Hname. apply in_map. exact Hin. }
    destruct (Hdead k e) as (e' & He' & Hl'); [|exact Hl|].
    + simpl. destruct (String.eqb_spec (name b) k); [contradiction | exact Hk].
    + simpl in He'. rewrite Hn in He'.
      destruct (String.eqb_spec (name b) k); [contradiction|]. exists e'. auto.
Qed.

Lemma checkDependents_below_stable E stable_nodes fuel deadNode s :
  E TypeError ->
  edges_ok stable_nodes -> stable stable_nodes -> NoDup (names stable_nodes) ->
  fades (analysisNodes s) stable_nodes -> isDead s deadNode ->
  wp E True (checkDependents fuel deadNode) s
    (fun _ s' => fades (analysisNodes s') stable_nodes).
Proof.
  intros HE Hedges Hstable Hnd.
  apply (checkDependents_invariant (fun s' => fades (analysisNodes s') stable_nodes) E HE).
  clear deadNode s fuel. intros deadNode s nodeName e ok s1 HJ Hdead Hin Hl Hlive Hq.
  pose proof (quorumSetMeetsThreshold_spec (quorumSet e) s) as Hspec.
  unfold evaluation_spec in Hspec. rewrite Hq in Hspec.
  destruct Hspec as (Hnodes & _ & Hsat).
  split; [rewrite Hnodes; exact HJ|]. intros ->. unfold marked. cbn [analysisNodes].
  rewrite Hnodes. apply fades_markDead_in; [exact HJ|].
  destruct (fades_lookup_rev _ _ _ _ HJ Hl) as (e' & He' & Hq' & _).
  exists e'. split; [exact He'|].
  destruct (live e') eqn:Hlive'; [exfalso | reflexivity].
  destruct Hdead as (ed & Hed & Hld & Hdd).
  assert (HdeadS : deadIn stable_nodes (name deadNode)).
  { apply (deadIn_fades _ _ _ HJ). exists ed. auto. }
  assert (Hdep : In (DepName (name deadNode)) (dependencies (quorumSet e'))).
  { destruct HdeadS as (es & Hes & _).
    destruct (fades_lookup _ _ _ _ HJ Hes) as (ed' & Hed' & _ & Hdd' & _).
    assert (ed' = ed) by congruence. subst ed'.
    destruct Hedges as (_ & _ & Hcount).
    apply In_directNames. apply (count_occ_In string_dec).
    rewrite (Hcount nodeName (name deadNode) e' es He' Hes).
    apply (count_occ_In string_dec). rewrite <- Hdd', Hdd. exact Hin. }
  pose proof (Hstable e' (name deadNode) (proj2 (lookup_Some _ _ _ He')) Hlive' Hdep HdeadS)
    as Hv.
  rewrite quorumSetMeetsThreshold_verdict in Hv. cbn [analysisNodes] in Hv.
  pose proof (satisfied_mono _ _ (fades_liveness _ _ HJ) (quorumSet e)) as Hmono.
  rewrite Hsat, <- Hq' in Hmono. unfold fewerLive, implb_le in Hmono.
  destruct (satisfied (liveness stable_nodes) (quorumSet e')) as [[|]|];
    try discriminate; try tauto.
  specialize (Hmono eq_refl). discriminate.
Qed.

(** ** The errors of the evaluation *)

Lemma satisfied_None liveOf quorum :
  satisfied liveOf quorum = None <->
  exists n, In n (directReferences quorum) /\ liveOf n = None.
Proof.
  induction quorum as [t deps IH] using AnalysisQuorumSet_nested_ind.
  cbn [satisfied directReferences].
  assert (Hfold : forall t0,
            foldOption (countSatisfied liveOf (satisfied liveOf)) deps t0 = None <->
            exists n, In n (flat_map (fun d => match d with
                                               | DepName n => [n]
                                               | DepSet q => directReferences q
                                               end) deps) /\ liveOf n = None).
  { induction deps as [|d deps IHdeps]; intros t0; cbn [foldOption flat_map].
    - split; [discriminate | intros (n & [] & _)].
    - assert (IHtail : forall t1,
                foldOption (countSatisfied liveOf (satisfied liveOf)) deps t1 = None <->
                exists n, In n (flat_map (fun d => match d with
                                                   | DepName n => [n]
                                                   | DepSet q => directReferences q
                                                   end) deps) /\ liveOf n = None)
        by (apply IHdeps; intros q Hq; apply IH; right; exact Hq).
      assert (Hhead : countSatisfied liveOf (satisfied liveOf) t0 d = None <->
                exists n, In n (match d with
                                | DepName n => [n]
                                | DepSet q => directReferences q
                                end) /\ liveOf n = None).
      { destruct d as [n|q]; cbn [countSatisfied].
        - destruct (liveOf n) eqn:Hn.
          + split; [discriminate|]. intros (m & [<-|[]] & Hm). congruence.
          + split; [|reflexivity]. intros _. exists n. simpl. auto.
        - rewrite <- (IH q (or_introl eq_refl)).
          destruct (satisfied liveOf q); split; congruence. }
      destruct (countSatisfied liveOf (satisfied liveOf) t0 d) as [t1|].
      + rewrite IHtail. split.
        * intros (n & Hn & Hl). exists n. split; [apply in_or_app; auto | exact Hl].
        * intros (n & Hn & Hl). apply in_app_or in Hn. destruct Hn as [Hn|Hn].
          -- assert (Hex : exists n, In n (match d with
                                           | DepName n => [n]
                                           | DepSet q => directReferences q
                                           end) /\ liveOf n = None) by eauto.
             apply Hhead in Hex. discriminate.
          -- eauto.
      + split; [|reflexivity]. intros _.
        destruct (proj1 Hhead eq_refl) as (n & Hn & Hl).
        exists n. split; [apply in_or_app; auto | exact Hl]. }
  rewrite <- (Hfold t).
  destruct (foldOption _ deps t); simpl; split; congruence.
Qed.

(** ** The claims of the specification *)

(** *** Construction of the analysis graph *)

(** C4, as the specification states it, fails: with two nodes at distance
    0 the construction and the analysis return. *)
Lemma two_homes_construction_succeeds :
  length (filter (fun n => NT.distance n =? 0) twoHomes) = 2%nat /\
  (exists entries, createAnalysisStructure twoHomes = Ok ("H1", entries)) /\
  haltingAnalysis twoHomes 1 = Ok [].
Proof.
  split; [|split; [eexists|]]; vm_compute; reflexivity.
Qed.

(** C4, amended. The construction, and with it the analysis of order 1,
    throws the no-home-node error exactly when no input node has distance
    0.  With one such node or more, the first one in the input is the home
    node and the root of the graph. *)
Theorem home_node_is_first_at_distance_0 :
  forall (nodes : list NetworkGraphNode) (fuel : nat),
    (createAnalysisStructureF nodes fuel = Throw NoHomeNode <->
     forall n, In n nodes -> NT.distance n <> 0) /\
    (haltingAnalysisF fuel nodes 1 = Throw NoHomeNode <->
     forall n, In n nodes -> NT.distance n <> 0) /\
    (forall root entries,
       createAnalysisStructureF nodes fuel = Ok (root, entries) ->
       exists home,
         find_node (fun n => NT.distance n =? 0) nodes = Some home /\
         root = NT.node home).
Proof.
  intros nodes fuel.
  assert (Hnone : find_node (fun n => NT.distance n =? 0) nodes = None <->
                  forall n, In n nodes -> NT.distance n <> 0).
  { rewrite find_node_None. split; intros H n Hn; specialize (H n Hn).
    - apply Z.eqb_neq. exact H.
    - apply Z.eqb_neq. exact H. }
  assert (Hconstr : createAnalysisStructureF nodes fuel = Throw NoHomeNode <->
                    find_node (fun n => NT.distance n =? 0) nodes = None).
  { unfold createAnalysisStructureF.
    destruct (find_node _ nodes) as [home|] eqn:Hhome; [|tauto].
    split; [|discriminate]. intros H. exfalso.
    pose proof (find_node_Some _ _ _ Hhome) as [Hin _].
    pose proof (generateNode_errors nodes (fun e => e <> NoHomeNode)
                  (fun n d _ _ _ => ltac:(discriminate)) (fun _ => ltac:(discriminate))
                  fuel home [] Hin) as Hw.
    unfold wp in Hw. rewrite H in Hw. apply Hw. reflexivity. }
  split; [rewrite Hconstr; exact Hnone|]. split.
  - rewrite <- Hnone, <- Hconstr. unfold haltingAnalysisF. simpl.
    destruct (createAnalysisStructureF nodes fuel) as [[root entries]|e|];
      [|split; intros H; injection H as ->; reflexivity|split; discriminate].
    split; [|discriminate]. intros H. exfalso.
    pose proof (wp_forEach (fun e => e = TypeError) True (simulate fuel root)
                  (fun _ => True) entries
                  (fun x s _ _ => simulate_errors fuel root x s) (entries, []) I) as Hw.
    unfold wp in Hw.
    destruct (forEach (simulate fuel root) entries (entries, []))
      as [[u [c cases]]|e|]; try discriminate.
    injection H as ->. discriminate.
  - intros root entries H. unfold createAnalysisStructureF in H.
    destruct (find_node _ nodes) as [home|]; [|discriminate].
    exists home. split; [reflexivity|].
    apply (generateNode_run nodes _ _ _ _ _ H).
Qed.

Lemma home_node_is_first_at_distance_0_witness :
  createAnalysisStructureF [leaf "A" 1] 2 = Throw NoHomeNode /\
  haltingAnalysisF 2 [leaf "A" 1] 1 = Throw NoHomeNode /\
  exists home,
    find_node (fun n => NT.distance n =? 0) twoHomes = Some home /\
    "H1" = NT.node home.
Proof.
  assert (Hfar : forall n, In n [leaf "A" 1] -> NT.distance n <> 0)
    by (intros n [<-|[]]; discriminate).
  pose proof (home_node_is_first_at_distance_0 [leaf "A" 1] 2) as (H1 & H2 & _).
  pose proof (home_node_is_first_at_distance_0 twoHomes 3) as (_ & _ & H3).
  split; [apply H1; exact Hfar|]. split; [apply H2; exact Hfar|].
  apply (H3 "H1" [newEntry (leaf "H1" 0)]). vm_compute. reflexivity.
Defined.

(** C8. The construction terminates on every input, cyclic or not: no
    chain of nested [generateNode] calls is longer than the number of
    input nodes plus one, so with any budget above the number of input
    nodes it does not run out, and the result is the same for all such
    budgets. *)
Theorem createAnalysisStructure_terminates :
  forall (nodes : list NetworkGraphNode) (fuel : nat),
    (length nodes < fuel)%nat ->
    createAnalysisStructureF nodes fuel <> OutOfFuel /\
    createAnalysisStructureF nodes fuel = createAnalysisStructure nodes.
Proof.
  intros nodes fuel Hfuel. split.
  - apply createAnalysisStructureF_total. exact Hfuel.
  - apply createAnalysisStructureF_stable. exact Hfuel.
Qed.

Lemma createAnalysisStructure_terminates_witness :
  (length cyclic < 3)%nat /\
  createAnalysisStructureF cyclic 3 <> OutOfFuel /\
  createAnalysisStructureF cyclic 3 = createAnalysisStructure cyclic.
Proof.
  split; [simpl; lia | apply (createAnalysisStructure_terminates cyclic 3); simpl; lia].
Defined.



(** The two conditions of a valid input do not make the construction
    return: an entry list that mixes the two variants meets both and
    stops the construction with a [TypeError]. *)
Lemma mixedNestedFirst_valid_throws :
  validInput mixedNestedFirst /\ ~ typedInput mixedNestedFirst /\
  createAnalysisStructure mixedNestedFirst = Throw TypeError.
Proof.
  split; [|split].
  - split; [reflexivity|].
    intros n d Hn. simpl in Hn.
    repeat (destruct Hn as [<-|Hn]; [simpl; tauto|]). destruct Hn.
  - intros H. specialize (H _ (or_introl eq_refl)). discriminate.
  - vm_compute. reflexivity.
Qed.




(** C5, as the specification states it, fails: a list with a nested set
    first and an identifier after it stops the construction with a
    [TypeError], and in a list with an identifier first a nested set is
    looked up as the identifier ["[object Object]"]. *)
Lemma mixed_entries_misclassified :
  createAnalysisStructure mixedNestedFirst = Throw TypeError /\
  createAnalysisStructure mixedNameFirst = Throw (BadNetworkGraph "[object Object]").
Proof. split; vm_compute; reflexivity. Qed.

(** C5, amended. On an input of the declared type, where every entry
    list is a list of identifiers or a list of nested sets, the test of
    the first entry classifies every entry as its own variant: the
    construction throws no [TypeError], every nested set is walked, and
    every identifier in the quorum set of an entry's network object gives
    a forward edge in the entry's (flat) dependency list, in order, and as
    many backward edges in the dependents of the node it names. *)
Theorem construction_of_typed_input :
  forall nodes : list NetworkGraphNode,
    (forall n, In n nodes -> wellTyped (NT.qset n) = true) ->
    (forall fuel, createAnalysisStructureF nodes fuel <> Throw TypeError) /\
    (forall fuel root entries,
       createAnalysisStructureF nodes fuel = Ok (root, entries) ->
       forall e, In e entries ->
         quorumSet e =
           MkAnalysisQuorumSet (NT.t (NT.qset (networkObject e)))
             (map DepName (leaves (NT.qset (networkObject e)))) /\
         forall d, In d (leaves (NT.qset (networkObject e))) ->
           exists ed, lookup d entries = Some ed /\
             count_occ string_dec (dependentsNames ed) (name e) =
             count_occ string_dec (leaves (NT.qset (networkObject e))) d).
Proof.
  intros nodes Htyped. split.
  - intros fuel H. unfold createAnalysisStructureF in H.
    destruct (find_node _ nodes) as [home|] eqn:Hhome; [|discriminate].
    pose proof (find_node_Some _ _ _ Hhome) as [Hin _].
    assert (Huntyped : (exists n, In n nodes /\ wellTyped (NT.qset n) = false) ->
                       TypeError <> TypeError).
    { intros (n & Hn & Hw). rewrite (Htyped n Hn) in Hw. discriminate. }
    pose proof (generateNode_errors nodes (fun e => e <> TypeError)
                  (fun n d _ _ _ => ltac:(discriminate)) Huntyped fuel home [] Hin) as Hw.
    unfold wp in Hw. rewrite H in Hw. apply Hw. reflexivity.
  - intros fuel root entries H e He. apply createAnalysisStructureF_Ok in H.
    destruct (createAnalysisStructure_graph _ _ _ H)
      as (home & _ & _ & _ & [Hnd _] & Hcomplete & (Hdeps & _ & Hcount) & (_ & Hwalk)).
    pose proof (NoDup_lookup entries e Hnd He) as Hl.
    pose proof (walkedNode_In _ _ _ (Hwalk _ _ Hl)) as [Hin _].
    pose proof (Hcomplete _ _ Hl) as Hc. unfold complete in Hc.
    rewrite (references_leaves _ (Htyped _ Hin)) in Hc.
    split; [exact Hc|]. intros d Hd.
    destruct (Hdeps _ e (DepName d) Hl) as (d' & Heq & Hd').
    { rewrite Hc. simpl. apply in_map. exact Hd. }
    injection Heq as <-. destruct (lookup_In _ _ Hd') as [ed Hed].
    exists ed. split; [exact Hed|].
    rewrite <- (Hcount _ _ _ _ Hl Hed), Hc. simpl.
    rewrite directNames_DepName. reflexivity.
Qed.

Lemma construction_of_typed_input_witness :
  (forall fuel, createAnalysisStructureF nestedQuorum fuel <> Throw TypeError) /\
  (forall fuel root entries,
     createAnalysisStructureF nestedQuorum fuel = Ok (root, entries) ->
     forall e, In e entries ->
       quorumSet e =
         MkAnalysisQuorumSet (NT.t (NT.qset (networkObject e)))
           (map DepName (leaves (NT.qset (networkObject e)))) /\
       forall d, In d (leaves (NT.qset (networkObject e))) ->
         exists ed, lookup d entries = Some ed /\
           count_occ string_dec (dependentsNames ed) (name e) =
           count_occ string_dec (leaves (NT.qset (networkObject e))) d).
Proof.
  apply (construction_of_typed_input nestedQuorum).
  intros n Hn. simpl in Hn.
  repeat (destruct Hn as [<-|Hn]; [reflexivity|]). destruct Hn.
Defined.

(** *** Threshold evaluation *)

(** C10. An evaluation of [quorumSetMeetsThreshold] leaves the analysis
    nodes, and so every [live] flag, as they are; it appends to
    [deadNodes] the network objects of the dead direct references of the
    quorum set, in order, and nothing else; and its result is determined
    by the threshold, the entries and the liveness assignment: it is the
    same from any other state with the same assignment.  The only error
    is the [TypeError] for an entry that names no analysis node. *)
Theorem quorumSetMeetsThreshold_frame_effect :
  forall (quorum : AnalysisQuorumSet) (s : PassState),
    match quorumSetMeetsThreshold quorum s with
    | Ok (b, s') =>
      analysisNodes s' = analysisNodes s /\
      deadNodes s' = deadNodes s ++ deadReferences (analysisNodes s) quorum /\
      satisfied (liveness (analysisNodes s)) quorum = Some b
    | Throw e => e = TypeError /\ satisfied (liveness (analysisNodes s)) quorum = None
    | OutOfFuel => False
    end /\
    (forall s2 : PassState,
       (forall d, liveness (analysisNodes s) d = liveness (analysisNodes s2) d) ->
       verdict (quorumSetMeetsThreshold quorum s) =
       verdict (quorumSetMeetsThreshold quorum s2)).
Proof.
  intros quorum s. split.
  - exact (quorumSetMeetsThreshold_spec quorum s).
  - intros s2 Hl. rewrite !quorumSetMeetsThreshold_verdict.
    rewrite (satisfied_ext _ _ Hl). reflexivity.
Qed.

Lemma quorumSetMeetsThreshold_frame_effect_witness :
  verdict (quorumSetMeetsThreshold (MkAnalysisQuorumSet 1 [DepName "A"])
             (MkPassState [setLive false (newEntry (leaf "A" 1))] [])) =
  verdict (quorumSetMeetsThreshold (MkAnalysisQuorumSet 1 [DepName "A"])
             (MkPassState [setLive false (newEntry (leaf "A" 1))] [leaf "B" 1])).
Proof.
  apply (proj2 (quorumSetMeetsThreshold_frame_effect
                  (MkAnalysisQuorumSet 1 [DepName "A"])
                  (MkPassState [setLive false (newEntry (leaf "A" 1))] []))
           (MkPassState [setLive false (newEntry (leaf "A" 1))] [leaf "B" 1])).
  intros d. reflexivity.
Defined.

(** C1 does not hold of the code.  For the input [nestedQuorum] the home
    node needs both nested requirements, so with [D] dead its requirement
    is not satisfied as the specification defines satisfaction.  The
    construction gives the home node the threshold 2 over the flat list
    [A], [B], [C], [D]; the evaluation then counts the three live leaves
    of the first nested requirement as three units, finds the threshold
    met, and the analysis reports no failure case. *)
Theorem nested_requirement_counted_by_leaves :
  spec_satisfied (fun id => negb (String.eqb id "D")) nestedHome = false /\
  (exists entries home,
     createAnalysisStructure nestedQuorum = Ok ("H", entries) /\
     lookup "H" entries = Some home /\
     quorumSet home =
       MkAnalysisQuorumSet 2 [DepName "A"; DepName "B"; DepName "C"; DepName "D"] /\
     verdict (quorumSetMeetsThreshold (quorumSet home)
                (MkPassState (update "D" (setLive false) entries) []))
     = Ok true) /\
  haltingAnalysis nestedQuorum 1 = Ok [].
Proof.
  split; [reflexivity|]. split; [|vm_compute; reflexivity].
  eexists. eexists. split; [vm_compute; reflexivity|].
  split; [vm_compute; reflexivity|]. split; vm_compute; reflexivity.
Qed.

(** *** The simulation passes *)

(** C9. Every step of a pass only lowers [live] flags and changes nothing
    else in the analysis nodes: marking the candidate dead, the cascade
    (with any budget, whenever it returns) and the threshold evaluation
    (which leaves the nodes as they are).  So the nodes at the end of the
    pass for a candidate are the freshly reset ones with some flags
    lowered. *)
Theorem liveness_non_increasing_within_pass :
  (forall nm s,
     wp anyError True (markDead nm) s
       (fun _ s' => fades (analysisNodes s) (analysisNodes s'))) /\
  (forall fuel deadNode s,
     wp anyError True (checkDependents fuel deadNode) s
       (fun _ s' => fades (analysisNodes s) (analysisNodes s'))) /\
  (forall quorum s,
     wp anyError True (quorumSetMeetsThreshold quorum) s
       (fun _ s' => analysisNodes s' = analysisNodes s)) /\
  (forall fuel root nodeToHalt nodes cases nodes' cases',
     name nodeToHalt <> root ->
     simulate fuel root nodeToHalt (nodes, cases) = Ok (tt, (nodes', cases')) ->
     fades (reset nodes) nodes').
Proof.
  split; [|split; [|split]].
  - intros nm s. apply wp_modify. apply fades_markDead.
  - intros fuel deadNode s. apply checkDependents_fades_partial. exact I.
  - intros quorum s.
    pose proof (quorumSetMeetsThreshold_frame anyError quorum s I) as H.
    unfold wp in *. destruct (quorumSetMeetsThreshold quorum s) as [[b s']| |]; auto.
  - intros fuel root nodeToHalt nodes cases nodes' cases' Hne. unfold simulate.
    destruct (String.eqb_spec (name nodeToHalt) root) as [Heq|_]; [contradiction|].
    unfold bind at 1, markDead at 1, modify at 1. cbn [analysisNodes deadNodes].
    unfold bind at 1.
    pose proof (checkDependents_fades_partial anyError fuel I nodeToHalt
                  (MkPassState (update (name nodeToHalt) (setLive false) (reset nodes)) []))
      as Hc.
    unfold wp in Hc. cbn [analysisNodes] in Hc.
    destruct (checkDependents fuel nodeToHalt _) as [[u s1]| |]; try discriminate.
    unfold getNode.
    destruct (lookup root (analysisNodes s1)) as [rootNode|]; try discriminate.
    assert (Hf : fades (reset nodes) (analysisNodes s1))
      by (eapply fades_trans; [apply fades_markDead | exact Hc]).
    destruct (live rootNode); intros H; injection H as <- _; exact Hf.
Qed.

Lemma liveness_non_increasing_within_pass_witness :
  fades (reset [MkAnalysisNode "H" true (MkAnalysisQuorumSet 1 [DepName "A"]) []
                  (NT.MkNode "H" (NT.MkQuorumSet 1 [NT.Peer "A"]) 0);
                MkAnalysisNode "A" false (MkAnalysisQuorumSet 0 []) ["H"] (leaf "A" 1)])
        [MkAnalysisNode "H" false (MkAnalysisQuorumSet 1 [DepName "A"]) []
           (NT.MkNode "H" (NT.MkQuorumSet 1 [NT.Peer "A"]) 0);
         MkAnalysisNode "A" false (MkAnalysisQuorumSet 0 []) ["H"] (leaf "A" 1)].
Proof.
  refine (proj2 (proj2 (proj2 liveness_non_increasing_within_pass))
            3%nat "H"
            (MkAnalysisNode "A" false (MkAnalysisQuorumSet 0 []) ["H"] (leaf "A" 1))
            _ [] _ _ _ _).
  - discriminate.
  - vm_compute. reflexivity.
Defined.

(** *** The analysis *)

(** C7. With a number of nodes to test other than 1 the analysis throws
    the unsupported-order error, whatever the input and the budget: the
    graph is not built and no failure case is returned. *)
Theorem haltingAnalysis_unsupported_order :
  forall (fuel : nat) (nodes : list NetworkGraphNode) (numberOfNodesToTest : Z),
    numberOfNodesToTest <> 1 ->
    haltingAnalysisF fuel nodes numberOfNodesToTest = Throw UnsupportedOrder /\
    haltingAnalysis nodes numberOfNodesToTest = Throw UnsupportedOrder.
Proof.
  intros fuel nodes n Hn. unfold haltingAnalysis, haltingAnalysisF.
  destruct (Z.eqb_spec n 1) as [Heq|_]; [contradiction|]. simpl. auto.
Qed.

Lemma haltingAnalysis_unsupported_order_witness :
  2 <> 1 /\
  haltingAnalysisF 0 scenarioA 2 = Throw UnsupportedOrder /\
  haltingAnalysis scenarioA 2 = Throw UnsupportedOrder.
Proof.
  split; [lia | apply (haltingAnalysis_unsupported_order 0 scenarioA 2); lia].
Defined.

(** C6. Scenario A: the home node [H] needs two of [A], [B], [C], which
    need nothing.  All four nodes are in the analysis graph, so each of
    [A], [B], [C] is failed in turn, and the analysis returns no failure
    case, with any budget above the number of nodes. *)
Theorem scenarioA_no_failure_case :
  (exists entries, createAnalysisStructure scenarioA = Ok ("H", entries) /\
                   names entries = ["H"; "A"; "B"; "C"]) /\
  haltingAnalysis scenarioA 1 = Ok [] /\
  (forall fuel, (length scenarioA < fuel)%nat ->
     haltingAnalysisF fuel scenarioA 1 = Ok []).
Proof.
  split; [eexists; split; vm_compute; reflexivity|].
  split; [vm_compute; reflexivity|].
  intros fuel Hfuel.
  rewrite (proj1 (haltingAnalysisF_stable scenarioA fuel 1 Hfuel)).
  vm_compute. reflexivity.
Qed.

Lemma scenarioA_no_failure_case_witness :
  haltingAnalysisF 7 scenarioA 1 = Ok [].
Proof.
  apply (proj2 (proj2 scenarioA_no_failure_case) 7%nat). simpl. lia.
Defined.

(** C2, as the specification states it, fails: the failure case the
    analysis returns for Scenario B does not have [H] alone as its
    affected nodes. *)
Lemma scenarioB_affected_not_only_home :
  ~ (haltingAnalysis scenarioB 1 =
     Ok [MkHaltingFailure [leaf "A" 1]
           [NT.MkNode "H" (NT.MkQuorumSet 1 [NT.Peer "A"]) 0]]).
Proof. vm_compute. discriminate. Qed.

(** C2, amended. Scenario B: the home node [H] needs [A]; [B] is not
    connected.  The analysis returns exactly one failure case, with any
    budget above the number of nodes; its vulnerable nodes are [A], and
    its affected nodes are [A], which the evaluation of [H]'s quorum set
    records as a dead reference, and then [H].  [B] is not in the
    analysis graph, so it is never failed and gives no failure case. *)
Theorem scenarioB_one_failure_case :
  haltingAnalysis scenarioB 1 =
    Ok [MkHaltingFailure [leaf "A" 1]
          [leaf "A" 1; NT.MkNode "H" (NT.MkQuorumSet 1 [NT.Peer "A"]) 0]] /\
  (forall fuel, (length scenarioB < fuel)%nat ->
     haltingAnalysisF fuel scenarioB 1 = haltingAnalysis scenarioB 1) /\
  (exists entries, createAnalysisStructure scenarioB = Ok ("H", entries) /\
                   names entries = ["H"; "A"]).
Proof.
  split; [vm_compute; reflexivity|]. split.
  - intros fuel Hfuel. apply (haltingAnalysisF_stable scenarioB fuel 1 Hfuel).
  - eexists; split; vm_compute; reflexivity.
Qed.

Lemma scenarioB_one_failure_case_witness :
  haltingAnalysisF 9 scenarioB 1 = haltingAnalysis scenarioB 1.
Proof.
  apply (proj1 (proj2 scenarioB_one_failure_case) 9%nat). simpl. lia.
Defined.

(** ** Further properties of the code *)

(** *** The construction *)



(** X2. The entries of a graph.  The root is the first entry and its
    network object is the first input node at distance 0.  Every entry is
    live, is named after its network object, which is an input node, and
    has the top-level threshold of that node's quorum set.  The network
    object of an entry other than the root is the first input node with
    the entry's name: of input nodes that share an identifier only the
    first is used. *)
Theorem createAnalysisStructure_entries :
  forall (nodes : list NetworkGraphNode) (fuel : nat) (root : string)
         (entries : Store),
    createAnalysisStructureF nodes fuel = Ok (root, entries) ->
    (exists e0 rest,
       entries = e0 :: rest /\ name e0 = root /\
       find_node (fun n => NT.distance n =? 0) nodes = Some (networkObject e0)) /\
    (forall e, In e entries ->
       live e = true /\
       name e = NT.node (networkObject e) /\
       In (networkObject e) nodes /\
       threshold (quorumSet e) = NT.t (NT.qset (networkObject e)) /\
       (name e <> root ->
        find_node (fun n => String.eqb (NT.node n) (name e)) nodes
        = Some (networkObject e))).
Proof.
  intros nodes fuel root entries H. apply createAnalysisStructureF_Ok in H.
  destruct (createAnalysisStructure_graph _ _ _ H)
    as (home & Hhome & Hroot & _ & [Hnd _] & Hcomplete & _ & (_ & Hwalk)).
  split.
  - destruct (createAnalysisStructure_head _ _ _ H) as (e0 & rest & -> & Hname).
    exists e0, rest. split; [reflexivity|]. split; [exact Hname|].
    assert (Hl : lookup root (e0 :: rest) = Some e0)
      by (simpl; rewrite Hname, String.eqb_refl; reflexivity).
    pose proof (Hwalk _ _ Hl) as Hw.
    rewrite (walkedNode_home nodes home Hhome), Hroot, String.eqb_refl in Hw.
    injection Hw as <-. exact Hhome.
  - intros e He.
    pose proof (NoDup_lookup entries e Hnd He) as Hl.
    pose proof (walkedNode_In _ _ _ (Hwalk _ _ Hl)) as [Hin Hname].
    repeat split; auto.
    + unfold createAnalysisStructure, createAnalysisStructureF in H.
      rewrite Hhome in H.
      destruct (generateNode_run nodes _ _ _ _ _ H) as [_ Hrun].
      pose proof (run_live _ _ _ _ Hrun (Forall_nil _)) as Hlive.
      rewrite Forall_forall in Hlive. apply Hlive. exact He.
    + rewrite (Hcomplete _ _ Hl). reflexivity.
    + intros Hne. pose proof (Hwalk _ _ Hl) as Hw.
      rewrite (walkedNode_home nodes home Hhome) in Hw.
      destruct (String.eqb_spec (NT.node home) (name e)); [congruence | exact Hw].
Qed.

Lemma createAnalysisStructure_entries_witness :
  (exists e0 rest,
     entriesOf duplicateIds = e0 :: rest /\ name e0 = "H" /\
     find_node (fun n => NT.distance n =? 0) duplicateIds = Some (networkObject e0)) /\
  (forall e, In e (entriesOf duplicateIds) ->
     live e = true /\
     name e = NT.node (networkObject e) /\
     In (networkObject e) duplicateIds /\
     threshold (quorumSet e) = NT.t (NT.qset (networkObject e)) /\
     (name e <> "H" ->
      find_node (fun n => String.eqb (NT.node n) (name e)) duplicateIds
      = Some (networkObject e))) /\
  (forall e, In e (entriesOf duplicateIds) -> name e = "A" ->
     networkObject e = leaf "A" 1).
Proof.
  pose proof (createAnalysisStructure_entries duplicateIds 5 "H"
                (entriesOf duplicateIds) ltac:(vm_compute; reflexivity))
    as [Hroot Hall].
  split; [exact Hroot|]. split; [exact Hall|].
  intros e He Hname. destruct (Hall e He) as (_ & _ & _ & _ & Hfirst).
  rewrite Hname in Hfirst. specialize (Hfirst ltac:(discriminate)).
  vm_compute in Hfirst. injection Hfirst as Hfirst. symmetry. exact Hfirst.
Defined.

(** X3. The edges of a graph, on every input.  Every entry of a
    dependency list is a direct reference to an entry of the graph, every
    name in a dependents list is the name of an entry, and the two mirror
    each other: [b] occurs in the dependencies of [a] as often as [a]
    occurs in the dependents of [b]. *)
Theorem createAnalysisStructure_edges :
  forall (nodes : list NetworkGraphNode) (fuel : nat) (root : string)
         (entries : Store),
    createAnalysisStructureF nodes fuel = Ok (root, entries) ->
    forall a, In a entries ->
      (forall d, In d (dependencies (quorumSet a)) ->
         exists b, In b entries /\ d = DepName (name b)) /\
      (forall k, In k (dependentsNames a) -> exists b, In b entries /\ name b = k) /\
      (forall b, In b entries ->
         count_occ string_dec (directNames (dependencies (quorumSet a))) (name b) =
         count_occ string_dec (dependentsNames b) (name a)).
Proof.
  intros nodes fuel root entries H a Ha. apply createAnalysisStructureF_Ok in H.
  destruct (createAnalysisStructure_graph _ _ _ H)
    as (home & _ & _ & _ & [Hnd _] & _ & (Hdeps & Hdependents & Hcount) & _).
  pose proof (NoDup_lookup entries a Hnd Ha) as Hla.
  split; [|split].
  - intros d Hd. destruct (Hdeps _ _ _ Hla Hd) as (n & -> & Hn).
    destruct (lookup_In _ _ Hn) as [b Hb]. apply lookup_Some in Hb.
    destruct Hb as [<- Hb]. eauto.
  - intros k Hk. pose proof (Hdependents _ _ _ Hla Hk) as Hn.
    destruct (lookup_In _ _ Hn) as [b Hb]. apply lookup_Some in Hb.
    destruct Hb as [<- Hb]. eauto.
  - intros b Hb. apply Hcount; [exact Hla|]. apply NoDup_lookup; assumption.
Qed.

Lemma createAnalysisStructure_edges_witness :
  exists entries a,
    createAnalysisStructureF cyclic 3 = Ok ("A", entries) /\ In a entries /\
    (forall d, In d (dependencies (quorumSet a)) ->
       exists b, In b entries /\ d = DepName (name b)) /\
    (forall k, In k (dependentsNames a) -> exists b, In b entries /\ name b = k) /\
    (forall b, In b entries ->
       count_occ string_dec (directNames (dependencies (quorumSet a))) (name b) =
       count_occ string_dec (dependentsNames b) (name a)).
Proof.
  eexists. eexists. split; [vm_compute; reflexivity|].
  split; [left; reflexivity|].
  apply (createAnalysisStructure_edges cyclic 3 "A"); [vm_compute; reflexivity|].
  left. reflexivity.
Defined.

(** *** The threshold evaluation *)

(** X4. What [quorumSetMeetsThreshold] computes.  When it returns, its
    result says whether the threshold is at most the number of entries
    that count: the live direct references and the nested sets whose own
    evaluation returns [true], each for one.  So a threshold of 0 or less
    is always met, and a threshold above the number of entries never. *)
Theorem quorumSetMeetsThreshold_counts :
  forall (quorum : AnalysisQuorumSet) (s s' : PassState) (b : bool),
    quorumSetMeetsThreshold quorum s = Ok (b, s') ->
    b = (threshold quorum <=?
         Z.of_nat (length (filter (entryMeets s) (dependencies quorum)))) /\
    (threshold quorum <= 0 -> b = true) /\
    (Z.of_nat (length (dependencies quorum)) < threshold quorum -> b = false).
Proof.
  intros [t deps] s s' b H. cbn [threshold dependencies].
  pose proof (quorumSetMeetsThreshold_spec (MkAnalysisQuorumSet t deps) s) as Hs.
  unfold evaluation_spec in Hs. rewrite H in Hs. destruct Hs as (_ & _ & Hs).
  apply satisfied_count in Hs.
  rewrite (filter_ext_eq (entryMeets s) _ deps (entryMeets_satisfied s)).
  pose proof (filter_length_le (entrySatisfied (liveness (analysisNodes s))) deps) as Hle.
  split; [exact Hs|]. split; intros Ht; rewrite Hs.
  - apply Z.leb_le. lia.
  - apply Z.leb_gt. lia.
Qed.

Lemma quorumSetMeetsThreshold_counts_witness :
  true = (threshold (MkAnalysisQuorumSet 2 [DepName "A"; DepName "B"; DepName "C"]) <=?
          Z.of_nat (length (filter
            (entryMeets (MkPassState
               [newEntry (leaf "A" 1); setLive false (newEntry (leaf "B" 1));
                newEntry (leaf "C" 1)] []))
            (dependencies (MkAnalysisQuorumSet 2 [DepName "A"; DepName "B"; DepName "C"]))))) /\
  (threshold (MkAnalysisQuorumSet 2 [DepName "A"; DepName "B"; DepName "C"]) <= 0 ->
   true = true) /\
  (Z.of_nat (length (dependencies
     (MkAnalysisQuorumSet 2 [DepName "A"; DepName "B"; DepName "C"]))) <
   threshold (MkAnalysisQuorumSet 2 [DepName "A"; DepName "B"; DepName "C"]) ->
   true = false).
Proof.
  refine (quorumSetMeetsThreshold_counts
            (MkAnalysisQuorumSet 2 [DepName "A"; DepName "B"; DepName "C"])
            (MkPassState
               [newEntry (leaf "A" 1); setLive false (newEntry (leaf "B" 1));
                newEntry (leaf "C" 1)] []) _ true _).
  vm_compute. reflexivity.
Defined.

(** X5. The evaluation is monotone in liveness.  If the analysis nodes
    [st'] are the nodes [st] with some [live] flags lowered, a quorum set
    that meets its threshold on [st'] meets it on [st]; so a quorum set
    that fails once keeps failing while more nodes die.  The accumulator
    plays no part. *)
Theorem quorumSetMeetsThreshold_monotone :
  forall (quorum : AnalysisQuorumSet) (st st' : Store)
         (dead dead' : list NetworkGraphNode),
    fades st st' ->
    verdict (quorumSetMeetsThreshold quorum (MkPassState st' dead')) = Ok true ->
    verdict (quorumSetMeetsThreshold quorum (MkPassState st dead)) = Ok true.
Proof.
  intros quorum st st' dead dead' Hf. rewrite !quorumSetMeetsThreshold_verdict.
  cbn [analysisNodes].
  pose proof (satisfied_mono _ _ (fades_liveness _ _ Hf) quorum) as H.
  unfold fewerLive, implb_le in H.
  destruct (satisfied (liveness st) quorum) as [b|],
           (satisfied (liveness st') quorum) as [b'|]; try tauto; try discriminate.
  intros Hb. injection Hb as ->. rewrite (H eq_refl). reflexivity.
Qed.

Lemma quorumSetMeetsThreshold_monotone_witness :
  verdict (quorumSetMeetsThreshold (MkAnalysisQuorumSet 1 [DepName "A"; DepName "B"])
             (MkPassState [newEntry (leaf "A" 1); newEntry (leaf "B" 1)] []))
  = Ok true.
Proof.
  apply (quorumSetMeetsThreshold_monotone
           (MkAnalysisQuorumSet 1 [DepName "A"; DepName "B"])
           [newEntry (leaf "A" 1); newEntry (leaf "B" 1)]
           [setLive false (newEntry (leaf "A" 1)); newEntry (leaf "B" 1)]
           [] [leaf "A" 1]).
  - repeat constructor; simpl; auto; discriminate.
  - vm_compute. reflexivity.
Defined.

(** *** The cascade and the driver *)

(** X6. The cascade terminates on every graph that was built, cycles or
    not.  From analysis nodes [st] that are the entries of a graph with
    any [live] flags, the cascade from any of the nodes returns with any
    budget above the number of live nodes, only lowers [live] flags, and
    gives the same result with any larger budget. *)
Theorem checkDependents_terminates :
  forall (nodes : list NetworkGraphNode) (fuel0 : nat) (root : string)
         (entries st : Store) (dead : list NetworkGraphNode)
         (deadNode : AnalysisNode) (fuel : nat),
    createAnalysisStructureF nodes fuel0 = Ok (root, entries) ->
    shape st = shape entries ->
    In deadNode st ->
    (liveCount st < fuel)%nat ->
    exists s',
      checkDependents fuel deadNode (MkPassState st dead) = Ok (tt, s') /\
      fades st (analysisNodes s') /\
      forall fuel', (fuel <= fuel')%nat ->
        checkDependents fuel' deadNode (MkPassState st dead) = Ok (tt, s').
Proof.
  intros nodes fuel0 root entries st dead deadNode fuel H Hs Hin Hfuel.
  apply createAnalysisStructureF_Ok in H.
  destruct (createAnalysisStructure_graph _ _ _ H)
    as (home & _ & _ & _ & [Hnd _] & _ & Hedges & _).
  pose proof (closed_shape _ _ Hs (edges_ok_closed _ Hedges)) as Hclosed.
  rewrite <- (shape_names _ _ Hs) in Hnd.
  pose proof (checkDependents_total fuel deadNode (MkPassState st dead)) as Hw.
  cbn [analysisNodes] in Hw. specialize (Hw Hclosed).
  assert (Hdeps : forall a, In a (dependentsNames deadNode) -> In a (names st)).
  { intros a Ha. destruct Hclosed as [_ H2].
    apply (H2 (name deadNode) deadNode a); [|exact Ha].
    apply NoDup_lookup; assumption. }
  specialize (Hw Hdeps Hfuel). unfold wp in Hw.
  destruct (checkDependents fuel deadNode (MkPassState st dead)) as [[[] s']| |] eqn:Hc;
    try contradiction.
  exists s'. split; [reflexivity|]. split; [exact Hw|].
  intros fuel' Hle. rewrite <- Hc.
  apply (checkDependents_refines fuel fuel' Hle deadNode). rewrite Hc. discriminate.
Qed.

Lemma checkDependents_terminates_witness :
  exists s',
    checkDependents 3
      (MkAnalysisNode "B" false (MkAnalysisQuorumSet 1 [DepName "H"]) ["A"]
         (NT.MkNode "B" (NT.MkQuorumSet 1 [NT.Peer "H"]) 2))
      (MkPassState (passStart (entriesOf ring) "B") []) = Ok (tt, s') /\
    fades (passStart (entriesOf ring) "B") (analysisNodes s') /\
    map live (passStart (entriesOf ring) "B") = [true; true; false] /\
    map live (analysisNodes s') = [false; false; false].
Proof.
  destruct (checkDependents_terminates ring 4 "H" (entriesOf ring)
              (passStart (entriesOf ring) "B") []
              (MkAnalysisNode "B" false (MkAnalysisQuorumSet 1 [DepName "H"]) ["A"]
                 (NT.MkNode "B" (NT.MkQuorumSet 1 [NT.Peer "H"]) 2))
              3%nat ltac:(vm_compute; reflexivity) ltac:(vm_compute; reflexivity)
              ltac:(vm_compute; right; right; left; reflexivity)
              ltac:(vm_compute; lia))
    as (s' & Hc & Hf & _).
  exists s'. split; [exact Hc|]. split; [exact Hf|].
  split; [vm_compute; reflexivity|].
  vm_compute in Hc. injection Hc as <-. reflexivity.
Defined.

(** X7. The analysis fails only where the construction fails.  With any
    budget above the number of input nodes, the analysis of order 1
    returns a list of failure cases whenever the construction returns a
    graph, and throws the error of the construction otherwise: no lookup
    by [getNode] misses, and the cascades end. *)
Theorem haltingAnalysis_returns :
  forall (nodes : list NetworkGraphNode) (fuel : nat),
    (length nodes < fuel)%nat ->
    match createAnalysisStructure nodes with
    | Ok _ => exists cases, haltingAnalysisF fuel nodes 1 = Ok cases
    | Throw e => haltingAnalysisF fuel nodes 1 = Throw e
    | OutOfFuel => False
    end.
Proof.
  intros nodes fuel Hfuel.
  destruct (haltingAnalysisF_stable nodes fuel 1 Hfuel) as [-> _].
  unfold haltingAnalysis, haltingAnalysisF. simpl.
  fold (createAnalysisStructure nodes).
  pose proof (createAnalysisStructureF_total nodes (S (length nodes))
                (Nat.lt_succ_diag_r _)) as Htot.
  fold (createAnalysisStructure nodes) in Htot.
  destruct (createAnalysisStructure nodes) as [[root entries]|e|] eqn:Hc;
    [|reflexivity|contradiction].
  destruct (analysis_total nodes (S (length nodes)) root entries Hc
              (Nat.lt_succ_diag_r _)) as [[st cases] ->].
  eauto.
Qed.

Lemma haltingAnalysis_returns_witness :
  exists cases, haltingAnalysisF 3 cyclic 1 = Ok cases.
Proof.
  apply (haltingAnalysis_returns cyclic 3). simpl. lia.
Defined.

(** X8. The passes are independent.  The list the analysis returns is
    the concatenation, in the order of the entries, of what the pass for
    each entry yields when it is run alone on the graph as it was built:
    nothing for the root, and nothing or one failure case for another
    entry.  No [live] flag and no part of the accumulator of a pass
    reaches a later pass, and there are fewer failure cases than
    entries. *)
Theorem haltingAnalysis_independent_passes :
  forall (nodes : list NetworkGraphNode) (fuel : nat)
         (cases : list HaltingFailure),
    haltingAnalysisF fuel nodes 1 = Ok cases ->
    exists root entries,
      createAnalysisStructureF nodes fuel = Ok (root, entries) /\
      cases = flat_map (passCases fuel root entries) entries /\
      (length cases < length entries)%nat.
Proof.
  intros nodes fuel cases H.
  destruct (haltingAnalysisF_passes _ _ _ H) as (root & entries & Hc & ->).
  exists root, entries. split; [exact Hc|]. split; [reflexivity|].
  destruct (createAnalysisStructure_head _ _ _ (createAnalysisStructureF_Ok _ _ _ Hc))
    as (e0 & rest & -> & Hname).
  cbn [flat_map length]. rewrite length_app.
  pose proof (flat_map_length_le (passCases fuel root (e0 :: rest)) rest
                (passCases_length fuel root (e0 :: rest))) as Hle.
  unfold passCases at 1. rewrite Hname, String.eqb_refl. simpl. lia.
Qed.

Lemma haltingAnalysis_independent_passes_witness :
  exists root entries,
    createAnalysisStructureF scenarioB 4 = Ok (root, entries) /\
    [MkHaltingFailure [leaf "A" 1]
       [leaf "A" 1; NT.MkNode "H" (NT.MkQuorumSet 1 [NT.Peer "A"]) 0]]
    = flat_map (passCases 4 root entries) entries /\
    (length [MkHaltingFailure [leaf "A" 1]
               [leaf "A" 1; NT.MkNode "H" (NT.MkQuorumSet 1 [NT.Peer "A"]) 0]]
     < length entries)%nat.
Proof.
  apply (haltingAnalysis_independent_passes scenarioB 4).
  vm_compute. reflexivity.
Defined.

(** X9. What a failure case holds.  Every failure case the analysis
    returns comes from the pass of an entry other than the root; its
    vulnerable nodes are the network object of that entry alone; its
    affected nodes have pairwise different identifiers and are exactly
    the network objects of the nodes that are dead at the end of the
    pass, among them the vulnerable node itself and the home node. *)
Theorem haltingAnalysis_failure_cases :
  forall (nodes : list NetworkGraphNode) (fuel : nat)
         (cases : list HaltingFailure),
    haltingAnalysisF fuel nodes 1 = Ok cases ->
    exists root entries,
      createAnalysisStructureF nodes fuel = Ok (root, entries) /\
      forall f, In f cases ->
        exists x s r,
          In x entries /\ name x <> root /\
          pass fuel x (MkPassState (reset entries) []) = Ok (tt, s) /\
          vulnerableNodes f = [networkObject x] /\
          NoDup (map NT.node (affectedNodes f)) /\
          (forall n, In n (affectedNodes f) <->
             exists e, In e (analysisNodes s) /\ live e = false /\
                       networkObject e = n) /\
          In (networkObject x) (affectedNodes f) /\
          In r (analysisNodes s) /\ name r = root /\ live r = false /\
          In (networkObject r) (affectedNodes f).
Proof.
  intros nodes fuel cases H.
  destruct (haltingAnalysisF_passes _ _ _ H) as (root & entries & Hc & ->).
  exists root, entries. split; [exact Hc|].
  pose proof (createAnalysisStructureF_Ok _ _ _ Hc) as Hgraph.
  intros f Hf. apply in_flat_map in Hf. destruct Hf as (x & Hx & Hf).
  destruct (passCases_In _ _ _ _ _ Hf) as (Hne & s & r & Hp & Hr & Hlive & ->).
  destruct (lookup_Some _ _ _ Hr) as [Hname Hrin].
  destruct (pass_deadNodes nodes root entries Hgraph fuel x s Hx Hp) as [Hxin Hiff].
  { exists r. repeat split; auto. congruence. }
  exists x, s, r. cbn [vulnerableNodes affectedNodes].
  repeat split; auto.
  - apply dedupe_NoDup.
  - apply Hiff.
  - apply Hiff.
  - apply Hiff. destruct (pass_result nodes root entries Hgraph fuel x s Hx Hp)
      as (_ & (ex & Hex & Hdx & _) & _).
    exists ex. split; [apply (lookup_Some _ _ _ Hex)|]. split; [exact Hdx|].
    destruct (pass_result nodes root entries Hgraph fuel x s Hx Hp) as (Hfd & _).
    assert (Hs : shape (analysisNodes s) = shape entries)
      by (rewrite (fades_shape _ _ Hfd); apply passStart_shape).
    destruct (shape_lookup_object _ _ _ _ Hs Hex) as (e0 & He0 & <-).
    rewrite (NoDup_lookup entries x (graph_NoDup nodes root entries Hgraph) Hx) in He0.
    injection He0 as <-. reflexivity.
  - apply Hiff. eauto.
Qed.

Lemma haltingAnalysis_failure_cases_witness :
  exists root entries,
    createAnalysisStructureF scenarioB 4 = Ok (root, entries) /\
    forall f,
      In f [MkHaltingFailure [leaf "A" 1]
              [leaf "A" 1; NT.MkNode "H" (NT.MkQuorumSet 1 [NT.Peer "A"]) 0]] ->
      exists x s r,
        In x entries /\ name x <> root /\
        pass 4 x (MkPassState (reset entries) []) = Ok (tt, s) /\
        vulnerableNodes f = [networkObject x] /\
        NoDup (map NT.node (affectedNodes f)) /\
        (forall n, In n (affectedNodes f) <->
           exists e, In e (analysisNodes s) /\ live e = false /\
                     networkObject e = n) /\
        In (networkObject x) (affectedNodes f) /\
        In r (analysisNodes s) /\ name r = root /\ live r = false /\
        In (networkObject r) (affectedNodes f).
Proof.
  apply (haltingAnalysis_failure_cases scenarioB 4).
  vm_compute. reflexivity.
Defined.

(** X10. The cascade kills no node that meets its threshold.  At the end
    of the pass for a candidate, the quorum set of every dead node other
    than the candidate fails its threshold on the final [live] flags, and
    that threshold is positive: a node with a threshold of 0 or less dies
    only as the candidate. *)
Theorem cascade_deaths_sound :
  forall (nodes : list NetworkGraphNode) (fuel0 : nat) (root : string)
         (entries : Store) (x : AnalysisNode) (fuel : nat) (s : PassState),
    createAnalysisStructureF nodes fuel0 = Ok (root, entries) ->
    In x entries ->
    pass fuel x (MkPassState (reset entries) []) = Ok (tt, s) ->
    forall e, In e (analysisNodes s) -> live e = false -> name e <> name x ->
      verdict (quorumSetMeetsThreshold (quorumSet e) s) = Ok false /\
      0 < threshold (quorumSet e).
Proof.
  intros nodes fuel0 root entries x fuel s Hc Hx Hp e He Hd Hne.
  pose proof (createAnalysisStructureF_Ok _ _ _ Hc) as Hgraph.
  destruct (pass_result nodes root entries Hgraph fuel x s Hx Hp)
    as (Hf & _ & _ & _ & Hsound & _).
  assert (Hs : shape (analysisNodes s) = shape entries)
    by (rewrite (fades_shape _ _ Hf); apply passStart_shape).
  destruct (Hsound _ e (In_lookup nodes root entries Hgraph _ _ Hs He) Hd)
    as [Hname|Hsat]; [contradiction|].
  split.
  - rewrite quorumSetMeetsThreshold_verdict, Hsat. reflexivity.
  - rewrite (quorumSet_eta (quorumSet e)) in Hsat.
    apply satisfied_count in Hsat. symmetry in Hsat. apply Z.leb_gt in Hsat. lia.
Qed.

Lemma cascade_deaths_sound_witness :
  exists (entries : Store) (s : PassState) (e : AnalysisNode),
    createAnalysisStructureF scenarioB 4 = Ok ("H", entries) /\
    pass 4 (MkAnalysisNode "A" true (MkAnalysisQuorumSet 0 []) ["H"] (leaf "A" 1))
      (MkPassState (reset entries) []) = Ok (tt, s) /\
    name e = "H" /\
    verdict (quorumSetMeetsThreshold (quorumSet e) s) = Ok false /\
    0 < threshold (quorumSet e).
Proof.
  eexists. eexists. eexists.
  split; [vm_compute; reflexivity|]. split; [vm_compute; reflexivity|].
  split; [|refine (cascade_deaths_sound scenarioB 4 "H" _
             (MkAnalysisNode "A" true (MkAnalysisQuorumSet 0 []) ["H"] (leaf "A" 1))
             4 _ ltac:(vm_compute; reflexivity) ltac:(right; left; reflexivity)
             ltac:(vm_compute; reflexivity) _ (or_introl eq_refl) eq_refl _)].
  - reflexivity.
  - discriminate.
Defined.

(** X11. A home node that needs nobody is never halted.  When the
    threshold of the home node's quorum set is 0 or less, the analysis
    returns no failure case. *)
Theorem haltingAnalysis_home_threshold_0 :
  forall (nodes : list NetworkGraphNode) (fuel : nat)
         (cases : list HaltingFailure) (home : NetworkGraphNode),
    find_node (fun n => NT.distance n =? 0) nodes = Some home ->
    NT.t (NT.qset home) <= 0 ->
    haltingAnalysisF fuel nodes 1 = Ok cases ->
    cases = [].
Proof.
  intros nodes fuel cases home Hhome Ht H.
  destruct (haltingAnalysisF_passes _ _ _ H) as (root & entries & Hc & ->).
  pose proof (createAnalysisStructureF_Ok _ _ _ Hc) as Hgraph.
  apply flat_map_nil. intros x Hx.
  destruct (passCases fuel root entries x) as [|f l] eqn:Hcases; [reflexivity|].
  exfalso.
  assert (Hf : In f (passCases fuel root entries x)) by (rewrite Hcases; left; reflexivity).
  destruct (passCases_In _ _ _ _ _ Hf) as (Hne & s & r & Hp & Hr & Hlive & _).
  destruct (pass_result nodes root entries Hgraph fuel x s Hx Hp)
    as (Hfd & _ & _ & _ & Hsound & _).
  assert (Hs : shape (analysisNodes s) = shape entries)
    by (rewrite (fades_shape _ _ Hfd); apply passStart_shape).
  destruct (Hsound _ _ Hr Hlive) as [Hname|Hsat]; [congruence|].
  rewrite (quorumSet_eta (quorumSet r)) in Hsat.
  apply satisfied_count in Hsat. symmetry in Hsat. apply Z.leb_gt in Hsat.
  rewrite (graph_root_threshold nodes root entries home _ r Hgraph Hhome Hs Hr) in Hsat.
  lia.
Qed.

Lemma haltingAnalysis_home_threshold_0_witness :
  (exists s,
     pass 5 (MkAnalysisNode "B" true (MkAnalysisQuorumSet 0 []) ["A"; "H"; "C"]
               (leaf "B" 1))
       (MkPassState (reset (entriesOf idleHome)) []) = Ok (tt, s) /\
     map live (analysisNodes s) = [true; false; false; false]) /\
  haltingAnalysisF 5 idleHome 1 = Ok [] /\ [] = @nil HaltingFailure.
Proof.
  split; [eexists; split; vm_compute; reflexivity|].
  split; [vm_compute; reflexivity|].
  apply (haltingAnalysis_home_threshold_0 idleHome 5 []
           (NT.MkNode "H" (NT.MkQuorumSet 0 [NT.Peer "A"; NT.Peer "B"; NT.Peer "C"]) 0)).
  - reflexivity.
  - simpl. lia.
  - vm_compute. reflexivity.
Defined.

(** X12. The cascade leaves no work undone.  At the end of the pass for a
    candidate, every live node that has a direct reference to a dead node
    meets its threshold on the final [live] flags: no node that should
    have died is left live, whatever the order of the dependents lists
    and whatever cycles the graph has. *)
Theorem cascade_complete :
  forall (nodes : list NetworkGraphNode) (fuel0 : nat) (root : string)
         (entries : Store) (x : AnalysisNode) (fuel : nat) (s : PassState),
    createAnalysisStructureF nodes fuel0 = Ok (root, entries) ->
    In x entries ->
    pass fuel x (MkPassState (reset entries) []) = Ok (tt, s) ->
    forall e y, In e (analysisNodes s) -> live e = true ->
      In (DepName (name y)) (dependencies (quorumSet e)) ->
      In y (analysisNodes s) -> live y = false ->
      verdict (quorumSetMeetsThreshold (quorumSet e) s) = Ok true.
Proof.
  intros nodes fuel0 root entries x fuel s Hc Hx Hp e y He Hlive Hdep Hy Hdy.
  pose proof (createAnalysisStructureF_Ok _ _ _ Hc) as Hgraph.
  destruct (pass_result nodes root entries Hgraph fuel x s Hx Hp) as (Hf & _).
  assert (Hs : shape (analysisNodes s) = shape entries)
    by (rewrite (fades_shape _ _ Hf); apply passStart_shape).
  pose proof (edges_ok_shape _ _ Hs (graph_edges_ok nodes root entries Hgraph)) as Hedges.
  assert (Hnone : forall y0 d, ~ pending (analysisNodes s) y0 d).
  { intros y0 d Hpend. revert Hp. unfold pass, bind at 1, markDead, modify.
    cbn [analysisNodes deadNodes]. fold (passStart entries (name x)). intros Hcd.
    pose proof (checkDependents_leaves_nothing anyError I fuel x
                  (MkPassState (passStart entries (name x)) [])) as Hw.
    cbn [analysisNodes] in Hw.
    specialize (Hw (edges_ok_shape _ _ (passStart_shape entries (name x))
                      (graph_edges_ok nodes root entries Hgraph))
                   (passStart_isDead entries x [] (graph_NoDup nodes root entries Hgraph) Hx)).
    unfold wp in Hw. rewrite Hcd in Hw.
    destruct (Hw y0 d Hpend) as [(e0 & He0 & Hl0) Hne].
    apply Hne. eapply passStart_dead; eassumption. }
  pose proof (In_lookup nodes root entries Hgraph _ _ Hs He) as Hle.
  pose proof (In_lookup nodes root entries Hgraph _ _ Hs Hy) as Hly.
  rewrite quorumSetMeetsThreshold_verdict.
  destruct (satisfied (liveness (analysisNodes s)) (quorumSet e)) as [[|]|] eqn:Hsat.
  - reflexivity.
  - exfalso. apply (Hnone (name y) (name e)).
    split; [exists y; auto|]. split; [exists e; auto | exists e; auto].
  - exfalso. revert Hsat. rewrite (quorumSet_eta (quorumSet e)).
    apply satisfied_direct. intros d Hd.
    destruct Hedges as (Hdeps & _). apply (Hdeps _ _ _ Hle Hd).
Qed.

Lemma cascade_complete_witness :
  exists (entries : Store) (s : PassState) (e : AnalysisNode),
    createAnalysisStructureF scenarioA 5 = Ok ("H", entries) /\
    pass 5 (MkAnalysisNode "A" true (MkAnalysisQuorumSet 0 []) ["H"] (leaf "A" 1))
      (MkPassState (reset entries) []) = Ok (tt, s) /\
    name e = "H" /\ live e = true /\
    verdict (quorumSetMeetsThreshold (quorumSet e) s) = Ok true.
Proof.
  eexists. eexists. eexists.
  split; [vm_compute; reflexivity|]. split; [vm_compute; reflexivity|].
  split; [|split; [|refine (cascade_complete scenarioA 5 "H" _
             (MkAnalysisNode "A" true (MkAnalysisQuorumSet 0 []) ["H"] (leaf "A" 1))
             5 _ ltac:(vm_compute; reflexivity) ltac:(right; left; reflexivity)
             ltac:(vm_compute; reflexivity) _
             (MkAnalysisNode "A" false (MkAnalysisQuorumSet 0 []) ["H"] (leaf "A" 1))
             (or_introl eq_refl) eq_refl _ _ eq_refl)]].
  - reflexivity.
  - reflexivity.
  - left. reflexivity.
  - right. left. reflexivity.
Defined.

(** X13. The cascade kills as few nodes as possible.  Take any [live]
    flags on the graph that have the candidate dead and are stable, that
    is, every live node with a direct reference to a dead node meets its
    threshold.  Then every node that is dead at the end of the pass for
    the candidate is dead under those flags too.  With X10 and X12 the
    pass ends in the least stable assignment, so the affected nodes do
    not depend on the order in which the cascade visits the dependents. *)
Theorem cascade_least_stable :
  forall (nodes : list NetworkGraphNode) (fuel0 : nat) (root : string)
         (entries : Store) (x : AnalysisNode) (fuel : nat) (s : PassState)
         (stable_nodes : Store),
    createAnalysisStructureF nodes fuel0 = Ok (root, entries) ->
    In x entries ->
    pass fuel x (MkPassState (reset entries) []) = Ok (tt, s) ->
    shape stable_nodes = shape entries ->
    deadIn stable_nodes (name x) ->
    stable stable_nodes ->
    fades (analysisNodes s) stable_nodes.
Proof.
  intros nodes fuel0 root entries x fuel s stable_nodes Hc Hx Hp Hs Hdx Hstable.
  pose proof (createAnalysisStructureF_Ok _ _ _ Hc) as Hgraph.
  pose proof (graph_NoDup nodes root entries Hgraph) as Hnd.
  revert Hp. unfold pass, bind at 1, markDead, modify.
  cbn [analysisNodes deadNodes]. fold (passStart entries (name x)). intros Hcd.
  pose proof (checkDependents_below_stable anyError stable_nodes fuel x
                (MkPassState (passStart entries (name x)) []) I) as Hw.
  cbn [analysisNodes] in Hw.
  assert (Hnd' : NoDup (names stable_nodes)) by (rewrite (shape_names _ _ Hs); exact Hnd).
  specialize (Hw (edges_ok_shape _ _ Hs (graph_edges_ok nodes root entries Hgraph))
                 Hstable Hnd').
  unfold wp in Hw. rewrite Hcd in Hw. apply Hw.
  - apply shape_fades.
    + rewrite (shape_names _ _ (passStart_shape entries (name x))). exact Hnd.
    + rewrite Hs. symmetry. apply passStart_shape.
    + intros k e Hk Hl. rewrite (passStart_dead _ _ _ _ Hk Hl). exact Hdx.
  - apply passStart_isDead; assumption.
Qed.

Lemma cascade_least_stable_witness :
  exists s : PassState,
    pass 6 (MkAnalysisNode "A" true (MkAnalysisQuorumSet 0 []) ["H"; "C"; "D"]
              (leaf "A" 1))
      (MkPassState (reset (entriesOf backedUp)) []) = Ok (tt, s) /\
    map live (analysisNodes s) = [false; false; true; true; true] /\
    map live (update "D" (setLive false)
                (update "H" (setLive false) (passStart (entriesOf backedUp) "A")))
    = [false; false; true; true; false] /\
    fades (analysisNodes s)
      (update "D" (setLive false)
         (update "H" (setLive false) (passStart (entriesOf backedUp) "A"))).
Proof.
  eexists. split; [vm_compute; reflexivity|].
  split; [vm_compute; reflexivity|]. split; [vm_compute; reflexivity|].
  apply (cascade_least_stable backedUp 6 "H" (entriesOf backedUp)
           (MkAnalysisNode "A" true (MkAnalysisQuorumSet 0 []) ["H"; "C"; "D"]
              (leaf "A" 1))
           6 _
           (update "D" (setLive false)
              (update "H" (setLive false) (passStart (entriesOf backedUp) "A")))).
  - vm_compute. reflexivity.
  - vm_compute. right. left. reflexivity.
  - vm_compute. reflexivity.
  - vm_compute. reflexivity.
  - eexists. split; vm_compute; reflexivity.
  - intros e y He Hl Hdep Hy. vm_compute in He.
    destruct He as [<-|[<-|[<-|[<-|[<-|[]]]]]]; try discriminate;
      vm_compute; reflexivity.
Defined.

(** X14. The error of the evaluation.  [quorumSetMeetsThreshold] throws
    exactly when a direct reference of the quorum set, or of a set nested
    in it, names no analysis node, and what it throws is the [TypeError]
    of [getNode]; otherwise it returns.  Since all entries are visited,
    an unknown name is found wherever it stands. *)
Theorem quorumSetMeetsThreshold_errors :
  forall (quorum : AnalysisQuorumSet) (s : PassState),
    (quorumSetMeetsThreshold quorum s = Throw TypeError <->
     exists n, In n (directReferences quorum) /\
               ~ In n (names (analysisNodes s))) /\
    ((exists b s', quorumSetMeetsThreshold quorum s = Ok (b, s')) <->
     forall n, In n (directReferences quorum) -> In n (names (analysisNodes s))).
Proof.
  intros quorum s.
  pose proof (quorumSetMeetsThreshold_spec quorum s) as Hspec.
  pose proof (satisfied_None (liveness (analysisNodes s)) quorum) as Hnone.
  assert (Hl : forall n, liveness (analysisNodes s) n = None <->
                         ~ In n (names (analysisNodes s))).
  { intros n. unfold liveness. rewrite <- lookup_None.
    destruct (lookup n (analysisNodes s)); simpl; split; congruence. }
  assert (Hthrow : quorumSetMeetsThreshold quorum s = Throw TypeError <->
                   exists n, In n (directReferences quorum) /\
                             ~ In n (names (analysisNodes s))).
  { split.
    - intros H. rewrite H in Hspec. destruct Hspec as [_ Hs].
      apply Hnone in Hs. destruct Hs as (n & Hn & Hln). exists n. split; [exact Hn|].
      apply Hl. exact Hln.
    - intros (n & Hn & Hnot).
      assert (Hs : satisfied (liveness (analysisNodes s)) quorum = None).
      { apply Hnone. exists n. split; [exact Hn | apply Hl; exact Hnot]. }
      unfold evaluation_spec in Hspec.
      destruct (quorumSetMeetsThreshold quorum s) as [[b s']|e|].
      + destruct Hspec as (_ & _ & Hb). congruence.
      + destruct Hspec as [-> _]. reflexivity.
      + destruct Hspec. }
  split; [exact Hthrow|]. split.
  - intros (b & s' & H) n Hn.
    destruct (in_dec string_dec n (names (analysisNodes s))) as [|Hnot]; [assumption|].
    assert (Ht : quorumSetMeetsThreshold quorum s = Throw TypeError)
      by (apply Hthrow; eauto).
    congruence.
  - intros Hall.
    assert (Hno : quorumSetMeetsThreshold quorum s <> Throw TypeError).
    { intros Ht. apply Hthrow in Ht. destruct Ht as (n & Hn & Hnot).
      apply Hnot. apply Hall. exact Hn. }
    unfold evaluation_spec in Hspec.
    destruct (quorumSetMeetsThreshold quorum s) as [[b s']|e|]; [eauto| |destruct Hspec].
    destruct Hspec as [-> _]. exfalso. apply Hno. reflexivity.
Qed.

Lemma quorumSetMeetsThreshold_errors_witness :
  quorumSetMeetsThreshold
    (MkAnalysisQuorumSet 0 [DepSet (MkAnalysisQuorumSet 0 [DepName "Z"])])
    (MkPassState [newEntry (leaf "A" 1)] []) = Throw TypeError.
Proof.
  apply (proj1 (quorumSetMeetsThreshold_errors
                  (MkAnalysisQuorumSet 0 [DepSet (MkAnalysisQuorumSet 0 [DepName "Z"])])
                  (MkPassState [newEntry (leaf "A" 1)] []))).
  exists "Z". split; [left; reflexivity|]. simpl. intuition discriminate.
Defined.
